(** * gulp-sass-alt: a shallow embedding of [index.js]

    The plugin exports a factory whose instance owns one mutable array,
    [libList], and four [through2] object-stream stages.  The stages
    [libraries], [transpile] and [sassReporter] are embedded here, and
    of [injectAppCSS] the computation of the glob it searches:

    - JavaScript strings are sequences of UTF-16 code units ([jstr]);
    - the shared array [libList] is threaded explicitly through every
      function that reads or writes it;
    - a stage is a transform function from one chunk (and the state it
      closes over) to what it pushes, whether it calls [done], and
      whether it throws;
    - the callbacks handed to [sass.render] are the two continuations of
      a [Render] node in a tree of actions ([proc]);
    - the platform functions the plugin calls ([RegExp.prototype.exec],
      [String.prototype.replace], [JSON.parse], [JSON.stringify],
      [path.basename], [path.extname], [path.resolve]) are given
      executable models. *)

From Stdlib Require Import String Ascii List NArith ZArith Lia Bool Sorted DecimalN.
Import ListNotations.

Set Implicit Arguments.
Set Warnings "-register-all".

(* ================================================================== *)
(** * Part I: definitions                                              *)
(* ================================================================== *)

(** ** JavaScript strings *)

(** A code unit of a JavaScript string. *)
Definition char := N.

(** A JavaScript string: its code units, in order. *)
Definition jstr := list char.

(** The JavaScript string whose code units are the bytes of an ASCII
    literal. *)
Definition lit (s : string) : jstr := map N_of_ascii (list_ascii_of_string s).

(** [a === b] on strings. *)
Fixpoint str_eqb (a b : jstr) : bool :=
  match a, b with
  | [], [] => true
  | x :: a', y :: b' => N.eqb x y && str_eqb a' b'
  | _, _ => false
  end.

(** [s.indexOf(sub) === 0] on strings: [sub] is a prefix of [s]; the
    result is what follows the prefix. *)
Fixpoint strip_prefix (sub s : jstr) : option jstr :=
  match sub, s with
  | [], _ => Some s
  | x :: sub', y :: s' => if N.eqb x y then strip_prefix sub' s' else None
  | _ :: _, [] => None
  end.

(** [s.indexOf(sub) >= 0] on strings. *)
Fixpoint contains (sub s : jstr) : bool :=
  match strip_prefix sub s with
  | Some _ => true
  | None => match s with
            | [] => false
            | _ :: s' => contains sub s'
            end
  end.

(** [Array.prototype.join] on an array of strings. *)
Fixpoint join (sep : jstr) (l : list jstr) : jstr :=
  match l with
  | [] => []
  | [x] => x
  | x :: r => x ++ sep ++ join sep r
  end.

(** [Array.prototype.indexOf] on an array of strings, with strict
    equality: the first index holding [v], or [-1]. *)
Fixpoint indexOf (l : list jstr) (v : jstr) : Z :=
  match l with
  | [] => (-1)%Z
  | x :: r =>
      if str_eqb x v then 0%Z
      else let i := indexOf r v in
           if (i <? 0)%Z then (-1)%Z else (i + 1)%Z
  end.

(** ** JavaScript values, as far as [addUnique] tells them apart *)

Inductive jsval : Type :=
| VUndefined
| VNull
| VBoolean (b : bool)
| VNumber (n : Z)
| VString (s : jstr)
| VArray (elems : list jsval)
| VObject.

(** ** Files in flight (vinyl [File] objects)

    [contents] is [None] for a null file ([file.isNull()]) and the text
    of the buffer otherwise.  [sassSource] and [sassError] are the two
    properties [transpile] attaches to the record of a failed
    compilation; they are absent ([None]) on every other record. *)

Inductive File : Type := mkFile {
  cwd        : jstr;
  base       : jstr;
  path       : jstr;
  contents   : option jstr;
  sassSource : option File;
  sassError  : option jstr
}.

(** [file.isNull()] *)
Definition isNull (file : File) : bool :=
  match contents file with None => true | Some _ => false end.

(** ** The shared library list and [addUnique] (index.js, lines 18-30) *)

Fixpoint addUnique (value : jsval) (libList : list jstr) {struct value} : list jstr :=
  match value with
  | VArray elems =>
      (fix forEach (vs : list jsval) (libList : list jstr) {struct vs} : list jstr :=
         match vs with
         | [] => libList
         | v :: vs' => forEach vs' (addUnique v libList)
         end) elems libList
  | VString s =>
      if (indexOf libList s <? 0)%Z then libList ++ [s] else libList
  | _ => libList
  end.

(** ** Object-mode [through2] stages

    A transform function handles one chunk: it may push records, and it
    either calls [done] ([Completed]), returns without ever calling it
    ([Stalled]), or throws ([Threw]).  The stream hands the next chunk
    to the transform only after [done]. *)

Inductive exn : Type := SyntaxError | TypeError | ReferenceError | RangeError.

Inductive signal : Type :=
| Completed
| Stalled
| Threw (e : exn)
| Unknown.   (* the chunk took the stage outside the model *)

Record step (S : Type) : Type := mkStep {
  st_next   : S;
  st_pushed : list File;
  st_signal : signal
}.

(** Feeding a sequence of chunks to a stage whose transform is [tr]. *)
Fixpoint through_obj {S : Type} (tr : File -> S -> step S) (files : list File) (s : S)
  : step S :=
  match files with
  | [] => mkStep s [] Completed
  | f :: rest =>
      let r := tr f s in
      match st_signal r with
      | Completed =>
          let r' := through_obj tr rest (st_next r) in
          mkStep (st_next r') (st_pushed r ++ st_pushed r') (st_signal r')
      | _ => r
      end
  end.

(** ** [libraries] (index.js, lines 43-50) *)

(** The call [libraries(arg1, ..., argn)] itself: the arguments, as an
    array, go through [addUnique] before the stage is returned. *)
Definition libraries (arguments : list jsval) (libList : list jstr) : list jstr :=
  addUnique (VArray arguments) libList.

(** The transform of the stage that [libraries] returns; its state is
    the shared [libList]. *)
Definition libraries_transform (file : File) (libList : list jstr) : step (list jstr) :=
  mkStep (addUnique (VString (base file)) libList) [file] Completed.

(** Constructing the stage and passing [files] through it. *)
Definition libraries_stage (arguments : list jsval) (files : list File)
    (libList : list jstr) : step (list jstr) :=
  through_obj libraries_transform files (libraries arguments libList).

(** Each distinct string once, in the order of first appearance, given
    the strings [seen] so far: what [libList] is said to hold (the
    wording of the specification, to compare [addUnique] with). *)
Fixpoint first_seen_from (seen : list jstr) (l : list jstr) : list jstr :=
  match l with
  | [] => []
  | x :: r =>
      if existsb (str_eqb x) seen then first_seen_from seen r
      else x :: first_seen_from (seen ++ [x]) r
  end.

(** The strings an argument of [libraries] stands for: itself when it is
    a string, the strings of its elements, to any depth, when it is an
    array, none otherwise. *)
Fixpoint strings_of (value : jsval) : list jstr :=
  match value with
  | VString s => [s]
  | VArray elems =>
      (fix each (vs : list jsval) : list jstr :=
         match vs with
         | [] => []
         | v :: vs' => strings_of v ++ each vs'
         end) elems
  | _ => []
  end.

(** ** Regular expressions

    The fragment of ECMAScript regular expressions the plugin uses:
    character classes, greedy repetition of a class, sequence,
    alternation and numbered capturing groups.  There are no anchors,
    look-behinds or back-references, so whether a pattern matches at a
    position depends only on the text from that position on. *)

Inductive regex : Type :=
| Eps
| Class (p : char -> bool)
| Star (p : char -> bool)
| Seq (r1 r2 : regex)
| Alt (r1 r2 : regex)
| Group (i : nat) (r : regex).

(** The strings captured so far, by group number. *)
Definition captures := list (nat * jstr).

Fixpoint capture (i : nat) (caps : captures) : option jstr :=
  match caps with
  | [] => None
  | (j, s) :: r => if Nat.eqb i j then Some s else capture i r
  end.

Section Matcher.
Variable R : Type.

(** Greedy [c*]: as many characters of the class as possible first,
    then one fewer each time the continuation fails. *)
Fixpoint star_class (p : char -> bool) (s : jstr) (k : jstr -> option R) : option R :=
  match s with
  | c :: s' =>
      if p c then
        match star_class p s' k with
        | Some r => Some r
        | None => k s
        end
      else k s
  | [] => k []
  end.

(** The backtracking matcher, in continuation-passing style: [k]
    receives what is left of the text and the captures. *)
Fixpoint matcher (r : regex) (s : jstr) (caps : captures)
    (k : jstr -> captures -> option R) : option R :=
  match r with
  | Eps => k s caps
  | Class p =>
      match s with
      | c :: s' => if p c then k s' caps else None
      | [] => None
      end
  | Star p => star_class p s (fun s' => k s' caps)
  | Seq r1 r2 => matcher r1 s caps (fun s1 caps1 => matcher r2 s1 caps1 k)
  | Alt r1 r2 =>
      match matcher r1 s caps k with
      | Some x => Some x
      | None => matcher r2 s caps k
      end
  | Group i r1 =>
      matcher r1 s caps
        (fun s1 caps1 => k s1 ((i, firstn (length s - length s1) s) :: caps1))
  end.
End Matcher.

(** The match of [r] that starts at the first character of [s], if any:
    what follows the match, and the captures. *)
Definition match_at (r : regex) (s : jstr) : option (jstr * captures) :=
  matcher r s [] (fun s' caps => Some (s', caps)).

(** [r.exec(s)] for a pattern without the [g] flag: the match at the
    leftmost position that has one. *)
Fixpoint exec (r : regex) (s : jstr) : option captures :=
  match match_at r s with
  | Some (_, caps) => Some caps
  | None =>
      match s with
      | [] => None
      | _ :: s' => exec r s'
      end
  end.

(** [s.replace(r, '')] for a pattern with the [g] flag: the matches are
    found from left to right, each search starting where the previous
    match ended (one character later after an empty match), and every
    match is deleted.  [skip] counts the characters of the current match
    still to delete. *)
Fixpoint remove_matches (r : regex) (skip : nat) (s : jstr) : jstr :=
  match s with
  | [] => []
  | c :: s' =>
      match skip with
      | S n => remove_matches r n s'
      | O =>
          match match_at r s with
          | Some (rest, _) =>
              match length s - length rest with
              | O => c :: remove_matches r 0 s'
              | S m => remove_matches r m s'
              end
          | None => c :: remove_matches r 0 s'
          end
      end
  end.

Definition replace_all (r : regex) (s : jstr) : jstr := remove_matches r 0 s.



(** [s.replace(pattern, '')] for a string [pattern]: only the first
    occurrence is deleted. *)
Fixpoint replace_first (pattern s : jstr) : jstr :=
  match strip_prefix pattern s with
  | Some rest => rest
  | None =>
      match s with
      | [] => []
      | c :: s' => c :: replace_first pattern s'
      end
  end.

(** The pattern of a literal string. *)
Definition literal (s : jstr) : regex :=
  fold_right (fun c r => Seq (Class (N.eqb c)) r) Eps s.

(** [.]: any character but a line terminator. *)
Definition re_dot (c : char) : bool :=
  negb (N.eqb c 10 || N.eqb c 13 || N.eqb c 8232 || N.eqb c 8233)%N.

(** [\d] *)
Definition re_digit (c : char) : bool := (N.leb 48 c && N.leb c 57)%N.

(** [\s]: white space and line terminators. *)
Definition re_space (c : char) : bool :=
  (N.leb 9 c && N.leb c 13) || N.eqb c 32 || N.eqb c 160 || N.eqb c 5760
  || (N.leb 8192 c && N.leb c 8202) || N.eqb c 8232 || N.eqb c 8233
  || N.eqb c 8239 || N.eqb c 8287 || N.eqb c 12288 || N.eqb c 65279.

(** ** Paths (Node's [path] module, POSIX flavour) *)

Definition slash_char : char := 47%N.
Definition backslash_char : char := 92%N.
Definition dot_char : char := 46%N.

Definition is_slash (c : char) : bool := N.eqb c slash_char.

Fixpoint drop_while (p : char -> bool) (s : jstr) : jstr :=
  match s with
  | c :: s' => if p c then drop_while p s' else s
  | [] => []
  end.

Fixpoint take_while (p : char -> bool) (s : jstr) : jstr :=
  match s with
  | c :: s' => if p c then c :: take_while p s' else []
  | [] => []
  end.

(** [path.basename(p)]: the last portion of the path, trailing
    separators ignored. *)
Definition basename (p : jstr) : jstr :=
  rev (take_while (fun c => negb (is_slash c)) (drop_while is_slash (rev p))).

(** [path.extname(p)]: from the last dot of the basename to its end;
    empty when there is no dot, when the only dot is the first
    character, and for the basename [..]. *)
Definition extname (p : jstr) : jstr :=
  let b := rev (basename p) in
  let after := take_while (fun c => negb (N.eqb c dot_char)) b in
  match drop_while (fun c => negb (N.eqb c dot_char)) b with
  | [] => []
  | _ :: [] => []
  | _ :: _ :: _ =>
      if str_eqb (basename p) [dot_char; dot_char] then []
      else dot_char :: rev after
  end.

(** [s] without its suffix [ext], when it ends with [ext]. *)
Definition strip_suffix (ext s : jstr) : option jstr :=
  match strip_prefix (rev ext) (rev s) with
  | Some r => Some (rev r)
  | None => None
  end.

(** [path.basename(p, ext)]: the basename without the suffix [ext].  A
    basename that is the suffix itself is kept, unless it is the whole
    path. *)
Definition basename_ext (p ext : jstr) : jstr :=
  match ext with
  | [] => basename p
  | _ =>
      if str_eqb ext p then []
      else match strip_suffix ext (basename p) with
           | Some [] => basename p
           | Some stem => stem
           | None => basename p
           end
  end.

(** [s.split(sep)] for a one-character separator. *)
Fixpoint split_on (sep : char) (s : jstr) : list jstr :=
  match s with
  | [] => [[]]
  | c :: s' =>
      if N.eqb c sep then [] :: split_on sep s'
      else match split_on sep s' with
           | seg :: segs => (c :: seg) :: segs
           | [] => [[c]]
           end
  end.

(** The segments of an absolute path with [.] and empty segments
    dropped and [..] resolved; [acc] holds the segments kept so far,
    last first. *)
Fixpoint normalize_segments (segs acc : list jstr) : list jstr :=
  match segs with
  | [] => rev acc
  | seg :: segs' =>
      if str_eqb seg [] || str_eqb seg [dot_char] then normalize_segments segs' acc
      else if str_eqb seg [dot_char; dot_char] then normalize_segments segs' (tl acc)
      else normalize_segments segs' (seg :: acc)
  end.

(** [path.resolve(p)] in a process whose working directory is
    [process_cwd] (an absolute path). *)
Definition posix_resolve (process_cwd p : jstr) : jstr :=
  let full := match p with
              | c :: _ => if is_slash c then p else process_cwd ++ [slash_char] ++ p
              | [] => process_cwd
              end in
  slash_char :: join [slash_char] (normalize_segments (split_on slash_char full) []).

(** The text starts with the prefix of an extended-length path: two
    backslashes, a question mark and a backslash. *)
Definition extended_length_path (text : jstr) : bool :=
  match strip_prefix (lit "\\?\") text with
  | Some _ => true
  | None => false
  end.

(** The text holds a code unit above U+0080. *)
Definition has_non_ascii (text : jstr) : bool :=
  existsb (fun c => N.ltb 128 c) text.

(** [text.replace(/\\/g, '/')]: every backslash becomes a forward
    slash. *)
Definition forward_slashes (text : jstr) : jstr :=
  map (fun c => if N.eqb c backslash_char then slash_char else c) text.

(** [slash(text)] of gulp-slash on a string: a text that starts with
    the extended-length prefix, or holds a code unit above U+0080, is
    returned as it is; in any other text every backslash becomes a
    forward slash. *)
Definition slash (text : jstr) : jstr :=
  if extended_length_path text || has_non_ascii text then text
  else forward_slashes text.

(** ** [sassReporter] (index.js, lines 154-198) *)

(** The pattern literal of line 165, written here with a blank between
    its tokens:  ( . * ) \: ( \d + ) \: \s * e r r o r : \s * ( . * )
    [error_pattern_tail] is what follows the first group. *)
Definition error_pattern_tail : regex :=
  Seq (literal (lit ":"))
 (Seq (Group 2 (Seq (Class re_digit) (Star re_digit)))
 (Seq (literal (lit ":"))
 (Seq (Star re_space)
 (Seq (literal (lit "error:"))
 (Seq (Star re_space)
      (Group 3 (Star re_dot))))))).

Definition error_pattern : regex :=
  Seq (Group 1 (Star re_dot)) error_pattern_tail.

(** [analysis[i]] *)
Definition analysis_group (analysis : captures) (i : nat) : jstr :=
  match capture i analysis with Some s => s | None => [] end.

(** Truthiness of an optional string property: present and not empty. *)
Definition truthy_text (v : option jstr) : bool :=
  match v with
  | Some (_ :: _) => true
  | _ => false
  end.

(** Truthiness of an optional object property: present. *)
Definition truthy_object (A : Type) (v : option A) : bool :=
  match v with Some _ => true | None => false end.

(** The test [(file.isNull()) && (file.sassError) && (file.sassSource)]. *)
Definition isError (file : File) : bool :=
  isNull file && truthy_text (sassError file) && truthy_object (sassSource file).

Definition text_of (v : option jstr) : jstr :=
  match v with Some s => s | None => [] end.

Definition banner_top : char := 9660%N.     (* U+25BC *)
Definition banner_bottom : char := 9650%N.  (* U+25B2 *)
Definition newline : jstr := [10%N].

Section Reporter.
(** [path.resolve], which depends on the working directory of the
    process. *)
Variable path_resolve : jstr -> jstr.

(** The message built from a successful [analysis] (lines 168-171). *)
Definition format_message (file : File) (analysis : captures) : jstr :=
  let isSource := str_eqb (analysis_group analysis 1) (lit "source string") in
  let absolute :=
    if isSource
    then match sassSource file with Some source => path source | None => [] end
    else path_resolve (analysis_group analysis 1 ++ lit ".scss") in
  absolute ++ lit ":" ++ analysis_group analysis 2 ++ lit ":0: "
           ++ analysis_group analysis 3 ++ newline.

(** The transform function; its state is the buffer [output].  When
    the error text does not match, the [else] branch evaluates the
    identifier [error], which no enclosing scope declares: a
    [ReferenceError] is thrown before [console.log] is called. *)
Definition sassReporter_transform (file : File) (output : list jstr) : step (list jstr) :=
  if isError file then
    match exec error_pattern (text_of (sassError file)) with
    | Some analysis =>
        let message := format_message file analysis in
        if negb (str_eqb message []) && (indexOf output message <? 0)%Z
        then mkStep (output ++ [message]) [] Completed
        else mkStep output [] Completed
    | None => mkStep output [] (Threw ReferenceError)
    end
  else mkStep output [file] Completed.

(** The flush function: what it writes to [process.stdout], and how
    it ends.  [new Array(n)] throws a [RangeError] unless [n] is an
    integer in the range of array lengths. *)
Definition sassReporter_flush (bannerWidth : option Z) (output : list jstr)
  : list jstr * signal :=
  match output with
  | [] => ([], Completed)
  | _ :: _ =>
      let width := match bannerWidth with Some n => n | None => 0%Z end in
      if ((0 <=? width + 1) && (width + 1 <? 2 ^ 32))%Z then
        let hr : list jstr := repeat [] (Z.to_nat (width + 1)) in
        let start := if (width >? 0)%Z then join [banner_top] hr ++ newline else [] in
        let stop := if (width >? 0)%Z then join [banner_bottom] hr ++ newline else [] in
        ([start ++ newline ++ join newline output ++ newline ++ stop], Completed)
      else ([], Threw RangeError)
  end.

Record report : Type := mkReport {
  rp_pushed : list File;   (* the records forwarded downstream *)
  rp_output : list jstr;   (* the buffer when the input ended *)
  rp_stdout : list jstr;   (* the writes to standard output *)
  rp_signal : signal
}.

(** The whole stage, from a fresh buffer: every chunk through the
    transform, then the flush if the stream got that far. *)
Definition sassReporter (bannerWidth : option Z) (files : list File) : report :=
  let r := through_obj sassReporter_transform files [] in
  match st_signal r with
  | Completed =>
      let '(written, sig) := sassReporter_flush bannerWidth (st_next r) in
      mkReport (st_pushed r) (st_next r) written sig
  | sig => mkReport (st_pushed r) (st_next r) [] sig
  end.
End Reporter.

(** ** JSON values

    The values [JSON.parse] builds.  Numbers are modelled on the
    integers a double holds exactly (of magnitude at most [2^53 - 1]);
    a text with any other number is outside the model.  An object is the
    list of its own properties in the order the engine enumerates them:
    array indices first, in ascending order, then the other keys in
    order of creation. *)

Inductive json : Type :=
| JNull
| JBool (b : bool)
| JNumber (n : Z)
| JString (s : jstr)
| JArray (elems : list json)
| JObject (props : list (jstr * json)).

Definition max_safe_integer : Z := (2 ^ 53 - 1)%Z.

(** *** Decimal numerals *)

Fixpoint chars_of_uint (u : Decimal.uint) : jstr :=
  match u with
  | Decimal.Nil => []
  | Decimal.D0 r => 48%N :: chars_of_uint r
  | Decimal.D1 r => 49%N :: chars_of_uint r
  | Decimal.D2 r => 50%N :: chars_of_uint r
  | Decimal.D3 r => 51%N :: chars_of_uint r
  | Decimal.D4 r => 52%N :: chars_of_uint r
  | Decimal.D5 r => 53%N :: chars_of_uint r
  | Decimal.D6 r => 54%N :: chars_of_uint r
  | Decimal.D7 r => 55%N :: chars_of_uint r
  | Decimal.D8 r => 56%N :: chars_of_uint r
  | Decimal.D9 r => 57%N :: chars_of_uint r
  end.

Fixpoint uint_of_chars (s : jstr) : option Decimal.uint :=
  match s with
  | [] => Some Decimal.Nil
  | c :: r =>
      match uint_of_chars r with
      | None => None
      | Some u =>
          match c with
          | 48%N => Some (Decimal.D0 u)
          | 49%N => Some (Decimal.D1 u)
          | 50%N => Some (Decimal.D2 u)
          | 51%N => Some (Decimal.D3 u)
          | 52%N => Some (Decimal.D4 u)
          | 53%N => Some (Decimal.D5 u)
          | 54%N => Some (Decimal.D6 u)
          | 55%N => Some (Decimal.D7 u)
          | 56%N => Some (Decimal.D8 u)
          | 57%N => Some (Decimal.D9 u)
          | _ => None
          end
      end
  end.

(** The decimal numeral of a natural number, without leading zeros. *)
Definition dec_print (n : N) : jstr := chars_of_uint (N.to_uint n).

(** The value of a run of decimal digits. *)
Definition dec_value (s : jstr) : option N := option_map N.of_uint (uint_of_chars s).

(** [Number.prototype.toString] on an integer of the model. *)
Definition number_to_string (n : Z) : jstr :=
  if (n <? 0)%Z then 45%N :: dec_print (Z.to_N (- n)) else dec_print (Z.to_N n).

(** *** Property keys

    A key is an array index when it is the canonical numeral of an
    integer below [2^32 - 1]. *)
Definition array_index (k : jstr) : option N :=
  match dec_value k with
  | Some n => if str_eqb (dec_print n) k && (n <? 2 ^ 32 - 1)%N then Some n else None
  | None => None
  end.

(** [k] is enumerated before [k'] whatever the order of creation. *)
Definition key_before (k k' : jstr) : bool :=
  match array_index k, array_index k' with
  | Some i, Some j => (i <? j)%N
  | Some _, None => true
  | None, _ => false
  end.

Fixpoint has_key (k : jstr) (props : list (jstr * json)) : bool :=
  match props with
  | [] => false
  | (k', _) :: r => str_eqb k' k || has_key k r
  end.

Fixpoint get_property (k : jstr) (props : list (jstr * json)) : option json :=
  match props with
  | [] => None
  | (k', v) :: r => if str_eqb k' k then Some v else get_property k r
  end.

(** An existing property takes the new value where it stands. *)
Fixpoint replace_property (k : jstr) (v : json) (props : list (jstr * json))
  : list (jstr * json) :=
  match props with
  | [] => []
  | (k', v') :: r =>
      if str_eqb k' k then (k, v) :: r else (k', v') :: replace_property k v r
  end.

(** A new property goes before the first one it is enumerated before,
    hence last when it is not an array index. *)
Fixpoint insert_property (k : jstr) (v : json) (props : list (jstr * json))
  : list (jstr * json) :=
  match props with
  | [] => [(k, v)]
  | (k', v') :: r =>
      if key_before k k' then (k, v) :: props else (k', v') :: insert_property k v r
  end.

(** [CreateDataProperty(obj, k, v)] *)
Definition set_property (k : jstr) (v : json) (props : list (jstr * json))
  : list (jstr * json) :=
  if has_key k props then replace_property k v props else insert_property k v props.

(** [delete value[key]] in strict mode, for a key that is neither an
    index nor [length]: a [TypeError] ([None]) on [null], nothing to do
    on a primitive or an array. *)
Definition delete_property (key : jstr) (value : json) : option json :=
  match value with
  | JNull => None
  | JObject props =>
      Some (JObject (filter (fun p => negb (str_eqb (fst p) key)) props))
  | _ => Some value
  end.

(** *** [JSON.stringify(value, null, '  ')] *)

Definition hex_digit (n : N) : char :=
  if (n <? 10)%N then (48 + n)%N else (87 + n)%N.

(** [\uXXXX], with lower-case digits. *)
Definition unicode_escape (c : char) : jstr :=
  [92%N; 117%N; hex_digit (c / 4096); hex_digit ((c / 256) mod 16);
   hex_digit ((c / 16) mod 16); hex_digit (c mod 16)]%N.

Definition is_high_surrogate (c : char) : bool := (N.leb 55296 c && N.leb c 56319)%N.
Definition is_low_surrogate (c : char) : bool := (N.leb 56320 c && N.leb c 57343)%N.

(** One code unit that is not half of a surrogate pair. *)
Definition quote_char (c : char) : jstr :=
  if N.eqb c 8 then [92; 98]%N            (* \b *)
  else if N.eqb c 9 then [92; 116]%N      (* \t *)
  else if N.eqb c 10 then [92; 110]%N     (* \n *)
  else if N.eqb c 12 then [92; 102]%N     (* \f *)
  else if N.eqb c 13 then [92; 114]%N     (* \r *)
  else if N.eqb c 34 then [92; 34]%N      (* the double quote *)
  else if N.eqb c 92 then [92; 92]%N      (* the backslash *)
  else if (c <? 32)%N || is_high_surrogate c || is_low_surrogate c
       then unicode_escape c
  else [c].

(** The characters between the quotes: a surrogate pair is kept as it
    is, a lone surrogate is escaped. *)
Fixpoint quote_chars (s : jstr) : jstr :=
  match s with
  | [] => []
  | c :: r =>
      if is_high_surrogate c then
        match r with
        | d :: r' =>
            if is_low_surrogate d then c :: d :: quote_chars r'
            else quote_char c ++ quote_chars r
        | [] => quote_char c
        end
      else quote_char c ++ quote_chars r
  end.

(** [QuoteJSONString] *)
Definition quote (s : jstr) : jstr := 34%N :: quote_chars s ++ [34%N].

(** The [gap] of a two-space indentation. *)
Definition gap : jstr := [32; 32]%N.

(** [SerializeJSONProperty], with the current [indent]. *)
Fixpoint serialize (indent : jstr) (value : json) {struct value} : jstr :=
  match value with
  | JNull => lit "null"
  | JBool true => lit "true"
  | JBool false => lit "false"
  | JNumber n => number_to_string n
  | JString s => quote s
  | JArray [] => lit "[]"
  | JArray elems =>
      let stepback := indent in
      let indent := indent ++ gap in
      let partial := map (serialize indent) elems in
      lit "[" ++ newline ++ indent
        ++ join (lit "," ++ newline ++ indent) partial
        ++ newline ++ stepback ++ lit "]"
  | JObject [] => lit "{}"
  | JObject props =>
      let stepback := indent in
      let indent := indent ++ gap in
      let partial :=
        map (fun p => quote (fst p) ++ lit ":" ++ lit " " ++ serialize indent (snd p)) props in
      lit "{" ++ newline ++ indent
        ++ join (lit "," ++ newline ++ indent) partial
        ++ newline ++ stepback ++ lit "}"
  end.

Definition JSON_stringify (value : json) : jstr := serialize [] value.

(** *** [JSON.parse(text)] *)

Inductive parse_error : Type :=
| PSyntax       (* the text is not JSON: [JSON.parse] throws *)
| PUnmodelled   (* the text holds a number outside the model *)
| PFuel.        (* the recursion budget ran out *)

Inductive parsed (A : Type) : Type :=
| POk (a : A) (rest : jstr)
| PErr (e : parse_error).
Arguments PErr {A} e.

Definition is_ws (c : char) : bool :=
  N.eqb c 32 || N.eqb c 9 || N.eqb c 10 || N.eqb c 13.

Definition skip_ws (s : jstr) : jstr := drop_while is_ws s.

Definition unhex (c : char) : option N :=
  if (N.leb 48 c && N.leb c 57)%N then Some (c - 48)%N
  else if (N.leb 97 c && N.leb c 102)%N then Some (c - 87)%N
  else if (N.leb 65 c && N.leb c 70)%N then Some (c - 55)%N
  else None.

Definition unhex4 (h1 h2 h3 h4 : char) : option char :=
  match unhex h1, unhex h2, unhex h3, unhex h4 with
  | Some a, Some b, Some c, Some d => Some (4096 * a + 256 * b + 16 * c + d)%N
  | _, _, _, _ => None
  end.

(** The character a one-letter escape stands for. *)
Definition unescape (e : char) : option char :=
  if N.eqb e 34 then Some 34%N
  else if N.eqb e 92 then Some 92%N
  else if N.eqb e 47 then Some 47%N
  else if N.eqb e 98 then Some 8%N
  else if N.eqb e 102 then Some 12%N
  else if N.eqb e 110 then Some 10%N
  else if N.eqb e 114 then Some 13%N
  else if N.eqb e 116 then Some 9%N
  else None.

Definition cons_char (c : char) (r : parsed jstr) : parsed jstr :=
  match r with
  | POk s rest => POk (c :: s) rest
  | PErr e => PErr e
  end.

(** A string, after its opening quote. *)
Fixpoint parse_chars (s : jstr) : parsed jstr :=
  match s with
  | [] => PErr PSyntax
  | c :: r =>
      if N.eqb c 34 then POk [] r
      else if N.eqb c 92 then
        match r with
        | [] => PErr PSyntax
        | e :: r1 =>
            if N.eqb e 117 then
              match r1 with
              | h1 :: h2 :: h3 :: h4 :: r2 =>
                  match unhex4 h1 h2 h3 h4 with
                  | Some u => cons_char u (parse_chars r2)
                  | None => PErr PSyntax
                  end
              | _ => PErr PSyntax
              end
            else
              match unescape e with
              | Some u => cons_char u (parse_chars r1)
              | None => PErr PSyntax
              end
        end
      else if (c <? 32)%N then PErr PSyntax
      else cons_char c (parse_chars r)
  end.

Definition is_nil (A : Type) (l : list A) : bool :=
  match l with [] => true | _ :: _ => false end.

(** A number: an optional minus sign and the canonical numeral of a
    natural number (no leading zero).  A fraction or an exponent, and an
    integer beyond [max_safe_integer], are outside the model. *)
Definition parse_number (s : jstr) : parsed Z :=
  let negative := match s with c :: _ => N.eqb c 45 | [] => false end in
  let s1 := if negative then tl s else s in
  let digits := take_while re_digit s1 in
  let rest := drop_while re_digit s1 in
  match dec_value digits with
  | None => PErr PSyntax
  | Some n =>
      if negb (str_eqb (dec_print n) digits) then PErr PSyntax
      else if match rest with
              | c :: _ => N.eqb c 46 || N.eqb c 101 || N.eqb c 69
              | [] => false
              end then PErr PUnmodelled
      else if (Z.of_N n <=? max_safe_integer)%Z
           then POk (if negative then (- Z.of_N n)%Z else Z.of_N n) rest
           else PErr PUnmodelled
  end.

Definition parsed_map (A B : Type) (f : A -> B) (r : parsed A) : parsed B :=
  match r with
  | POk a rest => POk (f a) rest
  | PErr e => PErr e
  end.

Definition parse_keyword (s : jstr) : parsed json :=
  match strip_prefix (lit "null") s with
  | Some rest => POk JNull rest
  | None =>
      match strip_prefix (lit "true") s with
      | Some rest => POk (JBool true) rest
      | None =>
          match strip_prefix (lit "false") s with
          | Some rest => POk (JBool false) rest
          | None => PErr PSyntax
          end
      end
  end.

(** A value, the elements of an array after its first bracket, the
    members of an object after its first brace.  [members] holds the
    properties created so far. *)
Fixpoint parse_value (fuel : nat) (s : jstr) {struct fuel} : parsed json :=
  match fuel with
  | O => PErr PFuel
  | S n =>
      match skip_ws s with
      | [] => PErr PSyntax
      | c :: r =>
          if N.eqb c 123 then
            match skip_ws r with
            | d :: r' =>
                if N.eqb d 125 then POk (JObject []) r'
                else parse_members n [] r
            | [] => PErr PSyntax
            end
          else if N.eqb c 91 then
            match skip_ws r with
            | d :: r' =>
                if N.eqb d 93 then POk (JArray []) r'
                else parsed_map JArray (parse_elements n r)
            | [] => PErr PSyntax
            end
          else if N.eqb c 34 then parsed_map JString (parse_chars r)
          else if N.eqb c 45 || re_digit c then parsed_map JNumber (parse_number (c :: r))
          else parse_keyword (c :: r)
      end
  end
with parse_elements (fuel : nat) (s : jstr) {struct fuel} : parsed (list json) :=
  match fuel with
  | O => PErr PFuel
  | S n =>
      match parse_value n s with
      | PErr e => PErr e
      | POk v r =>
          match skip_ws r with
          | c :: r' =>
              if N.eqb c 44 then parsed_map (cons v) (parse_elements n r')
              else if N.eqb c 93 then POk [v] r'
              else PErr PSyntax
          | [] => PErr PSyntax
          end
      end
  end
with parse_members (fuel : nat) (members : list (jstr * json)) (s : jstr) {struct fuel}
  : parsed json :=
  match fuel with
  | O => PErr PFuel
  | S n =>
      match skip_ws s with
      | q :: r =>
          if N.eqb q 34 then
            match parse_chars r with
            | PErr e => PErr e
            | POk k r1 =>
                match skip_ws r1 with
                | c :: r2 =>
                    if N.eqb c 58 then
                      match parse_value n r2 with
                      | PErr e => PErr e
                      | POk v r3 =>
                          let members := set_property k v members in
                          match skip_ws r3 with
                          | c' :: r4 =>
                              if N.eqb c' 44 then parse_members n members r4
                              else if N.eqb c' 125 then POk (JObject members) r4
                              else PErr PSyntax
                          | [] => PErr PSyntax
                          end
                      end
                    else PErr PSyntax
                | [] => PErr PSyntax
                end
            end
          else PErr PSyntax
      | [] => PErr PSyntax
      end
  end.

Inductive parse_outcome : Type :=
| Parsed (value : json)
| ParseThrows        (* a [SyntaxError] *)
| ParseUnmodelled.   (* the text is outside the model *)

(** [JSON.parse(text)].  The budget grows with the text and never runs
    out (lemma [JSON_parse_budget]): the only texts outside the model
    are those with a number that is. *)
Definition JSON_parse (text : jstr) : parse_outcome :=
  match parse_value (2 * length text + 1) text with
  | POk v rest =>
      match skip_ws rest with
      | [] => Parsed v
      | _ :: _ => ParseThrows
      end
  | PErr PSyntax => ParseThrows
  | PErr _ => ParseUnmodelled
  end.

(** *** Values as the parser builds them

    The keys of an object are distinct and stand in the order of
    enumeration; the numbers are within the model. *)

Definition keys_ok (keys : list jstr) : Prop :=
  NoDup keys /\ StronglySorted (fun k k' => key_before k' k = false) keys.

Fixpoint json_wf (value : json) : Prop :=
  match value with
  | JNumber n => (- max_safe_integer <= n <= max_safe_integer)%Z
  | JArray elems =>
      (fix all (l : list json) : Prop :=
         match l with
         | [] => True
         | x :: r => json_wf x /\ all r
         end) elems
  | JObject props =>
      keys_ok (map fst props) /\
      (fix all (l : list (jstr * json)) : Prop :=
         match l with
         | [] => True
         | p :: r => json_wf (snd p) /\ all r
         end) props
  | _ => True
  end.

(** A recursion budget that is enough to parse the text of a value. *)
Fixpoint need (value : json) : nat :=
  match value with
  | JArray elems =>
      S ((fix needs (l : list json) : nat :=
            match l with
            | [] => 0
            | x :: r => S (Nat.max (need x) (needs r))
            end) elems)
  | JObject props =>
      S ((fix needs (l : list (jstr * json)) : nat :=
            match l with
            | [] => 0
            | p :: r => S (Nat.max (need (snd p)) (needs r))
            end) props)
  | _ => 1
  end.

Definition need_elems (elems : list json) : nat :=
  fold_right (fun x acc => S (Nat.max (need x) acc)) 0 elems.

Definition need_props (props : list (jstr * json)) : nat :=
  fold_right (fun p acc => S (Nat.max (need (snd p)) acc)) 0 props.

(** The text of one member of an object. *)
Definition member_text (indent : jstr) (p : jstr * json) : jstr :=
  quote (fst p) ++ lit ":" ++ lit " " ++ serialize indent (snd p).

(** What may follow a number in a text: anything but a digit, a dot or
    an exponent mark. *)
Definition number_end (rest : jstr) : bool :=
  match rest with
  | [] => true
  | c :: _ => negb (re_digit c || N.eqb c 46 || N.eqb c 101 || N.eqb c 69)
  end.

(** The text of [v], at any indentation and before any text that does
    not continue a number, is parsed back to [v]. *)
Definition reads_back (v : json) : Prop :=
  json_wf v ->
  forall n indent rest,
    need v <= n -> forallb is_ws indent = true -> number_end rest = true ->
    parse_value n (serialize indent v ++ rest) = POk v rest.

(** ** [transpile] (index.js, lines 60-146) *)

Definition separator_class (c : char) : bool :=
  N.eqb c backslash_char || N.eqb c slash_char.

(** The pattern that [minimatch.makeRe(cwd).source] becomes once its
    two anchors are removed and every escaped slash is widened to the
    class of both separators, for a working directory that minimatch
    reads as a literal path ([literal_glob], below): the characters of
    [cwd], each slash standing for either separator.  For any other
    working directory (glob syntax, white space, a doubled slash, the
    empty string) the code builds another pattern, or none; what is
    proved of the text the pattern removes is proved under
    [literal_glob]. *)
Definition cwd_pattern (cwd : jstr) : regex :=
  fold_right
    (fun c r => Seq (Class (if is_slash c then separator_class else N.eqb c)) r)
    Eps cwd.

(** The [source] of lines 98-101: the working directory, or [../]. *)
Definition sanitize_pattern (cwd : jstr) : regex :=
  Alt (cwd_pattern cwd) (literal (lit "../")).

(** A character that has a meaning in a glob, or white space (which
    minimatch trims at both ends of a pattern). *)
Definition glob_syntax (c : char) : bool :=
  existsb (N.eqb c) (lit "*?[]{}()!+@#|\") || re_space c.

(** Two slashes in a row, which minimatch reads as one separator. *)
Fixpoint doubled_slash (s : jstr) : bool :=
  match s with
  | c :: t =>
      match t with
      | d :: _ => (is_slash c && is_slash d) || doubled_slash t
      | [] => false
      end
  | [] => false
  end.

(** The working directories [minimatch.makeRe] reads as a literal path,
    for which [cwd_pattern] is the pattern the code builds: not empty,
    without glob syntax or white space, without doubled slash. *)
Definition literal_glob (cwd : jstr) : bool :=
  negb (is_nil cwd) && forallb (fun c => negb (glob_syntax c)) cwd
  && negb (doubled_slash cwd).

(** The options of one [sass.render] call.  [includePaths] is the array
    [libList] itself, not a copy: its contents are read from the shared
    state when the call is made (see [run]). *)
Record render_options : Type := mkOptions {
  ro_file        : jstr;
  ro_outputStyle : jstr;
  ro_sourceMap   : option jstr    (* [None] is [false] *)
}.

(** What a transform function does with an asynchronous compiler: a
    tree whose [Render] nodes carry the two callbacks. *)
Inductive proc : Type :=
| Render (options : render_options)
         (success : jstr -> jstr -> proc) (error : jstr -> proc)
| Push (pending : File) (next : proc)
| Done (next : proc)
| Throw (e : exn)
| OutsideModel
| Return.

(** The second argument of [pushResult]: a string, or an object whose
    properties are copied onto the record. *)
Inductive push_contents : Type :=
| AsString (s : jstr)
| AsFields (source : File) (error : jstr).

Section Transform.
Variable outputStyle : option jstr.
Variable file : File.

Definition sourcePath : jstr := replace_first (basename (path file)) (path file).
Definition sourceName : jstr := basename_ext (path file) (extname (path file)).
Definition mapName : jstr := sourceName ++ lit ".css.map".

Definition pushResult (ext : jstr) (contents : push_contents) (next : proc) : proc :=
  let pending :=
    match contents with
    | AsString s =>
        mkFile (cwd file) (base file) (sourcePath ++ sourceName ++ ext) (Some s) None None
    | AsFields source error =>
        mkFile (cwd file) (base file) (sourcePath ++ sourceName ++ ext) None
               (Some source) (Some error)
    end in
  Push pending next.

Definition successHandler (css map : jstr) : proc :=
  let parsable := slash (replace_all (sanitize_pattern (cwd file)) map) in
  match JSON_parse parsable with
  | ParseThrows => Throw SyntaxError
  | ParseUnmodelled => OutsideModel
  | Parsed sourceMap =>
      match delete_property (lit "file") sourceMap with
      | None => Throw TypeError
      | Some sourceMap =>
          match delete_property (lit "sourcesContent") sourceMap with
          | None => Throw TypeError
          | Some sourceMap =>
              pushResult (lit ".css") (AsString css)
                (pushResult (lit ".css.map") (AsString (JSON_stringify sourceMap))
                   (Done Return))
          end
      end
  end.

Definition errorHandler (error : jstr) : proc :=
  pushResult (lit ".css") (AsFields file error) (Done Return).

Definition render (map : option jstr) (error : jstr -> proc)
    (success : jstr -> jstr -> proc) : proc :=
  Render
    (mkOptions (path file)
       (if truthy_text outputStyle then text_of outputStyle else lit "compressed")
       map)
    success error.

(** The transform function of the stage (lines 141-144). *)
Definition transpile_transform : proc :=
  render None errorHandler
    (fun _ _ => render (Some mapName) errorHandler successHandler).
End Transform.

(** *** Running a transform against a compiler *)

Inductive render_result : Type :=
| Success (css map : jstr)
| Failure (error : jstr).

(** The answer to one [sass.render] call: which callback the compiler
    invokes, and what the shared [libList] holds by then (other stages
    may have pushed to it while the call was pending). *)
Record reply : Type := mkReply {
  reply_result  : render_result;
  reply_libList : list jstr
}.

Inductive event : Type :=
| ERender (options : render_options) (includePaths : list jstr)
| ECallback (result : render_result)
| EPush (pending : File)
| EDone
| EThrow (e : exn)
| EOutsideModel.

(** The events of one transform, in order, given the contents of
    [libList] and the answers of the compiler to the successive calls;
    a call left without an answer never calls back. *)
Fixpoint run (p : proc) (libList : list jstr) (replies : list reply)
  : list event * (list jstr * list reply) :=
  match p with
  | Render options success error =>
      match replies with
      | [] => ([ERender options libList], (libList, []))
      | r :: replies' =>
          let '(trace, final) :=
            match reply_result r with
            | Success css map => run (success css map) (reply_libList r) replies'
            | Failure e => run (error e) (reply_libList r) replies'
            end in
          (ERender options libList :: ECallback (reply_result r) :: trace, final)
      end
  | Push pending next =>
      let '(trace, final) := run next libList replies in (EPush pending :: trace, final)
  | Done next =>
      let '(trace, final) := run next libList replies in (EDone :: trace, final)
  | Throw e => ([EThrow e], (libList, replies))
  | OutsideModel => ([EOutsideModel], (libList, replies))
  | Return => ([], (libList, replies))
  end.

Fixpoint pushes (trace : list event) : list File :=
  match trace with
  | [] => []
  | EPush f :: t => f :: pushes t
  | _ :: t => pushes t
  end.

Fixpoint signal_of (trace : list event) : signal :=
  match trace with
  | [] => Stalled
  | EDone :: _ => Completed
  | EThrow e :: _ => Threw e
  | EOutsideModel :: _ => Unknown
  | _ :: t => signal_of t
  end.

(** The stage as a [through2] transform over the shared [libList] and
    the compiler's answers still to come. *)
Definition transpile_step (outputStyle : option jstr) (file : File)
    (s : list jstr * list reply) : step (list jstr * list reply) :=
  let '(trace, final) := run (transpile_transform outputStyle file) (fst s) (snd s) in
  mkStep final (pushes trace) (signal_of trace).

Definition transpile (outputStyle : option jstr) (files : list File)
    (libList : list jstr) (replies : list reply) : step (list jstr * list reply) :=
  through_obj (transpile_step outputStyle) files (libList, replies).

(** ** Notions used in the statements *)

(** *** [libraries] *)

(** What [addUnique] does with one string. *)
Definition add_string (libList : list jstr) (s : jstr) : list jstr :=
  if (indexOf libList s <? 0)%Z then libList ++ [s] else libList.

(** A value inside [n] arrays of one element. *)
Fixpoint nest (n : nat) (v : jsval) : jsval :=
  match n with
  | O => v
  | S m => VArray [nest m v]
  end.

(** *** [sassReporter] *)

(** The message a record stands for in the report, if any: the record
    is an error marker and its error text matches the pattern. *)
Definition message_of (path_resolve : jstr -> jstr) (file : File) : list jstr :=
  if isError file then
    match exec error_pattern (text_of (sassError file)) with
    | Some analysis => [format_message path_resolve file analysis]
    | None => []
    end
  else [].

(** A record the error text of which the reporter can analyse, when it
    is an error marker. *)
Definition analysable (file : File) : Prop :=
  isError file = true -> exec error_pattern (text_of (sassError file)) <> None.

(** A banner line as the specification words it: the glyph [width]
    times and a line feed, or nothing when [width] is not positive. *)
Definition banner_line (glyph : char) (width : Z) : jstr :=
  if (0 <? width)%Z then repeat glyph (Z.to_nat width) ++ newline else [].

(** *** [transpile] *)

(** The record [errorHandler] pushes for [file] and the error text
    [error]. *)
Definition error_record (file : File) (error : jstr) : File :=
  mkFile (cwd file) (base file) (sourcePath file ++ sourceName file ++ lit ".css")
         None (Some file) (Some error).

(** The options of the first and of the second call for [file]. *)
Definition probe_options (outputStyle : option jstr) (file : File) : render_options :=
  mkOptions (path file)
            (if truthy_text outputStyle then text_of outputStyle else lit "compressed")
            None.

Definition map_options (outputStyle : option jstr) (file : File) : render_options :=
  mkOptions (path file)
            (if truthy_text outputStyle then text_of outputStyle else lit "compressed")
            (Some (mapName file)).

(** The events of a handler that makes no call. *)
Fixpoint events_of (p : proc) : list event :=
  match p with
  | Push pending next => EPush pending :: events_of next
  | Done next => EDone :: events_of next
  | Throw e => [EThrow e]
  | OutsideModel => [EOutsideModel]
  | Return => []
  | Render _ _ _ => []
  end.

Fixpoint count_renders (trace : list event) : nat :=
  match trace with
  | [] => 0
  | ERender _ _ :: t => S (count_renders t)
  | _ :: t => count_renders t
  end.

Fixpoint count_callbacks (trace : list event) : nat :=
  match trace with
  | [] => 0
  | ECallback _ :: t => S (count_callbacks t)
  | _ :: t => count_callbacks t
  end.

(** The two records [successHandler] pushes for [file]. *)
Definition css_record (file : File) (css : jstr) : File :=
  mkFile (cwd file) (base file) (sourcePath file ++ sourceName file ++ lit ".css")
         (Some css) None None.

Definition map_record (file : File) (text : jstr) : File :=
  mkFile (cwd file) (base file) (sourcePath file ++ sourceName file ++ lit ".css.map")
         (Some text) None None.

(** The text [successHandler] hands to [JSON.parse]. *)
Definition parsable (file : File) (map : jstr) : jstr :=
  slash (replace_all (sanitize_pattern (cwd file)) map).


(** The strings of the [sources] array of a parsed source map. *)
Definition sources_of (value : json) : list jstr :=
  match value with
  | JObject props =>
      match get_property (lit "sources") props with
      | Some (JArray elems) =>
          flat_map (fun e => match e with JString s => [s] | _ => [] end) elems
      | _ => []
      end
  | _ => []
  end.

(** A source map as compilers write them, on one line. *)
Definition sample_map (source : jstr) : jstr :=
  lit "{" ++ [34%N] ++ lit "version" ++ [34%N] ++ lit ":3,"
    ++ [34%N] ++ lit "file" ++ [34%N] ++ lit ":" ++ [34%N] ++ lit "app.css" ++ [34%N]
    ++ lit "," ++ [34%N] ++ lit "sources" ++ [34%N] ++ lit ":["
    ++ [34%N] ++ source ++ [34%N] ++ lit "],"
    ++ [34%N] ++ lit "mappings" ++ [34%N] ++ lit ":" ++ [34%N] ++ lit "AAAA" ++ [34%N]
    ++ lit "}".

Definition sample_file : File :=
  mkFile (lit "/proj") (lit "/proj/src") (lit "/proj/src/app.scss")
         (Some (lit "a{b:c}")) None None.


(** *** Error texts of the expected shape *)

(** The text starts with a colon and a digit. *)
Definition colon_digit_head (t : jstr) : bool :=
  match t with
  | c :: d :: _ => N.eqb 58 c && re_digit d
  | _ => false
  end.

(** No colon of the text is followed by a digit. *)
Fixpoint no_colon_digit (t : jstr) : bool :=
  match t with
  | [] => true
  | _ :: r => negb (colon_digit_head t) && no_colon_digit r
  end.

(** The first character of the text, if any, is not in the class. *)
Definition stops (p : char -> bool) (t : jstr) : bool :=
  match t with
  | [] => true
  | c :: _ => negb (p c)
  end.

(** *** [transpile], whatever the content of the input *)

(** The record [file] with other content. *)
Definition with_contents (c : option jstr) (file : File) : File :=
  mkFile (cwd file) (base file) (path file) c (sassSource file) (sassError file).

(** The event [e], an error record in it carrying [source] as its
    [sassSource]. *)
Definition resourced (source : File) (e : event) : event :=
  match e with
  | EPush rec =>
      match sassSource rec with
      | Some _ =>
          EPush (mkFile (cwd rec) (base rec) (path rec) (contents rec)
                        (Some source) (sassError rec))
      | None => e
      end
  | _ => e
  end.

(** *** The text handed to [JSON.parse] *)

(** [text] is the directory [dir], each of its slashes written as a
    slash or as a backslash. *)
Fixpoint written_as (dir text : jstr) : bool :=
  match dir, text with
  | [], [] => true
  | c :: dir', d :: text' =>
      (if is_slash c then separator_class d else N.eqb c d) && written_as dir' text'
  | _, _ => false
  end.

Definition no_backslash (s : jstr) : bool :=
  forallb (fun c => negb (N.eqb c backslash_char)) s.

(** Every string of a value, the keys of its objects included, passes
    the test [P]. *)
Fixpoint strings_all (P : jstr -> bool) (value : json) {struct value} : bool :=
  match value with
  | JString s => P s
  | JArray elems => forallb (strings_all P) elems
  | JObject props => forallb (fun p => P (fst p) && strings_all P (snd p)) props
  | _ => true
  end.

(** What follows a text that starts with the directory [dir], each of
    its slashes written as a slash or as a backslash. *)
Fixpoint strip_written (dir s : jstr) : option jstr :=
  match dir, s with
  | [], _ => Some s
  | c :: dir', d :: s' =>
      if (if is_slash c then separator_class d else N.eqb c d)
      then strip_written dir' s' else None
  | _ :: _, [] => None
  end.



(** *** The path [sassReporter] shows *)

(** The path shown for the source [name] of an error text, [source]
    being the record attached to the error marker (lines 168-170). *)
Definition displayed_path (path_resolve : jstr -> jstr) (source : File) (name : jstr) : jstr :=
  if str_eqb name (lit "source string") then path source
  else path_resolve (name ++ lit ".scss").

(** ** [injectAppCSS] (index.js, lines 207-235)

    The transform computes a glob from the record, the working directory
    of the process and [cssBasePath] (lines 213-217), then hands it to
    [gulp.src] and the result to gulp-inject (lines 218-233).  The
    computation of the glob is embedded here; what follows it reads the
    file system and is not. *)

(** [GetSubstitution] for the match of a string pattern, which has no
    capturing group: in the replacement text, two dollar signs stand for
    one, a dollar sign and an ampersand for the matched text, a dollar
    sign and a backquote for what precedes the match, a dollar sign and
    a quote for what follows it; every other character, a dollar sign
    included, stands for itself. *)
Fixpoint get_substitution (matched before after replacement : jstr) : jstr :=
  match replacement with
  | [] => []
  | c :: r =>
      if N.eqb c 36 then
        match r with
        | d :: r' =>
            if N.eqb d 36 then 36%N :: get_substitution matched before after r'
            else if N.eqb d 38 then matched ++ get_substitution matched before after r'
            else if N.eqb d 96 then before ++ get_substitution matched before after r'
            else if N.eqb d 39 then after ++ get_substitution matched before after r'
            else c :: get_substitution matched before after r
        | [] => [c]
        end
      else c :: get_substitution matched before after r
  end.

(** [s.replace(pattern, replacement)] for a string [pattern]: the first
    occurrence is replaced by the expansion of [replacement]; [passed]
    holds the characters before the current position, last first. *)
Fixpoint replace_first_with (pattern replacement passed s : jstr) : jstr :=
  match strip_prefix pattern s with
  | Some rest => get_substitution pattern (rev passed) rest replacement ++ rest
  | None =>
      match s with
      | [] => []
      | c :: s' => c :: replace_first_with pattern replacement (c :: passed) s'
      end
  end.

Section InjectAppCSS.
(** What [process.cwd()] returns, an absolute path. *)
Variable process_cwd : jstr.
(** The argument of [injectAppCSS]; [None] when it is omitted. *)
Variable cssBasePath : option jstr.
Variable file : File.

Definition htmlName : jstr := basename (path file).
Definition htmlPath : jstr :=
  posix_resolve process_cwd (replace_first htmlName (path file)).
Definition htmlBase : jstr := posix_resolve process_cwd (base file).
Definition cssBase : jstr :=
  if truthy_text cssBasePath then posix_resolve process_cwd (text_of cssBasePath)
  else htmlBase.
Definition glob : jstr :=
  replace_first_with htmlBase cssBase [] htmlPath ++ lit "/*.css".
End InjectAppCSS.

(** The text holds no dollar sign. *)
Definition dollar_free (s : jstr) : bool := forallb (fun c => negb (N.eqb c 36)) s.

(* ================================================================== *)
(** * Part II: properties                                              *)
(* ================================================================== *)

Unset Implicit Arguments.

(** ** Strings and arrays of strings *)

Lemma str_eqb_eq : forall a b, str_eqb a b = true <-> a = b.
Proof.
  induction a as [|x a IH]; destruct b as [|y b]; simpl; split;
    try discriminate; try reflexivity.
  - intros H. apply andb_true_iff in H. destruct H as [Hx Hr].
    apply N.eqb_eq in Hx. apply IH in Hr. congruence.
  - intros H. injection H as -> ->. rewrite N.eqb_refl. simpl. apply IH. reflexivity.
Qed.

Lemma str_eqb_refl : forall a, str_eqb a a = true.
Proof. intros a. apply str_eqb_eq. reflexivity. Qed.

Lemma str_eqb_neq : forall a b, str_eqb a b = false <-> a <> b.
Proof.
  intros a b. split.
  - intros H E. apply str_eqb_eq in E. congruence.
  - intros H. destruct (str_eqb a b) eqn:E; [|reflexivity].
    apply str_eqb_eq in E. contradiction.
Qed.

Lemma str_eqb_sym : forall a b, str_eqb a b = str_eqb b a.
Proof.
  intros a b. destruct (str_eqb a b) eqn:E.
  - apply str_eqb_eq in E. subst. symmetry. apply str_eqb_refl.
  - apply str_eqb_neq in E. symmetry. apply str_eqb_neq. congruence.
Qed.

Lemma existsb_str_In : forall v l, existsb (str_eqb v) l = true <-> In v l.
Proof.
  intros v l. rewrite existsb_exists. split.
  - intros [x [Hin He]]. apply str_eqb_eq in He. subst. exact Hin.
  - intros H. exists v. split; [exact H | apply str_eqb_refl].
Qed.

Lemma indexOf_lower : forall l v, (-1 <= indexOf l v)%Z.
Proof.
  induction l as [|x l IH]; intros v; simpl; [lia|].
  destruct (str_eqb x v); [lia|].
  specialize (IH v). destruct (indexOf l v <? 0)%Z eqn:E; lia.
Qed.

(** [indexOf] is negative exactly when the array does not hold the
    string. *)
Lemma indexOf_absent : forall l v,
  (indexOf l v <? 0)%Z = negb (existsb (str_eqb v) l).
Proof.
  induction l as [|x l IH]; intros v; simpl; [reflexivity|].
  rewrite (str_eqb_sym v x). destruct (str_eqb x v); simpl; [reflexivity|].
  rewrite <- IH. pose proof (indexOf_lower l v) as Hl.
  destruct (indexOf l v <? 0)%Z eqn:E; [reflexivity|].
  apply Z.ltb_ge in E. apply Z.ltb_ge. lia.
Qed.

(** ** [addUnique] and the library list *)

(** Induction on JavaScript values, arrays included. *)
Lemma jsval_nested_ind (P : jsval -> Prop) :
  P VUndefined -> P VNull -> (forall b, P (VBoolean b)) -> (forall n, P (VNumber n)) ->
  (forall s, P (VString s)) ->
  (forall elems, Forall P elems -> P (VArray elems)) ->
  P VObject ->
  forall v, P v.
Proof.
  intros Hu Hn Hb Hz Hs Ha Ho.
  fix self 1. intros [| |b|n|s|elems|].
  - exact Hu.
  - exact Hn.
  - apply Hb.
  - apply Hz.
  - apply Hs.
  - apply Ha. induction elems as [|v elems IH]; constructor; [apply self | exact IH].
  - exact Ho.
Qed.

Lemma addUnique_array : forall elems libList,
  addUnique (VArray elems) libList = fold_left (fun acc v => addUnique v acc) elems libList.
Proof.
  induction elems as [|v elems IH]; intros libList; [reflexivity|].
  simpl. simpl in IH. apply IH.
Qed.

Lemma strings_of_array : forall elems,
  strings_of (VArray elems) = flat_map strings_of elems.
Proof.
  induction elems as [|v elems IH]; [reflexivity|].
  simpl. simpl in IH. rewrite IH. reflexivity.
Qed.

(** [addUnique] adds the strings a value stands for, one by one. *)
Lemma addUnique_strings : forall value libList,
  addUnique value libList = fold_left add_string (strings_of value) libList.
Proof.
  induction value as [| | | | |elems IH|] using jsval_nested_ind; intros libList;
    try reflexivity.
  rewrite addUnique_array, strings_of_array.
  revert libList. induction IH as [|v elems Hv _ IHl]; intros libList; [reflexivity|].
  simpl. rewrite fold_left_app, <- Hv. apply IHl.
Qed.

(** Adding strings one by one appends the first appearance of each new
    one. *)
Lemma fold_add_string_first_seen : forall l libList,
  fold_left add_string l libList = libList ++ first_seen_from libList l.
Proof.
  induction l as [|x l IH]; intros libList; simpl.
  - rewrite app_nil_r. reflexivity.
  - unfold add_string at 2. rewrite indexOf_absent.
    destruct (existsb (str_eqb x) libList); simpl.
    + apply IH.
    + rewrite IH, <- app_assoc. reflexivity.
Qed.

Lemma first_seen_from_In : forall l seen x,
  In x (first_seen_from seen l) <-> In x l /\ ~ In x seen.
Proof.
  induction l as [|y l IH]; intros seen x; simpl.
  - tauto.
  - destruct (existsb (str_eqb y) seen) eqn:E.
    + apply existsb_str_In in E. rewrite IH. split.
      * intros [H1 H2]. tauto.
      * intros [[H1|H1] H2]; [subst; contradiction | tauto].
    + assert (Hy : ~ In y seen).
      { intros H. apply existsb_str_In in H. congruence. }
      simpl. rewrite IH, in_app_iff. simpl. split.
      * intros [H|[H1 H2]]; [subst; tauto | tauto].
      * intros [[H1|H1] H2]; [tauto|].
        destruct (list_eq_dec N.eq_dec y x) as [->|Hne]; [tauto|].
        right. split; [exact H1|]. intros [H|[H|[]]]; [tauto | contradiction].
Qed.

Lemma first_seen_from_NoDup : forall l seen,
  NoDup seen -> NoDup (seen ++ first_seen_from seen l).
Proof.
  induction l as [|y l IH]; intros seen Hs; simpl.
  - rewrite app_nil_r. exact Hs.
  - destruct (existsb (str_eqb y) seen) eqn:E.
    + apply IH. exact Hs.
    + assert (Hy : ~ In y seen).
      { intros H. apply existsb_str_In in H. congruence. }
      change (y :: first_seen_from (seen ++ [y]) l)
        with ([y] ++ first_seen_from (seen ++ [y]) l).
      rewrite app_assoc. apply IH.
      apply NoDup_app; [exact Hs | repeat constructor; simpl; tauto |].
      intros a Ha [<-|[]]. contradiction.
Qed.

Lemma first_seen_from_app : forall l1 l2 seen,
  first_seen_from seen (l1 ++ l2) =
  first_seen_from seen l1 ++ first_seen_from (seen ++ first_seen_from seen l1) l2.
Proof.
  induction l1 as [|y l1 IH]; intros l2 seen; simpl.
  - rewrite app_nil_r. reflexivity.
  - destruct (existsb (str_eqb y) seen).
    + apply IH.
    + simpl. rewrite IH, <- app_assoc. reflexivity.
Qed.

Lemma first_seen_from_fresh : forall l seen,
  NoDup (seen ++ l) -> first_seen_from seen l = l.
Proof.
  induction l as [|y l IH]; intros seen Hn; simpl; [reflexivity|].
  assert (Hy : existsb (str_eqb y) seen = false).
  { destruct (existsb (str_eqb y) seen) eqn:E; [|reflexivity].
    apply existsb_str_In in E. apply NoDup_remove_2 in Hn.
    exfalso. apply Hn. apply in_or_app. left. exact E. }
  rewrite Hy. f_equal. apply IH. rewrite <- app_assoc. exact Hn.
Qed.

(** First-seen order, spelled out: of two strings, the one whose first
    appearance comes first stands first. *)
Lemma first_seen_from_order : forall l seen before x after y,
  l = before ++ x :: after ->
  ~ In x (seen ++ before) -> ~ In y (seen ++ before) -> x <> y -> In y after ->
  exists a b c, first_seen_from seen l = a ++ x :: b ++ y :: c.
Proof.
  intros l seen before x after y -> Hx Hy Hxy Hin.
  rewrite first_seen_from_app. simpl.
  set (F := first_seen_from seen before).
  assert (HF : forall z, In z (seen ++ F) -> In z (seen ++ before)).
  { intros z Hz. apply in_app_or in Hz. apply in_or_app.
    destruct Hz as [Hz|Hz]; [left; exact Hz|].
    right. apply first_seen_from_In in Hz. tauto. }
  destruct (existsb (str_eqb x) (seen ++ F)) eqn:E.
  { apply existsb_str_In in E. apply HF in E. contradiction. }
  assert (Hy' : In y (first_seen_from ((seen ++ F) ++ [x]) after)).
  { apply first_seen_from_In. split; [exact Hin|].
    intros H. apply in_app_or in H. destruct H as [H|[H|[]]].
    - apply HF in H. contradiction.
    - congruence. }
  apply in_split in Hy'. destruct Hy' as [b [c Hbc]].
  exists F, b, c. rewrite Hbc. reflexivity.
Qed.

Lemma libraries_through : forall files libList,
  through_obj libraries_transform files libList =
  mkStep (fold_left add_string (map base files) libList) files Completed.
Proof.
  induction files as [|f files IH]; intros libList; [reflexivity|].
  simpl. rewrite IH. reflexivity.
Qed.

Lemma libraries_stage_first_seen : forall arguments files libList,
  libraries_stage arguments files libList =
  mkStep (libList ++ first_seen_from libList
                       (strings_of (VArray arguments) ++ map base files))
         files Completed.
Proof.
  intros arguments files libList. unfold libraries_stage, libraries.
  rewrite libraries_through, addUnique_strings, <- fold_left_app.
  rewrite fold_add_string_first_seen. reflexivity.
Qed.

(** C2.  Whatever explicit arguments are given to [libraries] and
    whatever records pass through the stage it returns, every record is
    pushed downstream as it came; [libList] ends up holding what it
    held, followed by the first appearance of each new path among the
    explicit paths and then the base directories: it has no duplicate
    (provided it had none), it holds exactly the paths it held or saw,
    and of two paths the one first seen stands first. *)
Theorem libraries_collects_first_seen :
  forall (arguments : list jsval) (files : list File) (libList : list jstr),
    NoDup libList ->
    st_pushed (libraries_stage arguments files libList) = files /\
    st_signal (libraries_stage arguments files libList) = Completed /\
    st_next (libraries_stage arguments files libList) =
      libList ++ first_seen_from libList
                   (strings_of (VArray arguments) ++ map base files) /\
    NoDup (st_next (libraries_stage arguments files libList)) /\
    (forall p, In p (st_next (libraries_stage arguments files libList)) <->
               In p libList \/ In p (strings_of (VArray arguments)) \/
               In p (map base files)) /\
    (forall before x after y,
        libList ++ strings_of (VArray arguments) ++ map base files
          = before ++ x :: after ->
        ~ In x before -> ~ In y before -> x <> y -> In y after ->
        exists a b c,
          st_next (libraries_stage arguments files libList) = a ++ x :: b ++ y :: c).
Proof.
  intros arguments files libList Hnd.
  rewrite libraries_stage_first_seen. cbn [st_pushed st_signal st_next].
  repeat split.
  - apply first_seen_from_NoDup. exact Hnd.
  - intros H. apply in_app_or in H. destruct H as [H|H]; [left; exact H|].
    apply first_seen_from_In in H. destruct H as [H _].
    apply in_app_or in H. tauto.
  - intros H.
    destruct (in_dec (list_eq_dec N.eq_dec) p libList) as [Hin|Hout].
    + apply in_or_app. left. exact Hin.
    + apply in_or_app. right. apply first_seen_from_In.
      split; [|exact Hout]. apply in_or_app. tauto.
  - intros before x after y Heq Hx Hy Hxy Hin.
    assert (E : libList ++ first_seen_from libList
                  (strings_of (VArray arguments) ++ map base files)
                = first_seen_from [] (libList ++ strings_of (VArray arguments)
                                        ++ map base files)).
    { rewrite (first_seen_from_app libList _ []). simpl.
      rewrite (first_seen_from_fresh libList []); [reflexivity | exact Hnd]. }
    rewrite E. apply first_seen_from_order with (before := before) (after := after); auto.
Qed.

(** A fresh instance, two explicit paths (one of them nested in an
    array) and three records over two base directories. *)
Lemma libraries_collects_first_seen_witness :
  st_next (libraries_stage
             [VString (lit "/lib/a"); VArray [VString (lit "/lib/b"); VString (lit "/lib/a")]]
             [mkFile (lit "/w") (lit "/w/x") (lit "/w/x/1.scss") None None None;
              mkFile (lit "/w") (lit "/lib/b") (lit "/lib/b/2.scss") None None None;
              mkFile (lit "/w") (lit "/w/x") (lit "/w/x/3.scss") None None None]
             [])
  = [lit "/lib/a"; lit "/lib/b"; lit "/w/x"].
Proof.
  destruct (libraries_collects_first_seen
              [VString (lit "/lib/a"); VArray [VString (lit "/lib/b"); VString (lit "/lib/a")]]
              [mkFile (lit "/w") (lit "/w/x") (lit "/w/x/1.scss") None None None;
               mkFile (lit "/w") (lit "/lib/b") (lit "/lib/b/2.scss") None None None;
               mkFile (lit "/w") (lit "/w/x") (lit "/w/x/3.scss") None None None]
              [] (NoDup_nil jstr)) as [_ [_ [H _]]].
  rewrite H. reflexivity.
Defined.

Lemma strings_of_nest : forall n v, strings_of (nest n v) = strings_of v.
Proof.
  induction n as [|n IH]; intros v; [reflexivity|].
  simpl. rewrite IH. apply app_nil_r.
Qed.

(** C10.  An argument of [libraries] that is neither a string nor an
    array changes nothing: the call does what it does without that
    argument, and [addUnique] returns [libList] as it was.  Arrays are
    flattened: the strings they hold, at any depth, are added one by one,
    each only if [libList] does not hold it yet. *)
Theorem libraries_ignores_other_arguments :
  forall (v : jsval) (before after : list jsval) (libList : list jstr),
    (forall s, v <> VString s) -> (forall elems, v <> VArray elems) ->
    addUnique v libList = libList /\
    libraries (before ++ v :: after) libList = libraries (before ++ after) libList /\
    (forall arguments l,
        libraries arguments l = fold_left add_string (strings_of (VArray arguments)) l) /\
    (forall arguments l,
        libraries arguments l = l ++ first_seen_from l (strings_of (VArray arguments))) /\
    (forall n s l, libraries [nest n (VString s)] l = add_string l s).
Proof.
  intros v before after libList Hs Ha.
  assert (Hv : strings_of v = []).
  { destruct v; try reflexivity; [exfalso; eapply Hs | exfalso; eapply Ha]; reflexivity. }
  split; [|split; [|split; [|split]]].
  - rewrite addUnique_strings, Hv. reflexivity.
  - unfold libraries. rewrite !addUnique_strings, !strings_of_array.
    rewrite !flat_map_app. simpl. rewrite Hv. reflexivity.
  - intros arguments l. unfold libraries. apply addUnique_strings.
  - intros arguments l. unfold libraries.
    rewrite addUnique_strings. apply fold_add_string_first_seen.
  - intros n s l. unfold libraries. rewrite addUnique_strings.
    change (VArray [nest n (VString s)]) with (nest (S n) (VString s)).
    rewrite strings_of_nest. reflexivity.
Qed.

(** A number, [null] and a plain object among the arguments, and a
    string three arrays deep. *)
Lemma libraries_ignores_other_arguments_witness :
  libraries [VString (lit "/a"); VNumber 7; VArray [VArray [VArray [VString (lit "/b")]]]]
            [lit "/b"]
  = libraries [VString (lit "/a"); VArray [VArray [VArray [VString (lit "/b")]]]]
              [lit "/b"].
Proof.
  apply (libraries_ignores_other_arguments (VNumber 7) [VString (lit "/a")]
           [VArray [VArray [VArray [VString (lit "/b")]]]] [lit "/b"]).
  - intros s H. discriminate H.
  - intros elems H. discriminate H.
Defined.

(** ** The error pattern on texts of the expected shape *)

Lemma star_class_found : forall (R : Type) (p : char -> bool) a b (K : jstr -> option R) r,
  forallb p a = true -> star_class p b K = Some r -> star_class p (a ++ b) K = Some r.
Proof.
  intros R p. induction a as [|c a IH]; intros b K r Ha Hb; [exact Hb|].
  simpl in Ha. apply andb_true_iff in Ha. destruct Ha as [Hc Ha].
  simpl. rewrite Hc. rewrite (IH b K r Ha Hb). reflexivity.
Qed.

Lemma star_class_stops : forall (R : Type) (p : char -> bool) b (K : jstr -> option R),
  stops p b = true -> star_class p b K = K b.
Proof.
  intros R p [|c b] K H; [reflexivity|].
  simpl in *. apply negb_true_iff in H. rewrite H. reflexivity.
Qed.

(** A greedy run takes the whole run when what follows lets the rest of
    the pattern match. *)
Lemma star_class_run : forall (R : Type) (p : char -> bool) a b (K : jstr -> option R) r,
  forallb p a = true -> stops p b = true -> K b = Some r ->
  star_class p (a ++ b) K = Some r.
Proof.
  intros R p a b K r Ha Hb HK. apply star_class_found; [exact Ha|].
  rewrite star_class_stops by exact Hb. exact HK.
Qed.

Lemma star_class_none : forall (R : Type) (p : char -> bool) t (K : jstr -> option R),
  (forall t', colon_digit_head t' = false -> K t' = None) ->
  no_colon_digit t = true -> star_class p t K = None.
Proof.
  intros R p t K HK. induction t as [|c t IH]; intros H.
  - simpl. apply HK. reflexivity.
  - change (no_colon_digit (c :: t))
      with (negb (colon_digit_head (c :: t)) && no_colon_digit t) in H.
    apply andb_true_iff in H. destruct H as [H1 H2].
    apply negb_true_iff in H1.
    simpl. rewrite (IH H2), (HK _ H1). destruct (p c); reflexivity.
Qed.

(** What follows the first group matches only at a colon followed by a
    digit. *)
Lemma error_pattern_tail_fails : forall (R : Type) t caps (k : jstr -> captures -> option R),
  colon_digit_head t = false -> matcher error_pattern_tail t caps k = None.
Proof.
  intros R t caps k H. destruct t as [|c [|d t]]; [reflexivity| |].
  - cbn -[N.eqb]. destruct (N.eqb 58 c); reflexivity.
  - cbn -[N.eqb re_digit] in *. destruct (N.eqb 58 c); [|reflexivity].
    simpl in H. rewrite H. reflexivity.
Qed.

Lemma firstn_length_app : forall (a b : jstr),
  firstn (length (a ++ b) - length b) (a ++ b) = a.
Proof.
  intros a b. rewrite length_app.
  replace (length a + length b - length b) with (length a) by lia.
  rewrite firstn_app, firstn_all, Nat.sub_diag. simpl. apply app_nil_r.
Qed.

Lemma no_colon_digit_digits : forall a b,
  forallb re_digit a = true -> no_colon_digit b = true -> no_colon_digit (a ++ b) = true.
Proof.
  induction a as [|c a IH]; intros b Ha Hb; [exact Hb|].
  simpl in Ha. apply andb_true_iff in Ha. destruct Ha as [Hc Ha].
  change (no_colon_digit ((c :: a) ++ b))
    with (negb (colon_digit_head (c :: a ++ b)) && no_colon_digit (a ++ b)).
  rewrite (IH b Ha Hb), andb_true_r.
  unfold colon_digit_head.
  assert (E : N.eqb 58 c = false).
  { unfold re_digit in Hc. apply andb_true_iff in Hc. destruct Hc as [_ Hc].
    apply N.leb_le in Hc. apply N.eqb_neq. lia. }
  destruct (a ++ b); rewrite ?E; reflexivity.
Qed.

Lemma exec_unfold : forall r s,
  exec r s = match match_at r s with
             | Some (_, caps) => Some caps
             | None => match s with [] => None | _ :: s' => exec r s' end
             end.
Proof. intros r [|c s]; reflexivity. Qed.

Lemma no_colon_digit_error_literal : forall message,
  no_colon_digit message = true ->
  no_colon_digit (lit ": error: " ++ message) = true.
Proof.
  intros message H.
  cbn -[N.eqb re_digit]. rewrite H. destruct message; reflexivity.
Qed.

Lemma matcher_literal : forall (R : Type) l t caps (k : jstr -> captures -> option R),
  matcher (literal l) (l ++ t) caps k = k t caps.
Proof.
  intros R. induction l as [|c l IH]; intros t caps k; [reflexivity|].
  change (literal (c :: l)) with (Seq (Class (N.eqb c)) (literal l)).
  cbn -[N.eqb literal]. rewrite N.eqb_refl. apply IH.
Qed.

Lemma star_class_cons : forall (R : Type) (p : char -> bool) c t (K : jstr -> option R),
  star_class p t K = None -> star_class p (c :: t) K = K (c :: t).
Proof. intros R p c t K H. simpl. rewrite H. destruct (p c); reflexivity. Qed.

(** On a line number, [: error: ] and a message, what follows the first
    group matches to the end of the message. *)
Lemma error_pattern_tail_matches : forall (R : Type) line message caps
    (k : jstr -> captures -> option R) r,
  line <> [] -> forallb re_digit line = true ->
  forallb re_dot message = true -> stops re_space message = true ->
  k [] ((3, message) :: (2, line) :: caps) = Some r ->
  matcher error_pattern_tail (lit ":" ++ line ++ lit ": error: " ++ message) caps k
  = Some r.
Proof.
  intros R line message caps k r Hne Hline Hmsg Hsp Hk.
  destruct line as [|d ds]; [contradiction|].
  simpl in Hline. apply andb_true_iff in Hline. destruct Hline as [Hd Hds].
  unfold error_pattern_tail.
  cbn -[star_class N.eqb re_digit re_space re_dot firstn length lit literal].
  rewrite matcher_literal. cbv beta.
  change ((d :: ds) ++ lit ": error: " ++ message)
    with (d :: ds ++ lit ": error: " ++ message).
  cbv iota. rewrite Hd.
  apply star_class_run; [exact Hds | reflexivity |].
  change (lit ": error: " ++ message)
    with (lit ":" ++ lit " " ++ lit "error:" ++ lit " " ++ message).
  rewrite matcher_literal.
  apply star_class_run; [reflexivity | reflexivity |].
  rewrite matcher_literal.
  apply star_class_run; [reflexivity | exact Hsp |].
  rewrite <- (app_nil_r message) at 1.
  apply star_class_run; [exact Hmsg | reflexivity |].
  change (length (@nil char)) with 0. rewrite Nat.sub_0_r, firstn_all.
  change (d :: ds ++ lit ":" ++ lit " " ++ lit "error:" ++ lit " " ++ message)
    with ((d :: ds) ++ lit ":" ++ lit " " ++ lit "error:" ++ lit " " ++ message).
  rewrite firstn_length_app. exact Hk.
Qed.

(** A text of the expected shape is matched from its start, and the
    three groups are its three parts: the source may hold anything but
    a line terminator; the message holds no line terminator, no colon
    followed by a digit, and does not start with white space. *)
Lemma exec_error_pattern_shape : forall source line message,
  forallb re_dot source = true ->
  line <> [] -> forallb re_digit line = true ->
  forallb re_dot message = true -> no_colon_digit message = true ->
  stops re_space message = true ->
  exec error_pattern (source ++ lit ":" ++ line ++ lit ": error: " ++ message)
  = Some [(3, message); (2, line); (1, source)].
Proof.
  intros source line message Hsrc Hne Hline Hmsg Hcd Hsp.
  rewrite exec_unfold. unfold match_at, error_pattern.
  cbn -[star_class error_pattern_tail firstn length lit].
  match goal with
  | |- context [star_class re_dot ?s ?K] =>
      assert (E : star_class re_dot s K
                  = Some ([], [(3, message); (2, line); (1, source)]))
  end.
  { apply star_class_found; [exact Hsrc|].
    change (lit ":" ++ line ++ lit ": error: " ++ message)
      with (58%N :: line ++ lit ": error: " ++ message) at 1.
    rewrite star_class_cons.
    - change (58%N :: line ++ lit ": error: " ++ message)
        with (lit ":" ++ line ++ lit ": error: " ++ message).
      apply error_pattern_tail_matches; try assumption.
      rewrite firstn_length_app. reflexivity.
    - apply star_class_none.
      + intros t' Ht'. apply error_pattern_tail_fails. exact Ht'.
      + apply no_colon_digit_digits; [exact Hline|].
        apply no_colon_digit_error_literal. exact Hcd. }
  rewrite E. reflexivity.
Qed.

(** ** [sassReporter] *)

Lemma isError_iff : forall file,
  isError file = true <->
  contents file = None /\ (exists c s, sassError file = Some (c :: s)) /\
  (exists source, sassSource file = Some source).
Proof.
  intros [w b p c src err]. unfold isError, isNull. simpl. split.
  - intros H. apply andb_true_iff in H. destruct H as [H Hs].
    apply andb_true_iff in H. destruct H as [Hc He].
    destruct c; [discriminate|]. destruct err as [[|x e]|]; try discriminate.
    destruct src; [|discriminate]. eauto 6.
  - intros [-> [[x [e ->]] [source ->]]]. reflexivity.
Qed.

Lemma through_obj_app : forall (S : Type) (tr : File -> S -> step S) files1 files2 s,
  st_signal (through_obj tr files1 s) = Completed ->
  through_obj tr (files1 ++ files2) s =
  mkStep (st_next (through_obj tr files2 (st_next (through_obj tr files1 s))))
         (st_pushed (through_obj tr files1 s)
            ++ st_pushed (through_obj tr files2 (st_next (through_obj tr files1 s))))
         (st_signal (through_obj tr files2 (st_next (through_obj tr files1 s)))).
Proof.
  intros S tr. induction files1 as [|f files1 IH]; intros files2 s H; simpl.
  - destruct (through_obj tr files2 s). reflexivity.
  - simpl in H. destruct (st_signal (tr f s)) eqn:E; simpl in *;
      try (rewrite E in H; discriminate).
    rewrite (IH files2 _ H). simpl. rewrite app_assoc. reflexivity.
Qed.

(** What the stage has pushed and buffered once every chunk has been
    handled. *)
Lemma sassReporter_through : forall R files output,
  st_signal (through_obj (sassReporter_transform R) files output) = Completed ->
  st_pushed (through_obj (sassReporter_transform R) files output)
    = filter (fun f => negb (isError f)) files /\
  st_next (through_obj (sassReporter_transform R) files output)
    = fold_left add_string (flat_map (message_of R) files) output.
Proof.
  intros R. induction files as [|f files IH]; intros output H; simpl; [auto|].
  simpl in H. unfold message_of.
  unfold sassReporter_transform in *.
  destruct (isError f) eqn:Ef; simpl in *.
  - destruct (exec error_pattern (text_of (sassError f))) as [analysis|] eqn:Ea;
      simpl in *; [|discriminate].
    unfold add_string at 2.
    assert (Hm : str_eqb (format_message R f analysis) [] = false).
    { unfold format_message. apply str_eqb_neq. intros E.
      apply (f_equal (@length char)) in E. rewrite !length_app in E. simpl in E. lia. }
    rewrite Hm in *. simpl in *.
    destruct (indexOf output (format_message R f analysis) <? 0)%Z; simpl in *;
      apply IH; exact H.
  - destruct (IH output H) as [H1 H2]. rewrite H1, H2. auto.
Qed.

Lemma sassReporter_analysable_completes : forall R files output,
  Forall analysable files ->
  st_signal (through_obj (sassReporter_transform R) files output) = Completed.
Proof.
  intros R. induction files as [|f files IH]; intros output Hall; [reflexivity|].
  inversion Hall as [|? ? Hf Hrest]; subst. simpl.
  unfold sassReporter_transform at 1 3 4 5. unfold analysable in Hf.
  destruct (isError f) eqn:Ef; simpl.
  - destruct (exec error_pattern (text_of (sassError f))) as [analysis|] eqn:Ea;
      [|exfalso; apply Hf; reflexivity].
    destruct (negb (str_eqb (format_message R f analysis) []) &&
              (indexOf output (format_message R f analysis) <? 0)%Z); simpl;
      apply IH; exact Hrest.
  - apply IH. exact Hrest.
Qed.

(** The claim C5 as it is worded fails on a record that has null
    content and carries both properties, the error text being the empty
    string: the test of line 161 is on truthiness, so the record is not
    taken for an error marker and goes downstream. *)
Lemma sassReporter_empty_error_text_forwarded :
  exists file : File,
    contents file = None /\ sassError file <> None /\ sassSource file <> None /\
    isError file = false /\
    st_pushed (sassReporter_transform (posix_resolve (lit "/w")) file []) = [file].
Proof.
  exists (mkFile (lit "/w") (lit "/w") (lit "/w/a.css") None
            (Some (mkFile (lit "/w") (lit "/w") (lit "/w/a.scss") None None None))
            (Some [])).
  repeat split; discriminate.
Qed.

(** C5, amended.  A record is taken for an error marker exactly when its
    content is null, its error text is present and not empty, and its
    source record is present.  An error marker is never pushed; any
    other record is pushed as it came, and the buffer is left alone.
    Over a whole stream that reaches its end, what is pushed is the
    input without its error markers, in order. *)
Theorem sassReporter_classifies :
  forall (path_resolve : jstr -> jstr) (file : File) (output : list jstr),
    (isError file = true <->
       contents file = None /\ (exists c s, sassError file = Some (c :: s)) /\
       (exists source, sassSource file = Some source)) /\
    (isError file = true ->
       st_pushed (sassReporter_transform path_resolve file output) = []) /\
    (isError file = false ->
       sassReporter_transform path_resolve file output = mkStep output [file] Completed) /\
    (forall files,
       st_signal (through_obj (sassReporter_transform path_resolve) files output)
         = Completed ->
       st_pushed (through_obj (sassReporter_transform path_resolve) files output)
         = filter (fun f => negb (isError f)) files).
Proof.
  intros R file output. split; [apply isError_iff|]. split; [|split].
  - intros H. unfold sassReporter_transform. rewrite H.
    destruct (exec error_pattern (text_of (sassError file))); [|reflexivity].
    destruct (negb (str_eqb (format_message R file c) []) &&
              (indexOf output (format_message R file c) <? 0)%Z); reflexivity.
  - intros H. unfold sassReporter_transform. rewrite H. reflexivity.
  - intros files H. apply sassReporter_through. exact H.
Qed.

(** C9.  An error marker whose text does not match the pattern: the
    transform throws a [ReferenceError] (the [else] branch reads the
    undeclared [error]); nothing is logged, nothing is buffered, and the
    stage never reaches its flush. *)
Theorem sassReporter_unparsed_error_throws :
  forall (path_resolve : jstr -> jstr) (bannerWidth : option Z) (output : list jstr),
    isError (mkFile (lit "/w") (lit "/w") (lit "/w/a.css") None
               (Some (mkFile (lit "/w") (lit "/w") (lit "/w/a.scss") None None None))
               (Some (lit "boom"))) = true /\
    exec error_pattern (lit "boom") = None /\
    sassReporter_transform path_resolve
      (mkFile (lit "/w") (lit "/w") (lit "/w/a.css") None
         (Some (mkFile (lit "/w") (lit "/w") (lit "/w/a.scss") None None None))
         (Some (lit "boom"))) output
      = mkStep output [] (Threw ReferenceError) /\
    sassReporter path_resolve bannerWidth
      [mkFile (lit "/w") (lit "/w") (lit "/w/a.css") None
         (Some (mkFile (lit "/w") (lit "/w") (lit "/w/a.scss") None None None))
         (Some (lit "boom"))]
      = mkReport [] [] [] (Threw ReferenceError).
Proof.
  intros R bw output. repeat split.
Qed.

(** Every unmatched error text takes the same path. *)
Lemma sassReporter_throws_on_unmatched_text :
  forall (path_resolve : jstr -> jstr) (file : File) (output : list jstr),
    isError file = true ->
    exec error_pattern (text_of (sassError file)) = None ->
    sassReporter_transform path_resolve file output = mkStep output [] (Threw ReferenceError).
Proof.
  intros R file output He Ha. unfold sassReporter_transform. rewrite He, Ha. reflexivity.
Qed.

(** The claim C6 as it is worded fails on the entry that is buffered:
    line 171 ends the message with a line feed. *)
Lemma sassReporter_message_has_line_feed :
  exists (file source : File) (analysis : captures),
    isError file = true /\ sassSource file = Some source /\
    path source = lit "/w/a.scss" /\
    exec error_pattern (text_of (sassError file)) = Some analysis /\
    analysis_group analysis 1 = lit "source string" /\
    analysis_group analysis 2 = lit "12" /\
    analysis_group analysis 3 = lit "oops" /\
    st_next (sassReporter_transform (posix_resolve (lit "/w")) file [])
      <> [lit "/w/a.scss:12:0: oops"].
Proof.
  exists (mkFile (lit "/w") (lit "/w") (lit "/w/a.css") None
            (Some (mkFile (lit "/w") (lit "/w") (lit "/w/a.scss") None None None))
            (Some (lit "source string:12: error: oops"))).
  exists (mkFile (lit "/w") (lit "/w") (lit "/w/a.scss") None None None).
  eexists. repeat split; try reflexivity. vm_compute. discriminate.
Qed.

(** C6, amended.  For an error marker whose error text the pattern
    matches, with [analysis] the groups it captures, the message is the
    displayed path, a colon, the line, [:0: ], the text of the error and
    a line feed; the displayed path is the path of the attached source
    record when the first group is [source string], and the first group
    with [.scss] appended, resolved, otherwise.  The message is appended
    to the buffer unless the buffer holds it already.  Over a stream of
    records the reporter can analyse, the buffer ends up with the first
    appearance of each message, in order.  When the error text is a
    source, a colon, a line number, [: error: ] and a message (the source
    and the message on one line, the message without a colon followed by
    a digit and without white space in front), the three groups are the
    source, the line number and the message. *)
Theorem sassReporter_buffers_message :
  forall (path_resolve : jstr -> jstr) (file : File) (output : list jstr)
         (analysis : captures),
    isError file = true ->
    exec error_pattern (text_of (sassError file)) = Some analysis ->
    (exists source,
        sassSource file = Some source /\
        format_message path_resolve file analysis =
          (if str_eqb (analysis_group analysis 1) (lit "source string")
           then path source
           else path_resolve (analysis_group analysis 1 ++ lit ".scss"))
          ++ lit ":" ++ analysis_group analysis 2 ++ lit ":0: "
          ++ analysis_group analysis 3 ++ newline) /\
    sassReporter_transform path_resolve file output =
      mkStep (if existsb (str_eqb (format_message path_resolve file analysis)) output
              then output
              else output ++ [format_message path_resolve file analysis])
             [] Completed /\
    (forall files,
        Forall analysable files ->
        st_signal (through_obj (sassReporter_transform path_resolve) files []) = Completed /\
        st_next (through_obj (sassReporter_transform path_resolve) files [])
          = first_seen_from [] (flat_map (message_of path_resolve) files)) /\
    (forall source line message,
        sassError file = Some (source ++ lit ":" ++ line ++ lit ": error: " ++ message) ->
        forallb re_dot source = true ->
        line <> [] -> forallb re_digit line = true ->
        forallb re_dot message = true -> no_colon_digit message = true ->
        stops re_space message = true ->
        analysis_group analysis 1 = source /\
        analysis_group analysis 2 = line /\
        analysis_group analysis 3 = message).
Proof.
  intros R file output analysis He Ha. split; [|split; [|split]]; cycle 3.
  { intros source line message Hs H1 H2 H3 H4 H5 H6.
    rewrite Hs in Ha. unfold text_of in Ha.
    rewrite (exec_error_pattern_shape source line message H1 H2 H3 H4 H5 H6) in Ha.
    injection Ha as <-. repeat split. }
  - apply isError_iff in He. destruct He as [_ [_ [source Hs]]].
    exists source. split; [exact Hs|]. unfold format_message. rewrite Hs. reflexivity.
  - unfold sassReporter_transform. rewrite He, Ha.
    assert (Hm : str_eqb (format_message R file analysis) [] = false).
    { unfold format_message. apply str_eqb_neq. intros E.
      apply (f_equal (@length char)) in E. rewrite !length_app in E. simpl in E. lia. }
    rewrite Hm, indexOf_absent. simpl.
    destruct (existsb (str_eqb (format_message R file analysis)) output); reflexivity.
  - intros files Hall.
    pose proof (sassReporter_analysable_completes R files [] Hall) as Hc.
    split; [exact Hc|].
    destruct (sassReporter_through R files [] Hc) as [_ H]. rewrite H.
    apply fold_add_string_first_seen.
Qed.

(** Two markers with the same error and one with another. *)
Lemma sassReporter_buffers_message_witness :
  st_next (through_obj (sassReporter_transform (posix_resolve (lit "/w")))
     [mkFile (lit "/w") (lit "/w") (lit "/w/a.css") None
        (Some (mkFile (lit "/w") (lit "/w") (lit "/w/a.scss") None None None))
        (Some (lit "lib/b:3: error: x"));
      mkFile (lit "/w") (lit "/w") (lit "/w/c.css") None
        (Some (mkFile (lit "/w") (lit "/w") (lit "/w/c.scss") None None None))
        (Some (lit "source string:12: error: oops"));
      mkFile (lit "/w") (lit "/w") (lit "/w/d.css") None
        (Some (mkFile (lit "/w") (lit "/w") (lit "/w/d.scss") None None None))
        (Some (lit "lib/b:3: error: x"))] [])
  = [lit "/w/lib/b.scss:3:0: x" ++ newline; lit "/w/c.scss:12:0: oops" ++ newline].
Proof.
  destruct (sassReporter_buffers_message (posix_resolve (lit "/w"))
     (mkFile (lit "/w") (lit "/w") (lit "/w/a.css") None
        (Some (mkFile (lit "/w") (lit "/w") (lit "/w/a.scss") None None None))
        (Some (lit "lib/b:3: error: x")))
     []
     [(3, lit "x"); (2, lit "3"); (1, lit "lib/b")]
     eq_refl eq_refl) as [_ [_ [H _]]].
  destruct (H
     [mkFile (lit "/w") (lit "/w") (lit "/w/a.css") None
        (Some (mkFile (lit "/w") (lit "/w") (lit "/w/a.scss") None None None))
        (Some (lit "lib/b:3: error: x"));
      mkFile (lit "/w") (lit "/w") (lit "/w/c.css") None
        (Some (mkFile (lit "/w") (lit "/w") (lit "/w/c.scss") None None None))
        (Some (lit "source string:12: error: oops"));
      mkFile (lit "/w") (lit "/w") (lit "/w/d.css") None
        (Some (mkFile (lit "/w") (lit "/w") (lit "/w/d.scss") None None None))
        (Some (lit "lib/b:3: error: x"))]) as [_ H'].
  - repeat constructor; intros _; discriminate.
  - rewrite H'. reflexivity.
Defined.

(** The "trick to repeat a character N times": joining [n + 1] empty
    slots with a glyph gives the glyph [n] times. *)
Lemma join_empty_slots : forall (glyph : char) (n : nat),
  join [glyph] (repeat [] (S n)) = repeat glyph n.
Proof.
  intros glyph. induction n as [|n IH]; [reflexivity|].
  change (repeat [] (S (S n))) with (@nil char :: repeat [] (S n)).
  change (join [glyph] ([] :: repeat [] (S n)))
    with ([] ++ [glyph] ++ join [glyph] (repeat [] (S n))).
  rewrite IH. reflexivity.
Qed.

Lemma sassReporter_flush_block : forall (bannerWidth : option Z) (width : Z) output,
  width = match bannerWidth with Some n => n | None => 0%Z end ->
  (0 <= width < 2 ^ 32 - 1)%Z ->
  output <> [] ->
  sassReporter_flush bannerWidth output =
    ([banner_line banner_top width ++ newline ++ join newline output ++ newline
        ++ banner_line banner_bottom width], Completed).
Proof.
  intros bw width output Hw Hr Hne. unfold sassReporter_flush.
  destruct output as [|m output]; [contradiction|].
  rewrite <- Hw.
  assert (H1 : ((0 <=? width + 1) && (width + 1 <? 2 ^ 32))%Z = true).
  { apply andb_true_iff. split; [apply Z.leb_le | apply Z.ltb_lt]; lia. }
  rewrite H1. unfold banner_line.
  replace (Z.to_nat (width + 1)) with (S (Z.to_nat width)) by lia.
  rewrite !join_empty_slots.
  rewrite Z.gtb_ltb. reflexivity.
Qed.

(** C7.  With a banner width that is omitted or a natural number (below
    the largest array length), at the end of a stream: nothing is
    written when the buffer is empty; otherwise one block is written,
    made of the top banner line (the glyph U+25BC [width] times, when
    [width] is positive, nothing otherwise), an empty line, the buffered
    messages joined by line feeds, a line feed, and the bottom banner
    line (the glyph U+25B2, same condition).  A width of 5 gives banner
    lines of five glyphs, a width of 0 gives none. *)
Theorem sassReporter_report_block :
  forall (path_resolve : jstr -> jstr) (bannerWidth : option Z) (width : Z)
         (files : list File),
    width = match bannerWidth with Some n => n | None => 0%Z end ->
    (0 <= width < 2 ^ 32 - 1)%Z ->
    st_signal (through_obj (sassReporter_transform path_resolve) files []) = Completed ->
    (rp_output (sassReporter path_resolve bannerWidth files) = [] ->
     rp_stdout (sassReporter path_resolve bannerWidth files) = []) /\
    (rp_output (sassReporter path_resolve bannerWidth files) <> [] ->
     rp_stdout (sassReporter path_resolve bannerWidth files) =
       [banner_line banner_top width ++ newline
          ++ join newline (rp_output (sassReporter path_resolve bannerWidth files))
          ++ newline ++ banner_line banner_bottom width]) /\
    rp_signal (sassReporter path_resolve bannerWidth files) = Completed /\
    banner_line banner_top 5 = repeat banner_top 5 ++ newline /\
    banner_line banner_bottom 5 = repeat banner_bottom 5 ++ newline /\
    banner_line banner_top 0 = [] /\ banner_line banner_bottom 0 = [].
Proof.
  intros R bw width files Hw Hr Hc. unfold sassReporter. rewrite Hc.
  destruct (st_next (through_obj (sassReporter_transform R) files [])) as [|m output] eqn:E.
  - simpl. split; [reflexivity|]. split; [intros H; contradiction|].
    repeat split.
  - rewrite (sassReporter_flush_block bw width (m :: output) Hw Hr) by discriminate.
    simpl. split; [discriminate|]. split; [reflexivity|]. repeat split.
Qed.

(** Nothing is written either when the stream stops short of its end. *)
Lemma sassReporter_silent_on_empty_buffer :
  forall (path_resolve : jstr -> jstr) (bannerWidth : option Z) (files : list File),
    rp_output (sassReporter path_resolve bannerWidth files) = [] ->
    rp_stdout (sassReporter path_resolve bannerWidth files) = [].
Proof.
  intros R bw files. unfold sassReporter.
  destruct (st_signal (through_obj (sassReporter_transform R) files [])); simpl;
    try reflexivity.
  destruct (st_next (through_obj (sassReporter_transform R) files [])) as [|m output];
    [reflexivity|].
  destruct (sassReporter_flush bw (m :: output)) as [written sig]. simpl. discriminate.
Qed.

(** Outside that range the flush throws as soon as there is something
    to report: [new Array(width + 1)] refuses a negative length. *)
Lemma sassReporter_flush_negative_width : forall message output,
  sassReporter_flush (Some (-2)%Z) (message :: output) = ([], Threw RangeError).
Proof. reflexivity. Qed.

(** A banner width of 5 around one message; one successful record
    passes through. *)
Lemma sassReporter_report_block_witness :
  rp_stdout (sassReporter (posix_resolve (lit "/w")) (Some 5%Z)
     [mkFile (lit "/w") (lit "/w") (lit "/w/a.css") (Some (lit "a{}")) None None;
      mkFile (lit "/w") (lit "/w") (lit "/w/c.css") None
        (Some (mkFile (lit "/w") (lit "/w") (lit "/w/c.scss") None None None))
        (Some (lit "source string:12: error: oops"))])
  = [repeat banner_top 5 ++ newline ++ newline
       ++ lit "/w/c.scss:12:0: oops" ++ newline ++ newline
       ++ repeat banner_bottom 5 ++ newline].
Proof.
  destruct (sassReporter_report_block (posix_resolve (lit "/w")) (Some 5%Z) 5%Z
     [mkFile (lit "/w") (lit "/w") (lit "/w/a.css") (Some (lit "a{}")) None None;
      mkFile (lit "/w") (lit "/w") (lit "/w/c.css") None
        (Some (mkFile (lit "/w") (lit "/w") (lit "/w/c.scss") None None None))
        (Some (lit "source string:12: error: oops"))]
     eq_refl) as [_ [H _]].
  - lia.
  - reflexivity.
  - rewrite H; [reflexivity | discriminate].
Defined.

(** ** Paths *)

Lemma take_drop_while : forall (p : char -> bool) (s : jstr),
  take_while p s ++ drop_while p s = s.
Proof.
  intros p. induction s as [|c s IH]; [reflexivity|].
  simpl. destruct (p c); simpl; [rewrite IH|]; reflexivity.
Qed.



Lemma drop_while_length : forall (p : char -> bool) (s : jstr),
  length (drop_while p s) <= length s.
Proof.
  intros p. induction s as [|c s IH]; simpl; [lia|]. destruct (p c); simpl; lia.
Qed.


Lemma strip_prefix_app : forall a b, strip_prefix a (a ++ b) = Some b.
Proof.
  induction a as [|x a IH]; intros b; [destruct b; reflexivity|].
  simpl. rewrite N.eqb_refl. apply IH.
Qed.

Lemma strip_prefix_sound : forall a s r, strip_prefix a s = Some r -> s = a ++ r.
Proof.
  induction a as [|x a IH]; intros s r H.
  - destruct s; simpl in H; injection H as <-; reflexivity.
  - destruct s as [|y s]; simpl in H; [discriminate|].
    destruct (N.eqb x y) eqn:E; [|discriminate].
    apply N.eqb_eq in E. subst y. simpl. f_equal. apply IH. exact H.
Qed.


Lemma replace_first_unfold : forall pattern s,
  replace_first pattern s =
  match strip_prefix pattern s with
  | Some rest => rest
  | None => match s with [] => [] | c :: s' => c :: replace_first pattern s' end
  end.
Proof. intros pattern [|c s]; reflexivity. Qed.

(** Deleting the first occurrence of a string that occurs only at the
    end leaves what stands before it. *)
Lemma replace_first_last : forall pattern dir,
  (forall a b, dir ++ pattern = a ++ pattern ++ b -> b = []) ->
  replace_first pattern (dir ++ pattern) = dir.
Proof.
  intros pattern. induction dir as [|c dir IH]; intros H.
  - simpl. rewrite replace_first_unfold.
    rewrite <- (app_nil_r pattern) at 2. rewrite strip_prefix_app. reflexivity.
  - rewrite replace_first_unfold.
    destruct (strip_prefix pattern ((c :: dir) ++ pattern)) as [rest|] eqn:E.
    + apply strip_prefix_sound in E. pose proof (H [] rest E) as Hr. subst rest.
      rewrite app_nil_r in E. apply (f_equal (@length char)) in E.
      rewrite length_app in E. simpl in E. lia.
    + simpl. f_equal. apply IH. intros a b Hab.
      apply (H (c :: a) b). simpl. rewrite Hab. reflexivity.
Qed.


(** ** [transpile] *)

Lemma successHandler_cases : forall file css map,
  successHandler file css map = Throw SyntaxError \/
  successHandler file css map = OutsideModel \/
  successHandler file css map = Throw TypeError \/
  exists a b, successHandler file css map = Push a (Push b (Done Return)).
Proof.
  intros file css map. unfold successHandler.
  destruct (JSON_parse _) as [v| |]; [|tauto|tauto].
  destruct (delete_property (lit "file") v) as [v1|]; [|tauto].
  destruct (delete_property (lit "sourcesContent") v1) as [v2|]; [|tauto].
  right. right. right. unfold pushResult. eauto.
Qed.

Lemma successHandler_run : forall file css map libList replies,
  run (successHandler file css map) libList replies =
  (events_of (successHandler file css map), (libList, replies)).
Proof.
  intros file css map libList replies.
  destruct (successHandler_cases file css map) as [H|[H|[H|[a [b H]]]]];
    rewrite H; reflexivity.
Qed.

(** The events of one transform, whatever the compiler answers. *)
Lemma transpile_trace : forall outputStyle file libList replies,
  fst (run (transpile_transform outputStyle file) libList replies) =
  ERender (probe_options outputStyle file) libList ::
  match replies with
  | [] => []
  | r1 :: rest =>
      ECallback (reply_result r1) ::
      match reply_result r1 with
      | Failure e => [EPush (error_record file e); EDone]
      | Success _ _ =>
          ERender (map_options outputStyle file) (reply_libList r1) ::
          match rest with
          | [] => []
          | r2 :: _ =>
              ECallback (reply_result r2) ::
              match reply_result r2 with
              | Failure e => [EPush (error_record file e); EDone]
              | Success css map => events_of (successHandler file css map)
              end
          end
      end
  end.
Proof.
  intros style file libList replies.
  unfold transpile_transform, render. simpl.
  destruct replies as [|[[css0 map0|e] libs1] rest]; simpl; [reflexivity| |reflexivity].
  destruct rest as [|[[css map|e] libs2] rest]; simpl; [reflexivity| |reflexivity].
  rewrite successHandler_run. reflexivity.
Qed.



(** The claim C4 as it is worded fails when the first call reports an
    error: the compiler is invoked once, and [done] is called without
    any second call. *)
Lemma transpile_failed_probe_single_call :
  exists (file : File) (trace : list event),
    trace = fst (run (transpile_transform None file) [] [mkReply (Failure (lit "boom")) []]) /\
    count_renders trace = 1 /\ In EDone trace.
Proof.
  exists (mkFile (lit "/w") (lit "/w/src") (lit "/w/src/a.scss") (Some []) None None).
  eexists. split; [reflexivity|]. split; [reflexivity|]. simpl. tauto.
Qed.

Ltac crack_trace pre H :=
  destruct pre as [|? pre]; simpl in H;
  [ first [ discriminate H | inversion H; subst ]
  | first [ discriminate H | injection H as ? H; subst; crack_trace pre H ] ].

(** C4, amended.  The transform first calls the compiler without a
    source map.  It calls it a second time exactly when the first call
    succeeds, and only after the success callback of the first call has
    run; the second call asks for the source map [sourceName + '.css.map'].
    Each call is handed what [libList] holds at that moment.  There are
    no other calls: one or two in all.  When the first call fails, its
    error handler pushes the error record and calls [done].  [done] is
    called at most once, as the last event, and never while a call is
    pending. *)
Theorem transpile_render_protocol :
  forall (outputStyle : option jstr) (file : File) (libList : list jstr)
         (replies : list reply),
    (exists t, fst (run (transpile_transform outputStyle file) libList replies)
               = ERender (probe_options outputStyle file) libList :: t) /\
    (forall pre options includePaths post,
        fst (run (transpile_transform outputStyle file) libList replies)
          = pre ++ ERender options includePaths :: post ->
        pre <> [] ->
        exists r1 css map rest,
          replies = r1 :: rest /\ reply_result r1 = Success css map /\
          pre = [ERender (probe_options outputStyle file) libList;
                 ECallback (Success css map)] /\
          options = map_options outputStyle file /\
          includePaths = reply_libList r1) /\
    (forall r1 css map rest,
        replies = r1 :: rest -> reply_result r1 = Success css map ->
        count_renders (fst (run (transpile_transform outputStyle file) libList replies)) = 2) /\
    (forall r1 error rest,
        replies = r1 :: rest -> reply_result r1 = Failure error ->
        fst (run (transpile_transform outputStyle file) libList replies)
          = [ERender (probe_options outputStyle file) libList; ECallback (Failure error);
             EPush (error_record file error); EDone]) /\
    (forall pre post,
        fst (run (transpile_transform outputStyle file) libList replies)
          = pre ++ EDone :: post ->
        post = [] /\ ~ In EDone pre /\ count_callbacks pre = count_renders pre) /\
    1 <= count_renders (fst (run (transpile_transform outputStyle file) libList replies))
      <= 2.
Proof.
  intros style file libList replies. rewrite transpile_trace.
  split; [eexists; reflexivity|].
  assert (Hsucc : forall css map,
             events_of (successHandler file css map) = [EThrow SyntaxError] \/
             events_of (successHandler file css map) = [EOutsideModel] \/
             events_of (successHandler file css map) = [EThrow TypeError] \/
             exists a b, events_of (successHandler file css map) = [EPush a; EPush b; EDone]).
  { intros css map.
    destruct (successHandler_cases file css map) as [E|[E|[E|[a [b E]]]]];
      rewrite E; simpl; eauto 6. }
  destruct replies as [|[[css0 map0|e] libs1] rest]; cbn [reply_result reply_libList].
  - (* the first call is never answered *)
    split; [|split; [|split; [|split]]].
    + intros pre o l post H Hne. crack_trace pre H. contradiction.
    + intros; discriminate.
    + intros; discriminate.
    + intros pre post H. crack_trace pre H.
    + simpl. lia.
  - destruct rest as [|[[css map|e] libs2] rest]; cbn [reply_result reply_libList].
    + (* the second call is never answered *)
      split; [|split; [|split; [|split]]].
      * intros pre o l post H Hne. crack_trace pre H; [contradiction|].
        eexists; eexists; eexists; eexists; repeat split.
      * reflexivity.
      * intros r1 error rest0 H1 H2. injection H1 as <- <-. discriminate H2.
      * intros pre post H. crack_trace pre H.
      * simpl. lia.
    + (* both calls succeed *)
      destruct (Hsucc css map) as [E|[E|[E|[a [b E]]]]]; rewrite E.
      all: split; [|split; [|split; [|split]]].
      all: try (intros pre o l post H Hne; crack_trace pre H; [contradiction|];
                eexists; eexists; eexists; eexists; repeat split).
      all: try reflexivity.
      all: try (intros r1 error rest0 H1 H2; injection H1 as <- <-; discriminate H2).
      all: try (simpl; lia).
      all: try (intros pre post H; crack_trace pre H).
      simpl. repeat split. intuition discriminate.
    + (* the second call fails *)
      split; [|split; [|split; [|split]]].
      * intros pre o l post H Hne. crack_trace pre H; [contradiction|].
        eexists; eexists; eexists; eexists; repeat split.
      * reflexivity.
      * intros r1 error rest0 H1 H2. injection H1 as <- <-. discriminate H2.
      * intros pre post H. crack_trace pre H.
        simpl. repeat split. intuition discriminate.
      * simpl. lia.
  - (* the first call fails *)
    split; [|split; [|split; [|split]]].
    + intros pre o l post H Hne. crack_trace pre H. contradiction.
    + intros r1 css map rest0 H1 H2. injection H1 as <- <-. discriminate H2.
    + intros r1 error rest0 H1 H2. injection H1 as <- <-. simpl in H2.
      injection H2 as <-. reflexivity.
    + intros pre post H. crack_trace pre H.
      simpl. repeat split. intuition discriminate.
    + simpl. lia.
Qed.

(** ** JSON: strings *)

Lemma unhex_hex_digit : forall n, (n < 16)%N -> unhex (hex_digit n) = Some n.
Proof.
  intros n H. unfold hex_digit, unhex.
  destruct (n <? 10)%N eqn:E.
  - apply N.ltb_lt in E.
    replace (N.leb 48 (48 + n)) with true by (symmetry; apply N.leb_le; lia).
    replace (N.leb (48 + n) 57) with true by (symmetry; apply N.leb_le; lia).
    cbn [andb]. f_equal. lia.
  - apply N.ltb_ge in E.
    replace (N.leb (87 + n) 57) with false by (symmetry; apply N.leb_gt; lia).
    rewrite andb_false_r.
    replace (N.leb 97 (87 + n)) with true by (symmetry; apply N.leb_le; lia).
    replace (N.leb (87 + n) 102) with true by (symmetry; apply N.leb_le; lia).
    cbn [andb]. f_equal. lia.
Qed.

Lemma unhex4_unicode_escape : forall c,
  (c < 65536)%N ->
  unhex4 (hex_digit (c / 4096)) (hex_digit ((c / 256) mod 16))
         (hex_digit ((c / 16) mod 16)) (hex_digit (c mod 16)) = Some c.
Proof.
  intros c H. unfold unhex4.
  rewrite !unhex_hex_digit.
  - f_equal. zify. Z.to_euclidean_division_equations. lia.
  - apply N.mod_lt. discriminate.
  - apply N.mod_lt. discriminate.
  - apply N.mod_lt. discriminate.
  - apply N.Div0.div_lt_upper_bound. lia.
Qed.

Lemma parse_chars_escape : forall e u tail,
  N.eqb e 117 = false -> unescape e = Some u ->
  parse_chars (92%N :: e :: tail) = cons_char u (parse_chars tail).
Proof.
  intros e u tail He Hu.
  change (parse_chars (92%N :: e :: tail))
    with (if N.eqb e 117 then
            match tail with
            | h1 :: h2 :: h3 :: h4 :: r2 =>
                match unhex4 h1 h2 h3 h4 with
                | Some u => cons_char u (parse_chars r2)
                | None => PErr PSyntax
                end
            | _ => PErr PSyntax
            end
          else match unescape e with
               | Some u => cons_char u (parse_chars tail)
               | None => PErr PSyntax
               end).
  rewrite He, Hu. reflexivity.
Qed.

Lemma parse_chars_unicode : forall c tail,
  (c < 65536)%N ->
  parse_chars (unicode_escape c ++ tail) = cons_char c (parse_chars tail).
Proof.
  intros c tail H. unfold unicode_escape.
  change (parse_chars
            ([92%N; 117%N; hex_digit (c / 4096); hex_digit ((c / 256) mod 16);
              hex_digit ((c / 16) mod 16); hex_digit (c mod 16)] ++ tail))
    with (match unhex4 (hex_digit (c / 4096)) (hex_digit ((c / 256) mod 16))
                       (hex_digit ((c / 16) mod 16)) (hex_digit (c mod 16)) with
          | Some u => cons_char u (parse_chars tail)
          | None => PErr PSyntax
          end).
  rewrite unhex4_unicode_escape by exact H. reflexivity.
Qed.

Lemma parse_chars_raw : forall c tail,
  N.eqb c 34 = false -> N.eqb c 92 = false -> (c <? 32)%N = false ->
  parse_chars (c :: tail) = cons_char c (parse_chars tail).
Proof.
  intros c tail H1 H2 H3.
  change (parse_chars (c :: tail))
    with (if N.eqb c 34 then POk [] tail
          else if N.eqb c 92 then
            match tail with
            | [] => PErr PSyntax
            | e :: r1 =>
                if N.eqb e 117 then
                  match r1 with
                  | h1 :: h2 :: h3 :: h4 :: r2 =>
                      match unhex4 h1 h2 h3 h4 with
                      | Some u => cons_char u (parse_chars r2)
                      | None => PErr PSyntax
                      end
                  | _ => PErr PSyntax
                  end
                else match unescape e with
                     | Some u => cons_char u (parse_chars r1)
                     | None => PErr PSyntax
                     end
            end
          else if (c <? 32)%N then PErr PSyntax
          else cons_char c (parse_chars tail)).
  rewrite H1, H2, H3. reflexivity.
Qed.

Lemma surrogate_is_raw : forall c,
  is_high_surrogate c = true \/ is_low_surrogate c = true ->
  N.eqb c 34 = false /\ N.eqb c 92 = false /\ (c <? 32)%N = false /\ (c < 65536)%N.
Proof.
  intros c H. unfold is_high_surrogate, is_low_surrogate in H.
  assert (Hc : (55296 <= c <= 57343)%N).
  { destruct H as [H|H]; apply andb_true_iff in H; destruct H as [H1 H2];
      apply N.leb_le in H1; apply N.leb_le in H2; lia. }
  repeat split; try (apply N.eqb_neq; lia); try (apply N.ltb_ge; lia); lia.
Qed.

(** The text [quote_char] writes for a character reads back as that
    character. *)
Lemma parse_quote_char : forall c tail,
  parse_chars (quote_char c ++ tail) = cons_char c (parse_chars tail).
Proof.
  intros c tail. unfold quote_char.
  destruct (N.eqb c 8) eqn:E8;
    [apply N.eqb_eq in E8; subst; apply parse_chars_escape; reflexivity|].
  destruct (N.eqb c 9) eqn:E9;
    [apply N.eqb_eq in E9; subst; apply parse_chars_escape; reflexivity|].
  destruct (N.eqb c 10) eqn:E10;
    [apply N.eqb_eq in E10; subst; apply parse_chars_escape; reflexivity|].
  destruct (N.eqb c 12) eqn:E12;
    [apply N.eqb_eq in E12; subst; apply parse_chars_escape; reflexivity|].
  destruct (N.eqb c 13) eqn:E13;
    [apply N.eqb_eq in E13; subst; apply parse_chars_escape; reflexivity|].
  destruct (N.eqb c 34) eqn:E34;
    [apply N.eqb_eq in E34; subst; apply parse_chars_escape; reflexivity|].
  destruct (N.eqb c 92) eqn:E92;
    [apply N.eqb_eq in E92; subst; apply parse_chars_escape; reflexivity|].
  destruct (c <? 32)%N eqn:E32.
  - simpl orb. cbv iota. apply parse_chars_unicode. apply N.ltb_lt in E32. lia.
  - simpl orb.
    destruct (is_high_surrogate c || is_low_surrogate c) eqn:Es.
    + apply parse_chars_unicode. apply orb_true_iff in Es.
      apply surrogate_is_raw in Es. tauto.
    + apply parse_chars_raw; assumption.
Qed.

Lemma quote_chars_cons : forall c r,
  quote_chars (c :: r) =
  if is_high_surrogate c then
    match r with
    | d :: r' =>
        if is_low_surrogate d then c :: d :: quote_chars r'
        else quote_char c ++ quote_chars r
    | [] => quote_char c
    end
  else quote_char c ++ quote_chars r.
Proof. reflexivity. Qed.

(** The text [quote_chars] writes for a string, closed by a quote,
    reads back as that string. *)
Lemma parse_quote_chars : forall s,
  (forall rest, parse_chars (quote_chars s ++ 34%N :: rest) = POk s rest) /\
  (forall c rest, parse_chars (quote_chars (c :: s) ++ 34%N :: rest) = POk (c :: s) rest).
Proof.
  induction s as [|d s [IH1 IH2]].
  - split.
    + intros rest. reflexivity.
    + intros c rest. rewrite quote_chars_cons.
      destruct (is_high_surrogate c); rewrite ?app_nil_r; rewrite parse_quote_char;
        reflexivity.
  - split; [exact (IH2 d)|].
    intros c rest. rewrite quote_chars_cons.
    destruct (is_high_surrogate c) eqn:Hc.
    + destruct (is_low_surrogate d) eqn:Hd.
      * destruct (surrogate_is_raw c (or_introl Hc)) as [A1 [A2 [A3 _]]].
        destruct (surrogate_is_raw d (or_intror Hd)) as [B1 [B2 [B3 _]]].
        rewrite <- !app_comm_cons. rewrite (parse_chars_raw c _ A1 A2 A3).
        rewrite (parse_chars_raw d _ B1 B2 B3). rewrite IH1. reflexivity.
      * rewrite <- app_assoc, parse_quote_char, IH2. reflexivity.
    + rewrite <- app_assoc, parse_quote_char, IH2. reflexivity.
Qed.

Lemma parse_quote : forall s rest,
  parse_chars (quote_chars s ++ [34%N] ++ rest) = POk s rest.
Proof. intros s rest. apply parse_quote_chars. Qed.

(** ** JSON: numbers *)

Lemma uint_of_chars_of_uint : forall u, uint_of_chars (chars_of_uint u) = Some u.
Proof. induction u as [|u IH|u IH|u IH|u IH|u IH|u IH|u IH|u IH|u IH|u IH];
         [reflexivity|..]; simpl chars_of_uint;
         cbn [uint_of_chars]; rewrite IH; reflexivity.
Qed.

Lemma dec_value_print : forall n, dec_value (dec_print n) = Some n.
Proof.
  intros n. unfold dec_value, dec_print. rewrite uint_of_chars_of_uint.
  simpl. f_equal. apply Unsigned.of_to.
Qed.

Lemma chars_of_uint_digits : forall u rest,
  take_while re_digit (chars_of_uint u ++ rest) = chars_of_uint u ++ take_while re_digit rest /\
  drop_while re_digit (chars_of_uint u ++ rest) = drop_while re_digit rest.
Proof.
  induction u as [|u IH|u IH|u IH|u IH|u IH|u IH|u IH|u IH|u IH|u IH]; intros rest;
    [split; reflexivity|..];
    destruct (IH rest) as [H1 H2]; simpl; rewrite H1, H2; split; reflexivity.
Qed.

Lemma number_end_digits : forall rest,
  number_end rest = true ->
  take_while re_digit rest = [] /\ drop_while re_digit rest = rest /\
  match rest with
  | c :: _ => N.eqb c 46 || N.eqb c 101 || N.eqb c 69
  | [] => false
  end = false.
Proof.
  intros [|c rest] H; [repeat split|]. unfold number_end in H.
  apply negb_true_iff in H. apply orb_false_iff in H. destruct H as [H H3].
  apply orb_false_iff in H. destruct H as [H H2].
  apply orb_false_iff in H. destruct H as [H0 H1].
  simpl. rewrite H0, H1, H2, H3. repeat split.
Qed.

Lemma dec_print_head : forall n,
  exists c t, dec_print n = c :: t /\ re_digit c = true.
Proof.
  intros n. unfold dec_print.
  destruct (N.to_uint n) eqn:E; simpl; eauto.
  exfalso. pose proof (Unsigned.of_to n) as H. rewrite E in H.
  simpl in H. subst n. discriminate E.
Qed.

Lemma parse_natural : forall m rest,
  number_end rest = true ->
  (Z.of_N m <= max_safe_integer)%Z ->
  take_while re_digit (dec_print m ++ rest) = dec_print m /\
  drop_while re_digit (dec_print m ++ rest) = rest.
Proof.
  intros m rest He Hr. unfold dec_print.
  destruct (chars_of_uint_digits (N.to_uint m) rest) as [H1 H2].
  destruct (number_end_digits rest He) as [H3 [H4 _]].
  rewrite H1, H2, H3, H4, app_nil_r. split; reflexivity.
Qed.

(** The numeral of an integer of the model reads back as that integer. *)
Lemma parse_number_to_string : forall n rest,
  (- max_safe_integer <= n <= max_safe_integer)%Z ->
  number_end rest = true ->
  parse_number (number_to_string n ++ rest) = POk n rest.
Proof.
  intros n rest Hr He. unfold number_to_string.
  destruct (number_end_digits rest He) as [_ [_ Hf]].
  destruct (n <? 0)%Z eqn:En.
  - apply Z.ltb_lt in En.
    assert (Hm : (Z.of_N (Z.to_N (- n)) <= max_safe_integer)%Z) by lia.
    destruct (parse_natural (Z.to_N (- n)) rest He Hm) as [H1 H2].
    unfold parse_number. simpl app. cbv beta iota.
    change (N.eqb 45 45) with true. cbv beta iota. simpl tl.
    rewrite H1, H2, dec_value_print, str_eqb_refl, Hf. simpl negb. cbv iota.
    apply Z.leb_le in Hm. rewrite Hm. f_equal. lia.
  - apply Z.ltb_ge in En.
    assert (Hm : (Z.of_N (Z.to_N n) <= max_safe_integer)%Z) by lia.
    destruct (parse_natural (Z.to_N n) rest He Hm) as [H1 H2].
    destruct (dec_print_head (Z.to_N n)) as [c [t [Hc Hd]]].
    unfold parse_number.
    assert (Hneg : match dec_print (Z.to_N n) ++ rest with
                   | c :: _ => N.eqb c 45
                   | [] => false
                   end = false).
    { rewrite Hc. simpl. unfold re_digit in Hd. apply andb_true_iff in Hd.
      destruct Hd as [Hd _]. apply N.leb_le in Hd. apply N.eqb_neq. lia. }
    rewrite Hneg, H1, H2, dec_value_print, str_eqb_refl, Hf. simpl negb. cbv iota.
    apply Z.leb_le in Hm. rewrite Hm. f_equal. lia.
Qed.

(** ** JSON: values *)

Lemma json_nested_ind (P : json -> Prop) :
  P JNull -> (forall b, P (JBool b)) -> (forall n, P (JNumber n)) ->
  (forall s, P (JString s)) ->
  (forall elems, Forall P elems -> P (JArray elems)) ->
  (forall props, Forall (fun p => P (snd p)) props -> P (JObject props)) ->
  forall v, P v.
Proof.
  intros Hn Hb Hz Hs Ha Ho.
  fix self 1. intros [|b|n|s|elems|props].
  - exact Hn.
  - apply Hb.
  - apply Hz.
  - apply Hs.
  - apply Ha. induction elems as [|v elems IH]; constructor; [apply self | exact IH].
  - apply Ho. induction props as [|[k v] props IH]; constructor; [apply self | exact IH].
Qed.

Lemma json_wf_array : forall elems, json_wf (JArray elems) <-> Forall json_wf elems.
Proof.
  induction elems as [|v elems IH]; split; intros H.
  - constructor.
  - exact I.
  - destruct H as [Hv Hr]. constructor; [exact Hv | apply IH; exact Hr].
  - inversion H; subst. split; [assumption | apply IH; assumption].
Qed.

Lemma json_wf_object : forall props,
  json_wf (JObject props) <->
  keys_ok (map fst props) /\ Forall (fun p => json_wf (snd p)) props.
Proof.
  intros props. simpl.
  assert (E : (fix all (l : list (jstr * json)) : Prop :=
                 match l with
                 | [] => True
                 | p :: r => json_wf (snd p) /\ all r
                 end) props <-> Forall (fun p => json_wf (snd p)) props).
  { induction props as [|p props IH]; split; intros H.
    - constructor.
    - exact I.
    - destruct H as [Hv Hr]. constructor; [exact Hv | apply IH; exact Hr].
    - inversion H; subst. split; [assumption | apply IH; assumption]. }
  tauto.
Qed.

Lemma need_array : forall elems, need (JArray elems) = S (need_elems elems).
Proof.
  intros elems. reflexivity.
Qed.

Lemma need_object : forall props, need (JObject props) = S (need_props props).
Proof.
  intros props. reflexivity.
Qed.

Lemma serialize_array : forall indent e elems,
  serialize indent (JArray (e :: elems)) =
  [91%N] ++ newline ++ (indent ++ gap)
    ++ join ([44%N] ++ newline ++ (indent ++ gap))
            (map (serialize (indent ++ gap)) (e :: elems))
    ++ newline ++ indent ++ [93%N].
Proof. reflexivity. Qed.

Lemma serialize_object : forall indent p props,
  serialize indent (JObject (p :: props)) =
  [123%N] ++ newline ++ (indent ++ gap)
    ++ join ([44%N] ++ newline ++ (indent ++ gap))
            (map (member_text (indent ++ gap)) (p :: props))
    ++ newline ++ indent ++ [125%N].
Proof. reflexivity. Qed.

Lemma join_cons2 : forall sep (x y : jstr) l,
  join sep (x :: y :: l) = x ++ sep ++ join sep (y :: l).
Proof. reflexivity. Qed.

Lemma skip_ws_app : forall ws s,
  forallb is_ws ws = true -> skip_ws (ws ++ s) = skip_ws s.
Proof.
  induction ws as [|c ws IH]; intros s H; [reflexivity|].
  simpl in H. apply andb_true_iff in H. destruct H as [Hc Hr].
  unfold skip_ws. simpl. rewrite Hc. apply IH. exact Hr.
Qed.

Lemma skip_ws_head : forall c s, is_ws c = false -> skip_ws (c :: s) = c :: s.
Proof. intros c s H. unfold skip_ws. simpl. rewrite H. reflexivity. Qed.

Lemma parse_value_skip : forall n s, parse_value n s = parse_value n (skip_ws s).
Proof.
  intros [|n] s; [reflexivity|].
  assert (E : skip_ws (skip_ws s) = skip_ws s).
  { unfold skip_ws. induction s as [|c s IH]; [reflexivity|].
    simpl. destruct (is_ws c) eqn:Ec; [exact IH|]. simpl. rewrite Ec. reflexivity. }
  simpl. rewrite E. reflexivity.
Qed.

Lemma parse_value_ws : forall n ws s,
  forallb is_ws ws = true -> parse_value n (ws ++ s) = parse_value n s.
Proof.
  intros n ws s H. rewrite (parse_value_skip n (ws ++ s)), (parse_value_skip n s).
  rewrite skip_ws_app by exact H. reflexivity.
Qed.

Lemma number_to_string_head : forall n,
  exists c t, number_to_string n = c :: t /\ (N.eqb c 45 || re_digit c) = true.
Proof.
  intros n. unfold number_to_string. destruct (n <? 0)%Z.
  - eexists; eexists; split; reflexivity.
  - destruct (dec_print_head (Z.to_N n)) as [c [t [H1 H2]]].
    exists c, t. rewrite H1, H2. split; [reflexivity | apply orb_true_r].
Qed.

Lemma number_head_not_special : forall c,
  (N.eqb c 45 || re_digit c) = true ->
  is_ws c = false /\ N.eqb c 123 = false /\ N.eqb c 91 = false /\
  N.eqb c 34 = false /\ N.eqb c 93 = false /\ N.eqb c 125 = false.
Proof.
  intros c H.
  assert (Hc : c = 45%N \/ (48 <= c <= 57)%N).
  { apply orb_true_iff in H. destruct H as [H|H].
    - left. apply N.eqb_eq. exact H.
    - right. unfold re_digit in H. apply andb_true_iff in H. destruct H as [H1 H2].
      apply N.leb_le in H1. apply N.leb_le in H2. lia. }
  unfold is_ws.
  repeat split; try (apply N.eqb_neq; lia).
  repeat (apply orb_false_iff; split); apply N.eqb_neq; lia.
Qed.

(** The text of a value starts with a character that is neither white
    space nor a closing bracket. *)
Lemma serialize_head : forall indent v,
  exists c t, serialize indent v = c :: t /\
              is_ws c = false /\ N.eqb c 93 = false /\ N.eqb c 125 = false.
Proof.
  intros indent [|[|]|n|s|[|e elems]|[|p props]];
    try (eexists; eexists; split; [reflexivity | repeat split]).
  destruct (number_to_string_head n) as [c [t [H1 H2]]].
  exists c, t. simpl. split; [exact H1|].
  destruct (number_head_not_special c H2) as [A [_ [_ [_ [B C]]]]]. auto.
Qed.

Lemma parse_value_array_open : forall n ws X c t,
  X = c :: t -> forallb is_ws ws = true -> is_ws c = false -> N.eqb c 93 = false ->
  parse_value (S n) (91%N :: ws ++ X) = parsed_map JArray (parse_elements n (ws ++ X)).
Proof.
  intros n ws X c t HX Hws Hc H93. simpl.
  rewrite skip_ws_app by exact Hws. rewrite HX at 1.
  rewrite skip_ws_head by exact Hc. rewrite H93. reflexivity.
Qed.

Lemma parse_value_object_open : forall n ws X t,
  X = 34%N :: t -> forallb is_ws ws = true ->
  parse_value (S n) (123%N :: ws ++ X) = parse_members n [] (ws ++ X).
Proof.
  intros n ws X t HX Hws. simpl.
  rewrite skip_ws_app by exact Hws. rewrite HX at 1.
  rewrite skip_ws_head by reflexivity. reflexivity.
Qed.

Lemma parse_elements_step : forall m s,
  parse_elements (S m) s =
  match parse_value m s with
  | PErr e => PErr e
  | POk v r =>
      match skip_ws r with
      | c :: r' =>
          if N.eqb c 44 then parsed_map (cons v) (parse_elements m r')
          else if N.eqb c 93 then POk [v] r'
          else PErr PSyntax
      | [] => PErr PSyntax
      end
  end.
Proof. reflexivity. Qed.

Lemma parse_members_step : forall m members s,
  parse_members (S m) members s =
  match skip_ws s with
  | q :: r =>
      if N.eqb q 34 then
        match parse_chars r with
        | PErr e => PErr e
        | POk k r1 =>
            match skip_ws r1 with
            | c :: r2 =>
                if N.eqb c 58 then
                  match parse_value m r2 with
                  | PErr e => PErr e
                  | POk v r3 =>
                      match skip_ws r3 with
                      | c' :: r4 =>
                          if N.eqb c' 44
                          then parse_members m (set_property k v members) r4
                          else if N.eqb c' 125
                               then POk (JObject (set_property k v members)) r4
                               else PErr PSyntax
                      | [] => PErr PSyntax
                      end
                  end
                else PErr PSyntax
            | [] => PErr PSyntax
            end
        end
      else PErr PSyntax
  | [] => PErr PSyntax
  end.
Proof. reflexivity. Qed.

(** *** Creating the properties of an object in their order *)

Lemma has_key_In : forall k props, has_key k props = true <-> In k (map fst props).
Proof.
  intros k. induction props as [|[k' v] props IH]; simpl.
  - split; [discriminate | tauto].
  - rewrite orb_true_iff, IH, str_eqb_eq. tauto.
Qed.

Lemma StronglySorted_snoc : forall (A : Type) (R : A -> A -> Prop) l x,
  StronglySorted R (l ++ [x]) -> Forall (fun y => R y x) l.
Proof.
  intros A R. induction l as [|a l IH]; intros x H; [constructor|].
  simpl in H. apply StronglySorted_inv in H. destruct H as [Hs Hf].
  constructor.
  - rewrite Forall_forall in Hf. apply Hf. apply in_or_app. right. left. reflexivity.
  - apply IH. exact Hs.
Qed.

Lemma insert_property_last : forall k v props,
  Forall (fun k' => key_before k k' = false) (map fst props) ->
  insert_property k v props = props ++ [(k, v)].
Proof.
  intros k v. induction props as [|[k' v'] props IH]; intros H; [reflexivity|].
  simpl in H. inversion H as [|? ? Hk Hr]; subst.
  simpl. rewrite Hk, (IH Hr). reflexivity.
Qed.

(** A property that comes last in the order of enumeration is created
    last. *)
Lemma set_property_last : forall k v props,
  keys_ok (map fst (props ++ [(k, v)])) ->
  set_property k v props = props ++ [(k, v)].
Proof.
  intros k v props [Hnd Hs]. rewrite map_app in Hnd, Hs. simpl in Hnd, Hs.
  unfold set_property.
  assert (Hk : has_key k props = false).
  { destruct (has_key k props) eqn:E; [|reflexivity].
    apply has_key_In in E. apply NoDup_remove_2 in Hnd.
    rewrite app_nil_r in Hnd. contradiction. }
  rewrite Hk. apply insert_property_last.
  apply StronglySorted_snoc in Hs. exact Hs.
Qed.

(** *** Arrays *)

Lemma elements_read_back : forall elems,
  Forall reads_back elems -> Forall json_wf elems -> elems <> [] ->
  forall n ws indent stepback rest,
    need_elems elems <= n ->
    forallb is_ws ws = true -> forallb is_ws indent = true ->
    forallb is_ws stepback = true ->
    parse_elements n
      (ws ++ join ([44%N] ++ newline ++ indent) (map (serialize indent) elems)
          ++ newline ++ stepback ++ [93%N] ++ rest)
    = POk elems rest.
Proof.
  induction elems as [|e elems IH]; intros Hrb Hwf Hne; [contradiction|].
  inversion Hrb as [|? ? He Hes]; subst. inversion Hwf as [|? ? We Wes]; subst.
  intros n ws indent stepback rest Hn Hws Hind Hstep.
  destruct n as [|m]; [simpl in Hn; lia|].
  assert (Hm : need e <= m /\ need_elems elems <= m).
  { change (need_elems (e :: elems)) with (S (Nat.max (need e) (need_elems elems))) in Hn.
    lia. }
  destruct Hm as [Hm1 Hm2].
  rewrite parse_elements_step.
  destruct elems as [|e2 elems].
  - (* the last element *)
    simpl map. simpl join.
    rewrite parse_value_ws by exact Hws.
    rewrite (He We m indent _ Hm1 Hind) by reflexivity.
    change (newline ++ stepback ++ [93%N] ++ rest)
      with ((10%N :: stepback) ++ 93%N :: rest).
    rewrite skip_ws_app by (simpl; exact Hstep).
    reflexivity.
  - (* an element followed by others *)
    change (map (serialize indent) (e :: e2 :: elems))
      with (serialize indent e :: serialize indent e2 :: map (serialize indent) elems).
    rewrite join_cons2. rewrite <- !app_assoc.
    rewrite parse_value_ws by exact Hws.
    rewrite (He We m indent _ Hm1 Hind) by reflexivity.
    pose proof (IH Hes Wes ltac:(discriminate) m (10%N :: indent) indent stepback rest Hm2)
      as E.
    simpl in E. specialize (E Hind Hind Hstep).
    simpl. rewrite E. reflexivity.
Qed.

(** *** Objects *)

Lemma parse_value_space : forall n s, parse_value n (32%N :: s) = parse_value n s.
Proof. intros n s. apply (parse_value_ws n [32%N] s). reflexivity. Qed.

Lemma keys_ok_prefix : forall l1 l2, keys_ok (l1 ++ l2) -> keys_ok l1.
Proof.
  intros l1 l2 [Hnd Hs]. split.
  - apply NoDup_app_remove_r in Hnd. exact Hnd.
  - clear Hnd. induction l1 as [|a l1 IH]; [constructor|].
    simpl in Hs. apply StronglySorted_inv in Hs. destruct Hs as [Hs Hf].
    constructor; [apply IH; exact Hs|].
    apply Forall_app in Hf. tauto.
Qed.

Lemma member_text_shape : forall indent k v tail,
  member_text indent (k, v) ++ tail =
  34%N :: quote_chars k ++ [34%N] ++ (58%N :: 32%N :: serialize indent v ++ tail).
Proof.
  intros indent k v tail. unfold member_text, quote. simpl fst. simpl snd.
  simpl. rewrite <- !app_assoc. reflexivity.
Qed.

Lemma members_read_back : forall props,
  Forall (fun p => reads_back (snd p)) props ->
  Forall (fun p => json_wf (snd p)) props -> props <> [] ->
  forall members n ws indent stepback rest,
    keys_ok (map fst (members ++ props)) ->
    need_props props <= n ->
    forallb is_ws ws = true -> forallb is_ws indent = true ->
    forallb is_ws stepback = true ->
    parse_members n members
      (ws ++ join ([44%N] ++ newline ++ indent) (map (member_text indent) props)
          ++ newline ++ stepback ++ [125%N] ++ rest)
    = POk (JObject (members ++ props)) rest.
Proof.
  induction props as [|[k v] props IH]; intros Hrb Hwf Hne; [contradiction|].
  inversion Hrb as [|? ? He Hes]; subst. inversion Hwf as [|? ? We Wes]; subst.
  simpl in He, We.
  intros members n ws indent stepback rest Hk Hn Hws Hind Hstep.
  destruct n as [|m]; [simpl in Hn; lia|].
  assert (Hm : need v <= m /\ need_props props <= m).
  { change (need_props ((k, v) :: props))
      with (S (Nat.max (need v) (need_props props))) in Hn. lia. }
  destruct Hm as [Hm1 Hm2].
  assert (Hset : set_property k v members = members ++ [(k, v)]).
  { apply set_property_last.
    replace (members ++ (k, v) :: props) with ((members ++ [(k, v)]) ++ props) in Hk
      by (rewrite <- app_assoc; reflexivity).
    rewrite map_app in Hk. apply keys_ok_prefix in Hk. exact Hk. }
  rewrite parse_members_step.
  rewrite skip_ws_app by exact Hws.
  destruct props as [|p2 props].
  - (* the last member *)
    simpl map. simpl join. rewrite member_text_shape.
    rewrite skip_ws_head by reflexivity.
    change (N.eqb 34 34) with true. cbv iota.
    rewrite parse_quote.
    rewrite skip_ws_head by reflexivity.
    change (N.eqb 58 58) with true. cbv iota.
    rewrite parse_value_space.
    rewrite (He We m indent _ Hm1 Hind) by reflexivity.
    change (newline ++ stepback ++ [125%N] ++ rest)
      with ((10%N :: stepback) ++ 125%N :: rest).
    rewrite skip_ws_app by (simpl; exact Hstep).
    rewrite Hset. reflexivity.
  - (* a member followed by others *)
    change (map (member_text indent) ((k, v) :: p2 :: props))
      with (member_text indent (k, v) :: member_text indent p2
              :: map (member_text indent) props).
    rewrite join_cons2. rewrite <- !app_assoc. rewrite member_text_shape.
    rewrite skip_ws_head by reflexivity.
    change (N.eqb 34 34) with true. cbv iota.
    rewrite parse_quote.
    rewrite skip_ws_head by reflexivity.
    change (N.eqb 58 58) with true. cbv iota.
    rewrite parse_value_space.
    rewrite (He We m indent _ Hm1 Hind) by reflexivity.
    rewrite Hset.
    pose proof (IH Hes Wes ltac:(discriminate) (members ++ [(k, v)]) m
                  (10%N :: indent) indent stepback rest) as E.
    rewrite <- app_assoc in E. simpl in E. specialize (E Hk Hm2 Hind Hind Hstep).
    simpl. rewrite E. reflexivity.
Qed.

(** *** Every value *)

Lemma join_head : forall sep (x : jstr) l,
  exists tail, join sep (x :: l) = x ++ tail.
Proof.
  intros sep x [|y l].
  - exists []. simpl. rewrite app_nil_r. reflexivity.
  - eexists. apply join_cons2.
Qed.

Lemma json_reads_back : forall v, reads_back v.
Proof.
  induction v as [|b|z|s|elems IH|props IH] using json_nested_ind;
    intros Hwf n indent rest Hn Hind Hend.
  - destruct n as [|n]; [simpl in Hn; lia|]. reflexivity.
  - destruct n as [|n]; [simpl in Hn; lia|]. destruct b; reflexivity.
  - destruct n as [|n]; [simpl in Hn; lia|].
    simpl in Hwf. simpl serialize.
    destruct (number_to_string_head z) as [c [t [H1 H2]]].
    destruct (number_head_not_special c H2) as [A1 [A2 [A3 [A4 _]]]].
    pose proof (parse_number_to_string z rest Hwf Hend) as E.
    rewrite H1 in *. simpl. rewrite skip_ws_head by exact A1.
    rewrite A2, A3, A4, H2. simpl in E. rewrite E. reflexivity.
  - destruct n as [|n]; [simpl in Hn; lia|].
    simpl serialize. unfold quote. simpl.
    rewrite <- app_assoc. rewrite parse_quote. reflexivity.
  - destruct elems as [|e elems].
    + destruct n as [|n]; [simpl in Hn; lia|]. reflexivity.
    + rewrite need_array in Hn. destruct n as [|n]; [lia|].
      apply json_wf_array in Hwf.
      assert (Hgap : forallb is_ws (newline ++ indent ++ gap) = true).
      { rewrite forallb_app. simpl. rewrite forallb_app, Hind. reflexivity. }
      assert (Hgap' : forallb is_ws (indent ++ gap) = true).
      { rewrite forallb_app, Hind. reflexivity. }
      set (X := join ([44%N] ++ newline ++ indent ++ gap)
                  (map (serialize (indent ++ gap)) (e :: elems))
                ++ newline ++ indent ++ [93%N] ++ rest).
      assert (Htext : serialize indent (JArray (e :: elems)) ++ rest
                      = 91%N :: (newline ++ indent ++ gap) ++ X).
      { rewrite serialize_array. unfold X. rewrite <- !app_assoc. reflexivity. }
      destruct (serialize_head (indent ++ gap) e) as [c [t [H1 [H2 [H3 _]]]]].
      destruct (join_head ([44%N] ++ newline ++ indent ++ gap)
                  (serialize (indent ++ gap) e)
                  (map (serialize (indent ++ gap)) elems)) as [tail Ht].
      assert (HX : X = c :: t ++ tail ++ newline ++ indent ++ [93%N] ++ rest).
      { unfold X. simpl map. rewrite Ht, H1. rewrite <- !app_assoc. reflexivity. }
      rewrite Htext.
      rewrite (parse_value_array_open n _ X c _ HX Hgap H2 H3).
      unfold X.
      rewrite (elements_read_back (e :: elems) IH Hwf ltac:(discriminate) n
                 (newline ++ indent ++ gap) (indent ++ gap) indent rest);
        [reflexivity | lia | exact Hgap | exact Hgap' | exact Hind].
  - destruct props as [|[k v] props].
    + destruct n as [|n]; [simpl in Hn; lia|]. reflexivity.
    + rewrite need_object in Hn. destruct n as [|n]; [lia|].
      apply json_wf_object in Hwf. destruct Hwf as [Hk Hwf].
      assert (Hgap : forallb is_ws (newline ++ indent ++ gap) = true).
      { rewrite forallb_app. simpl. rewrite forallb_app, Hind. reflexivity. }
      assert (Hgap' : forallb is_ws (indent ++ gap) = true).
      { rewrite forallb_app, Hind. reflexivity. }
      set (X := join ([44%N] ++ newline ++ indent ++ gap)
                  (map (member_text (indent ++ gap)) ((k, v) :: props))
                ++ newline ++ indent ++ [125%N] ++ rest).
      assert (Htext : serialize indent (JObject ((k, v) :: props)) ++ rest
                      = 123%N :: (newline ++ indent ++ gap) ++ X).
      { rewrite serialize_object. unfold X. rewrite <- !app_assoc. reflexivity. }
      destruct (join_head ([44%N] ++ newline ++ indent ++ gap)
                  (member_text (indent ++ gap) (k, v))
                  (map (member_text (indent ++ gap)) props)) as [tail Ht].
      assert (HX : exists t, X = 34%N :: t).
      { unfold X. simpl map. rewrite Ht. rewrite <- !app_assoc.
        rewrite member_text_shape. eexists. reflexivity. }
      destruct HX as [t HX].
      rewrite Htext.
      rewrite (parse_value_object_open n _ X t HX Hgap).
      unfold X.
      rewrite (members_read_back ((k, v) :: props) IH Hwf ltac:(discriminate) [] n
                 (newline ++ indent ++ gap) (indent ++ gap) indent rest);
        [reflexivity | exact Hk | lia | exact Hgap | exact Hgap' | exact Hind].
Qed.

Lemma needs_join : forall (A : Type) (nd : A -> nat) (f : A -> jstr) sep l,
  Forall (fun a => nd a <= length (f a)) l -> 1 <= length sep ->
  fold_right (fun x acc => S (Nat.max (nd x) acc)) 0 l <= S (length (join sep (map f l))).
Proof.
  intros A nd f sep. induction l as [|a l IH]; intros H Hsep; [simpl; lia|].
  inversion H as [|? ? Ha Hl]; subst. specialize (IH Hl Hsep).
  destruct l as [|b l].
  - simpl. lia.
  - change (map f (a :: b :: l)) with (f a :: f b :: map f l).
    rewrite join_cons2, !length_app.
    change (fold_right (fun x acc => S (Nat.max (nd x) acc)) 0 (a :: b :: l))
      with (S (Nat.max (nd a) (fold_right (fun x acc => S (Nat.max (nd x) acc)) 0 (b :: l)))).
    change (map f (b :: l)) with (f b :: map f l) in IH. lia.
Qed.

(** The budget a value needs is at most the length of its text. *)
Lemma need_le_length : forall v indent, need v <= length (serialize indent v).
Proof.
  induction v as [|b|z|s|elems IH|props IH] using json_nested_ind; intros indent.
  - simpl. lia.
  - destruct b; simpl; lia.
  - simpl. destruct (number_to_string_head z) as [c [t [H _]]]. rewrite H. simpl. lia.
  - simpl. lia.
  - destruct elems as [|e elems]; [simpl; lia|].
    rewrite need_array, serialize_array. rewrite !length_app.
    assert (H : need_elems (e :: elems)
                <= S (length (join ([44%N] ++ newline ++ indent ++ gap)
                                (map (serialize (indent ++ gap)) (e :: elems))))).
    { apply needs_join; [|simpl; lia].
      rewrite Forall_forall in *. intros a Ha. apply IH. exact Ha. }
    change (length [91%N]) with 1. change (length newline) with 1.
    change (length [93%N]) with 1. lia.
  - destruct props as [|p props]; [simpl; lia|].
    rewrite need_object, serialize_object. rewrite !length_app.
    assert (H : need_props (p :: props)
                <= S (length (join ([44%N] ++ newline ++ indent ++ gap)
                                (map (member_text (indent ++ gap)) (p :: props))))).
    { apply (needs_join _ (fun q => need (snd q))); [|simpl; lia].
      rewrite Forall_forall in *. intros a Ha. unfold member_text.
      rewrite !length_app. specialize (IH a Ha (indent ++ gap)). simpl in IH. lia. }
    change (length [123%N]) with 1. change (length newline) with 1.
    change (length [125%N]) with 1. lia.
Qed.

(** What [JSON.stringify] writes for a value, [JSON.parse] reads back as
    that value. *)
Lemma JSON_parse_stringify : forall v,
  json_wf v -> JSON_parse (JSON_stringify v) = Parsed v.
Proof.
  intros v Hwf. unfold JSON_parse, JSON_stringify.
  pose proof (json_reads_back v Hwf (2 * length (serialize [] v) + 1) [] []) as E.
  rewrite app_nil_r in E. rewrite E; [reflexivity| |reflexivity|reflexivity].
  pose proof (need_le_length v []). lia.
Qed.

(** ** JSON: what the parser builds is well formed *)

Lemma key_before_trans : forall a b c,
  key_before a b = true -> key_before b c = true -> key_before a c = true.
Proof.
  intros a b c. unfold key_before.
  destruct (array_index a) as [i|]; [|discriminate].
  destruct (array_index b) as [j|]; [|discriminate].
  destruct (array_index c) as [l|]; [|reflexivity].
  rewrite !N.ltb_lt. lia.
Qed.

Lemma key_before_asym : forall a b, key_before a b = true -> key_before b a = false.
Proof.
  intros a b. unfold key_before.
  destruct (array_index a) as [i|]; [|discriminate].
  destruct (array_index b) as [j|]; [|reflexivity].
  rewrite N.ltb_lt, N.ltb_ge. lia.
Qed.

Lemma replace_property_keys : forall k v props,
  map fst (replace_property k v props) = map fst props.
Proof.
  intros k v. induction props as [|[k' v'] props IH]; [reflexivity|].
  simpl. destruct (str_eqb k' k) eqn:E; simpl.
  - apply str_eqb_eq in E. subst. reflexivity.
  - rewrite IH. reflexivity.
Qed.

Lemma insert_property_In : forall k v props x,
  In x (map fst (insert_property k v props)) <-> x = k \/ In x (map fst props).
Proof.
  intros k v. induction props as [|[k' v'] props IH]; intros x; simpl.
  - intuition.
  - destruct (key_before k k'); simpl; [intuition|]. rewrite IH. intuition.
Qed.

Lemma insert_property_keys_ok : forall k v props,
  keys_ok (map fst props) -> ~ In k (map fst props) ->
  keys_ok (map fst (insert_property k v props)).
Proof.
  intros k v. induction props as [|[k' v'] props IH]; intros [Hnd Hs] Hk.
  - split; repeat constructor. simpl. tauto.
  - simpl in *. inversion Hnd as [|? ? Hk' Hnd']; subst.
    apply StronglySorted_inv in Hs. destruct Hs as [Hs Hf].
    destruct (key_before k k') eqn:E.
    + split.
      * simpl. constructor; [simpl; tauto | constructor; assumption].
      * simpl. constructor; [constructor; assumption|].
        constructor; [apply key_before_asym; exact E|].
        rewrite Forall_forall in *. intros x Hx. specialize (Hf x Hx). simpl in Hf.
        destruct (key_before x k) eqn:Ex; [|reflexivity].
        rewrite (key_before_trans x k k' Ex E) in Hf. discriminate.
    + destruct (IH (conj Hnd' Hs)) as [Hnd2 Hs2]; [tauto|].
      split; simpl.
      * constructor; [|exact Hnd2]. rewrite insert_property_In.
        intros [H|H]; [subst; tauto | contradiction].
      * constructor; [exact Hs2|].
        rewrite Forall_forall in *. intros x Hx. apply insert_property_In in Hx.
        destruct Hx as [->|Hx]; [exact E | apply Hf; exact Hx].
Qed.

Lemma set_property_keys_ok : forall k v props,
  keys_ok (map fst props) -> keys_ok (map fst (set_property k v props)).
Proof.
  intros k v props H. unfold set_property.
  destruct (has_key k props) eqn:E.
  - rewrite replace_property_keys. exact H.
  - apply insert_property_keys_ok; [exact H|].
    intros Hin. apply has_key_In in Hin. congruence.
Qed.

Lemma replace_property_wf : forall k v props,
  json_wf v -> Forall (fun p => json_wf (snd p)) props ->
  Forall (fun p => json_wf (snd p)) (replace_property k v props).
Proof.
  intros k v props Hv. induction props as [|[k' v'] props IH]; intros H; [constructor|].
  inversion H; subst. simpl.
  destruct (str_eqb k' k); constructor; auto.
Qed.

Lemma insert_property_wf : forall k v props,
  json_wf v -> Forall (fun p => json_wf (snd p)) props ->
  Forall (fun p => json_wf (snd p)) (insert_property k v props).
Proof.
  intros k v props Hv. induction props as [|[k' v'] props IH]; intros H.
  - repeat constructor. exact Hv.
  - inversion H; subst. simpl.
    destruct (key_before k k'); constructor; auto.
Qed.

Lemma set_property_wf : forall k v props,
  json_wf v -> Forall (fun p => json_wf (snd p)) props ->
  Forall (fun p => json_wf (snd p)) (set_property k v props).
Proof.
  intros k v props Hv H. unfold set_property.
  destruct (has_key k props);
    [apply replace_property_wf | apply insert_property_wf]; assumption.
Qed.

Lemma parse_number_range : forall s z r,
  parse_number s = POk z r -> (- max_safe_integer <= z <= max_safe_integer)%Z.
Proof.
  intros s z r. unfold parse_number.
  destruct (dec_value _) as [n|]; [|discriminate].
  destruct (negb _); [discriminate|].
  destruct (match drop_while re_digit _ with [] => false | _ => _ end); [discriminate|].
  destruct (Z.of_N n <=? max_safe_integer)%Z eqn:E; [|discriminate].
  apply Z.leb_le in E. intros H. injection H as <- _.
  unfold max_safe_integer in *. destruct (match s with [] => false | _ => _ end); lia.
Qed.

Lemma parse_keyword_wf : forall s v r, parse_keyword s = POk v r -> json_wf v.
Proof.
  intros s v r. unfold parse_keyword.
  destruct (strip_prefix (lit "null") s); [intros H; injection H as <- _; exact I|].
  destruct (strip_prefix (lit "true") s); [intros H; injection H as <- _; exact I|].
  destruct (strip_prefix (lit "false") s); [intros H; injection H as <- _; exact I|].
  discriminate.
Qed.

Lemma parse_wf_mutual : forall n,
  (forall s v r, parse_value n s = POk v r -> json_wf v) /\
  (forall s vs r, parse_elements n s = POk vs r -> Forall json_wf vs) /\
  (forall members s v r,
      keys_ok (map fst members) -> Forall (fun p => json_wf (snd p)) members ->
      parse_members n members s = POk v r -> json_wf v).
Proof.
  induction n as [|n [IHv [IHe IHm]]].
  - repeat split; intros; discriminate.
  - split; [|split].
    + intros s v r. simpl.
      destruct (skip_ws s) as [|c t]; [discriminate|].
      destruct (N.eqb c 123).
      { destruct (skip_ws t) as [|d t']; [discriminate|].
        destruct (N.eqb d 125).
        - intros H. injection H as <- _. apply json_wf_object.
          split; [split; constructor | constructor].
        - apply IHm; [split; constructor | constructor]. }
      destruct (N.eqb c 91).
      { destruct (skip_ws t) as [|d t']; [discriminate|].
        destruct (N.eqb d 93).
        - intros H. injection H as <- _. exact I.
        - destruct (parse_elements n t) as [vs r'|e] eqn:E; [|discriminate].
          simpl. intros H. injection H as <- _.
          apply json_wf_array. eapply IHe. exact E. }
      destruct (N.eqb c 34).
      { destruct (parse_chars t); [|discriminate].
        simpl. intros H. injection H as <- _. exact I. }
      destruct (N.eqb c 45 || re_digit c).
      { destruct (parse_number (c :: t)) as [z r'|e] eqn:E; [|discriminate].
        simpl. intros H. injection H as <- _. simpl.
        eapply parse_number_range. exact E. }
      apply parse_keyword_wf.
    + intros s vs r. rewrite parse_elements_step.
      destruct (parse_value n s) as [v r1|e] eqn:Ev; [|discriminate].
      apply IHv in Ev.
      destruct (skip_ws r1) as [|c t]; [discriminate|].
      destruct (N.eqb c 44).
      * destruct (parse_elements n t) as [vs' r'|e] eqn:E; [|discriminate].
        simpl. intros H. injection H as <- _.
        constructor; [exact Ev | eapply IHe; exact E].
      * destruct (N.eqb c 93); [|discriminate].
        intros H. injection H as <- _. constructor; [exact Ev | constructor].
    + intros members s v r Hk Hw. rewrite parse_members_step.
      destruct (skip_ws s) as [|q t]; [discriminate|].
      destruct (N.eqb q 34); [|discriminate].
      destruct (parse_chars t) as [k r1|e]; [|discriminate].
      destruct (skip_ws r1) as [|c r2]; [discriminate|].
      destruct (N.eqb c 58); [|discriminate].
      destruct (parse_value n r2) as [x r3|e] eqn:Ev; [|discriminate].
      apply IHv in Ev.
      destruct (skip_ws r3) as [|c' r4]; [discriminate|].
      destruct (N.eqb c' 44).
      * apply IHm; [apply set_property_keys_ok | apply set_property_wf]; assumption.
      * destruct (N.eqb c' 125); [|discriminate].
        intros H. injection H as <- _. apply json_wf_object.
        split; [apply set_property_keys_ok | apply set_property_wf]; assumption.
Qed.

(** Every value [JSON.parse] returns is well formed. *)
Lemma JSON_parse_wf : forall text v, JSON_parse text = Parsed v -> json_wf v.
Proof.
  intros text v. unfold JSON_parse.
  destruct (parse_value _ text) as [x r|[| |]] eqn:E; try discriminate.
  destruct (skip_ws r); [|discriminate].
  intros H. injection H as <-.
  destruct (parse_wf_mutual (2 * length text + 1)) as [Hv _]. eapply Hv. exact E.
Qed.

Lemma StronglySorted_filter : forall (A : Type) (R : A -> A -> Prop) (f : A -> bool) l,
  StronglySorted R l -> StronglySorted R (filter f l).
Proof.
  intros A R f. induction l as [|a l IH]; intros H; [constructor|].
  apply StronglySorted_inv in H. destruct H as [Hs Hf]. simpl.
  destruct (f a); [|apply IH; exact Hs].
  constructor; [apply IH; exact Hs|].
  rewrite Forall_forall in *. intros x Hx. apply filter_In in Hx. apply Hf. tauto.
Qed.

Lemma filter_keys : forall key (props : list (jstr * json)),
  map fst (filter (fun p => negb (str_eqb (fst p) key)) props)
  = filter (fun k => negb (str_eqb k key)) (map fst props).
Proof.
  intros key. induction props as [|[k v] props IH]; [reflexivity|].
  simpl. destruct (str_eqb k key); simpl; rewrite IH; reflexivity.
Qed.

(** [delete] keeps a value well formed, and the key is gone. *)
Lemma delete_property_wf : forall key v v',
  json_wf v -> delete_property key v = Some v' -> json_wf v'.
Proof.
  intros key [| | | | |props] v' Hwf H; simpl in H; try discriminate;
    injection H as <-; try exact Hwf.
  apply json_wf_object in Hwf. destruct Hwf as [[Hnd Hs] Hw].
  apply json_wf_object. split.
  - rewrite filter_keys. split.
    + apply NoDup_filter. exact Hnd.
    + apply StronglySorted_filter. exact Hs.
  - rewrite Forall_forall in *. intros p Hp. apply filter_In in Hp. apply Hw. tauto.
Qed.

(** ** JSON: the budget of the parser is never the limit *)

Lemma skip_ws_length : forall s, length (skip_ws s) <= length s.
Proof. intros s. apply drop_while_length. Qed.

Lemma cons_char_inv : forall c r k rest,
  cons_char c r = POk k rest -> exists k', r = POk k' rest /\ k = c :: k'.
Proof.
  intros c [k' rest'|e] k rest H; simpl in H; [|discriminate].
  injection H as <- <-. eauto.
Qed.

Lemma parse_chars_length : forall n s k r,
  length s <= n -> parse_chars s = POk k r -> length r < length s.
Proof.
  induction n as [|n IH]; intros s k r Hn H.
  - destruct s; [discriminate H | simpl in Hn; lia].
  - destruct s as [|c s]; [discriminate H|]. simpl in Hn.
    simpl in H. destruct (N.eqb c 34).
    { injection H as _ <-. simpl. lia. }
    destruct (N.eqb c 92).
    { destruct s as [|e s1]; [discriminate|].
      destruct (N.eqb e 117).
      - destruct s1 as [|h1 [|h2 [|h3 [|h4 s2]]]]; try discriminate.
        destruct (unhex4 h1 h2 h3 h4); [|discriminate].
        apply cons_char_inv in H. destruct H as [k' [H _]].
        apply IH in H; simpl in *; lia.
      - destruct (unescape e); [|discriminate].
        apply cons_char_inv in H. destruct H as [k' [H _]].
        apply IH in H; simpl in *; lia. }
    destruct (c <? 32)%N; [discriminate|].
    apply cons_char_inv in H. destruct H as [k' [H _]].
    apply IH in H; simpl in *; lia.
Qed.

Lemma parse_chars_no_fuel : forall n s, length s <= n -> parse_chars s <> PErr PFuel.
Proof.
  induction n as [|n IH]; intros s Hn.
  - destruct s; [discriminate | simpl in Hn; lia].
  - destruct s as [|c s]; [discriminate|]. simpl in Hn.
    simpl. destruct (N.eqb c 34); [discriminate|].
    assert (Hc : forall u t, length t <= n -> cons_char u (parse_chars t) <> PErr PFuel).
    { intros u t Ht. pose proof (IH t Ht) as Hp.
      destruct (parse_chars t) as [k' r'|[| |]]; simpl; try discriminate.
      contradiction. }
    destruct (N.eqb c 92).
    { destruct s as [|e s1]; [discriminate|].
      destruct (N.eqb e 117).
      - destruct s1 as [|h1 [|h2 [|h3 [|h4 s2]]]]; try discriminate.
        destruct (unhex4 h1 h2 h3 h4); [|discriminate].
        apply Hc. simpl in Hn. lia.
      - destruct (unescape e); [|discriminate]. apply Hc. simpl in Hn. lia. }
    destruct (c <? 32)%N; [discriminate|]. apply Hc. lia.
Qed.

Lemma parse_number_length : forall s z r,
  parse_number s = POk z r -> length r < length s.
Proof.
  intros s z r. unfold parse_number.
  set (s1 := if match s with [] => false | c :: _ => N.eqb c 45 end then tl s else s).
  assert (Hs1 : length s1 <= length s).
  { unfold s1. destruct s as [|c s]; simpl; [lia|]. destruct (N.eqb c 45); simpl; lia. }
  destruct (dec_value (take_while re_digit s1)) as [n|]; [|discriminate].
  destruct (str_eqb (dec_print n) (take_while re_digit s1)) eqn:E; [|discriminate].
  apply str_eqb_eq in E. simpl negb. cbv iota.
  destruct (match drop_while re_digit s1 with [] => false | _ => _ end); [discriminate|].
  destruct (Z.of_N n <=? max_safe_integer)%Z; [|discriminate].
  intros H. injection H as _ <-.
  pose proof (take_drop_while re_digit s1) as Hsplit.
  apply (f_equal (@length char)) in Hsplit. rewrite length_app in Hsplit.
  destruct (dec_print_head n) as [c [t [Hc _]]]. rewrite <- E, Hc in Hsplit.
  simpl in Hsplit. lia.
Qed.

Lemma parse_number_no_fuel : forall s, parse_number s <> PErr PFuel.
Proof.
  intros s. unfold parse_number.
  destruct (dec_value _); [|discriminate].
  destruct (negb _); [discriminate|].
  destruct (match drop_while re_digit _ with [] => false | _ => _ end); [discriminate|].
  destruct (Z.of_N n <=? max_safe_integer)%Z; discriminate.
Qed.

Lemma parse_keyword_length : forall s v r,
  parse_keyword s = POk v r -> length r < length s.
Proof.
  intros s v r. unfold parse_keyword.
  destruct (strip_prefix (lit "null") s) eqn:E1.
  { intros H. injection H as _ <-. apply strip_prefix_sound in E1. subst.
    rewrite length_app. simpl. lia. }
  destruct (strip_prefix (lit "true") s) eqn:E2.
  { intros H. injection H as _ <-. apply strip_prefix_sound in E2. subst.
    rewrite length_app. simpl. lia. }
  destruct (strip_prefix (lit "false") s) eqn:E3; [|discriminate].
  intros H. injection H as _ <-. apply strip_prefix_sound in E3. subst.
  rewrite length_app. simpl. lia.
Qed.

Lemma parse_keyword_no_fuel : forall s, parse_keyword s <> PErr PFuel.
Proof.
  intros s. unfold parse_keyword.
  destruct (strip_prefix (lit "null") s); [discriminate|].
  destruct (strip_prefix (lit "true") s); [discriminate|].
  destruct (strip_prefix (lit "false") s); discriminate.
Qed.

Lemma skip_ws_cons_length : forall s c t, skip_ws s = c :: t -> length t < length s.
Proof.
  intros s c t H. pose proof (skip_ws_length s) as Hl. rewrite H in Hl. simpl in Hl. lia.
Qed.

Lemma parsed_map_inv : forall (A B : Type) (f : A -> B) (p : parsed A) b r,
  parsed_map f p = POk b r -> exists a, p = POk a r /\ b = f a.
Proof.
  intros A B f [a r'|e] b r H; simpl in H; [|discriminate].
  injection H as <- <-. eauto.
Qed.

(** A successful parse consumes at least one character. *)
Lemma parse_length_mutual : forall n,
  (forall s v r, parse_value n s = POk v r -> length r < length s) /\
  (forall s vs r, parse_elements n s = POk vs r -> length r < length s) /\
  (forall members s v r, parse_members n members s = POk v r -> length r < length s).
Proof.
  induction n as [|n [IHv [IHe IHm]]].
  - repeat split; intros; discriminate.
  - split; [|split].
    + intros s v r. simpl.
      destruct (skip_ws s) as [|c t] eqn:Es; [discriminate|].
      apply skip_ws_cons_length in Es.
      destruct (N.eqb c 123).
      { destruct (skip_ws t) as [|d t'] eqn:Et; [discriminate|].
        apply skip_ws_cons_length in Et.
        destruct (N.eqb d 125).
        - intros H. injection H as _ <-. lia.
        - intros H. apply IHm in H. lia. }
      destruct (N.eqb c 91).
      { destruct (skip_ws t) as [|d t'] eqn:Et; [discriminate|].
        apply skip_ws_cons_length in Et.
        destruct (N.eqb d 93).
        - intros H. injection H as _ <-. lia.
        - intros H. apply parsed_map_inv in H. destruct H as [vs [H _]].
          apply IHe in H. lia. }
      destruct (N.eqb c 34).
      { intros H. apply parsed_map_inv in H. destruct H as [k [H _]].
        apply (parse_chars_length (length t)) in H; lia. }
      destruct (N.eqb c 45 || re_digit c).
      { intros H. apply parsed_map_inv in H. destruct H as [z [H _]].
        apply parse_number_length in H. simpl in H. lia. }
      intros H. apply parse_keyword_length in H. simpl in H. lia.
    + intros s vs r. rewrite parse_elements_step.
      destruct (parse_value n s) as [v r1|e] eqn:Ev; [|discriminate].
      apply IHv in Ev.
      destruct (skip_ws r1) as [|c t] eqn:Es; [discriminate|].
      apply skip_ws_cons_length in Es.
      destruct (N.eqb c 44).
      * intros H. apply parsed_map_inv in H. destruct H as [vs' [H _]].
        apply IHe in H. lia.
      * destruct (N.eqb c 93); [|discriminate].
        intros H. injection H as _ <-. lia.
    + intros members s v r. rewrite parse_members_step.
      destruct (skip_ws s) as [|q t] eqn:Es; [discriminate|].
      apply skip_ws_cons_length in Es.
      destruct (N.eqb q 34); [|discriminate].
      destruct (parse_chars t) as [k r1|e] eqn:Ek; [|discriminate].
      apply (parse_chars_length (length t)) in Ek; [|lia].
      destruct (skip_ws r1) as [|c r2] eqn:E1; [discriminate|].
      apply skip_ws_cons_length in E1.
      destruct (N.eqb c 58); [|discriminate].
      destruct (parse_value n r2) as [x r3|e] eqn:Ev; [|discriminate].
      apply IHv in Ev.
      destruct (skip_ws r3) as [|c' r4] eqn:E3; [discriminate|].
      apply skip_ws_cons_length in E3.
      destruct (N.eqb c' 44).
      * intros H. apply IHm in H. lia.
      * destruct (N.eqb c' 125); [|discriminate].
        intros H. injection H as _ <-. lia.
Qed.

Lemma parsed_map_no_fuel : forall (A B : Type) (f : A -> B) (p : parsed A),
  p <> PErr PFuel -> parsed_map f p <> PErr PFuel.
Proof. intros A B f [a r|e] H; simpl; [discriminate | congruence]. Qed.

(** With a budget of twice the length of the text (and one), the parser
    never stops for want of budget. *)
Lemma parse_budget_mutual : forall n,
  (forall s, 2 * length s + 1 <= n -> parse_value n s <> PErr PFuel) /\
  (forall s, 2 * length s + 2 <= n -> parse_elements n s <> PErr PFuel) /\
  (forall members s, 2 * length s + 2 <= n -> parse_members n members s <> PErr PFuel).
Proof.
  induction n as [|n [IHv [IHe IHm]]].
  - repeat split; intros; lia.
  - split; [|split].
    + intros s Hn. simpl.
      destruct (skip_ws s) as [|c t] eqn:Es; [discriminate|].
      apply skip_ws_cons_length in Es.
      destruct (N.eqb c 123).
      { destruct (skip_ws t) as [|d t'] eqn:Et; [discriminate|].
        destruct (N.eqb d 125); [discriminate|]. apply IHm. lia. }
      destruct (N.eqb c 91).
      { destruct (skip_ws t) as [|d t'] eqn:Et; [discriminate|].
        destruct (N.eqb d 93); [discriminate|].
        apply parsed_map_no_fuel. apply IHe. lia. }
      destruct (N.eqb c 34).
      { apply parsed_map_no_fuel. apply (parse_chars_no_fuel (length t)). lia. }
      destruct (N.eqb c 45 || re_digit c).
      { apply parsed_map_no_fuel. apply parse_number_no_fuel. }
      apply parse_keyword_no_fuel.
    + intros s Hn. rewrite parse_elements_step.
      pose proof (IHv s ltac:(lia)) as Hv.
      destruct (parse_value n s) as [v r1|e] eqn:Ev; [|congruence].
      apply (proj1 (parse_length_mutual n)) in Ev.
      destruct (skip_ws r1) as [|c t] eqn:Es; [discriminate|].
      apply skip_ws_cons_length in Es.
      destruct (N.eqb c 44).
      * apply parsed_map_no_fuel. apply IHe. lia.
      * destruct (N.eqb c 93); discriminate.
    + intros members s Hn. rewrite parse_members_step.
      destruct (skip_ws s) as [|q t] eqn:Es; [discriminate|].
      apply skip_ws_cons_length in Es.
      destruct (N.eqb q 34); [|discriminate].
      pose proof (parse_chars_no_fuel (length t) t ltac:(lia)) as Hk.
      destruct (parse_chars t) as [k r1|e] eqn:Ek; [|congruence].
      apply (parse_chars_length (length t)) in Ek; [|lia].
      destruct (skip_ws r1) as [|c r2] eqn:E1; [discriminate|].
      apply skip_ws_cons_length in E1.
      destruct (N.eqb c 58); [|discriminate].
      pose proof (IHv r2 ltac:(lia)) as Hv.
      destruct (parse_value n r2) as [x r3|e] eqn:Ev; [|congruence].
      apply (proj1 (parse_length_mutual n)) in Ev.
      destruct (skip_ws r3) as [|c' r4] eqn:E3; [discriminate|].
      apply skip_ws_cons_length in E3.
      destruct (N.eqb c' 44).
      * apply IHm. lia.
      * destruct (N.eqb c' 125); discriminate.
Qed.

(** [JSON.parse] is outside the model only on a text with a number that
    is: the budget does not run out. *)
Lemma JSON_parse_budget : forall text,
  parse_value (2 * length text + 1) text <> PErr PFuel.
Proof.
  intros text. apply (proj1 (parse_budget_mutual (2 * length text + 1))). lia.
Qed.

Lemma JSON_parse_unmodelled : forall text,
  JSON_parse text = ParseUnmodelled ->
  parse_value (2 * length text + 1) text = PErr PUnmodelled.
Proof.
  intros text. unfold JSON_parse. pose proof (JSON_parse_budget text) as Hb.
  destruct (parse_value (2 * length text + 1) text) as [v r|[| |]];
    try discriminate; try reflexivity.
  - destruct (skip_ws r); discriminate.
  - contradiction.
Qed.

(** ** [transpile]: the success path *)







(** The same happens to a parent segment written with backslashes, which
    the pattern does not match and [slash] then turns into [..//]. *)
Lemma transpile_sources_keep_backslash_parent :
  exists (v : json) (source : jstr),
    JSON_parse (parsable sample_file
                  (sample_map (lit "..\\lib\\b.scss"))) = Parsed v /\
    In source (sources_of v) /\ contains (lit "../") source = true.
Proof.
  eexists. exists (lit "..//lib//b.scss").
  split; [vm_compute; reflexivity|].
  split; [left; reflexivity | reflexivity].
Qed.

(** *** The single pass of the deletions *)

Lemma matcher_cwd_pattern_strip :
  forall (R : Type) dir s caps (k : jstr -> captures -> option R),
  matcher (cwd_pattern dir) s caps k =
  match strip_written dir s with
  | Some rest => k rest caps
  | None => None
  end.
Proof.
  intros R. induction dir as [|c dir IH]; intros s caps k.
  - destruct s; reflexivity.
  - change (cwd_pattern (c :: dir))
      with (Seq (Class (if is_slash c then separator_class else N.eqb c)) (cwd_pattern dir)).
    destruct s as [|d s]; [reflexivity|].
    cbn [matcher strip_written].
    replace ((if is_slash c then separator_class else N.eqb c) d)
      with (if is_slash c then separator_class d else N.eqb c d)
      by (destruct (is_slash c); reflexivity).
    destruct (if is_slash c then separator_class d else N.eqb c d); [apply IH | reflexivity].
Qed.

Lemma matcher_literal_strip :
  forall (R : Type) l s caps (k : jstr -> captures -> option R),
  matcher (literal l) s caps k =
  match strip_prefix l s with
  | Some rest => k rest caps
  | None => None
  end.
Proof.
  intros R. induction l as [|c l IH]; intros s caps k.
  - destruct s; reflexivity.
  - change (literal (c :: l)) with (Seq (Class (N.eqb c)) (literal l)).
    destruct s as [|d s]; [reflexivity|].
    cbn [matcher strip_prefix].
    destruct (N.eqb c d); [apply IH | reflexivity].
Qed.

Lemma match_at_sanitize_pattern : forall dir s,
  match_at (sanitize_pattern dir) s =
  match strip_written dir s with
  | Some rest => Some (rest, [])
  | None =>
      match strip_prefix (lit "../") s with
      | Some rest => Some (rest, [])
      | None => None
      end
  end.
Proof.
  intros dir s. unfold match_at, sanitize_pattern. cbn [matcher].
  rewrite matcher_cwd_pattern_strip, matcher_literal_strip.
  destruct (strip_written dir s); reflexivity.
Qed.






Lemma exec_none_head : forall r s,
  exec r s = None -> match_at r s = None.
Proof.
  intros r s H. rewrite exec_unfold in H.
  destruct (match_at r s) as [[? ?]|]; [discriminate | reflexivity].
Qed.

Lemma exec_none_tail : forall r c s,
  exec r (c :: s) = None -> exec r s = None.
Proof.
  intros r c s H. rewrite exec_unfold in H.
  destruct (match_at r (c :: s)) as [[? ?]|]; [discriminate | exact H].
Qed.






Lemma remove_matches_step : forall r skip c s,
  remove_matches r skip (c :: s) =
  match skip with
  | S n => remove_matches r n s
  | O =>
      match match_at r (c :: s) with
      | Some (rest, _) =>
          match length (c :: s) - length rest with
          | O => c :: remove_matches r 0 s
          | S m => remove_matches r m s
          end
      | None => c :: remove_matches r 0 s
      end
  end.
Proof. intros r [|n] c s; reflexivity. Qed.





Lemma remove_matches_In : forall r s skip c,
  In c (remove_matches r skip s) -> In c s.
Proof.
  intros r. induction s as [|d s IH]; intros skip c H; [exact H|].
  rewrite remove_matches_step in H. destruct skip as [|n].
  - destruct (match_at r (d :: s)) as [[rest caps]|].
    + destruct (length (d :: s) - length rest).
      * destruct H as [H|H]; [left; exact H | right; apply (IH _ _ H)].
      * right. apply (IH _ _ H).
    + destruct H as [H|H]; [left; exact H | right; apply (IH _ _ H)].
  - right. apply (IH _ _ H).
Qed.

Lemma replace_all_ascii : forall r s,
  has_non_ascii s = false -> has_non_ascii (replace_all r s) = false.
Proof.
  intros r s H. unfold has_non_ascii in *.
  destruct (existsb (fun c => N.ltb 128 c) (replace_all r s)) eqn:E; [|reflexivity].
  apply existsb_exists in E. destruct E as [c [Hc Hlt]].
  apply remove_matches_In in Hc.
  assert (Hs : existsb (fun c => N.ltb 128 c) s = true).
  { apply existsb_exists. exists c. split; assumption. }
  congruence.
Qed.

(** *** The strings of the parsed map *)

Lemma no_backslash_app : forall a b,
  no_backslash (a ++ b) = no_backslash a && no_backslash b.
Proof. intros a b. apply forallb_app. Qed.

Lemma no_backslash_In : forall s, no_backslash s = true <-> ~ In backslash_char s.
Proof.
  intros s. unfold no_backslash. rewrite forallb_forall. split.
  - intros H Hin. apply H in Hin. rewrite N.eqb_refl in Hin. discriminate.
  - intros H c Hc. apply negb_true_iff, N.eqb_neq. intros ->. contradiction.
Qed.

Lemma parse_chars_no_backslash : forall s k r,
  no_backslash s = true -> parse_chars s = POk k r ->
  no_backslash k = true /\ no_backslash r = true /\ s = k ++ 34%N :: r.
Proof.
  induction s as [|c s IH]; intros k r Hs H; [discriminate H|].
  simpl in Hs. apply andb_true_iff in Hs. destruct Hs as [Hc Hs].
  apply negb_true_iff in Hc. unfold backslash_char in Hc.
  simpl in H. destruct (N.eqb c 34) eqn:E34.
  { injection H as <- <-. apply N.eqb_eq in E34. subst c.
    split; [reflexivity|]. split; [exact Hs | reflexivity]. }
  rewrite Hc in H.
  destruct (c <? 32)%N; [discriminate|].
  apply cons_char_inv in H. destruct H as [k' [H ->]].
  destruct (IH k' r Hs H) as [H1 [H2 H3]]. split; [|split; [exact H2|]].
  - simpl. unfold backslash_char. rewrite Hc, H1. reflexivity.
  - rewrite H3. reflexivity.
Qed.

Lemma strings_all_replace : forall P k v props,
  P k = true -> strings_all P v = true ->
  forallb (fun p => P (fst p) && strings_all P (snd p)) props = true ->
  forallb (fun p => P (fst p) && strings_all P (snd p)) (replace_property k v props) = true.
Proof.
  intros P k v. induction props as [|[k' v'] props IH]; intros Hk Hv H; [reflexivity|].
  simpl in *. apply andb_true_iff in H. destruct H as [H1 H2].
  destruct (str_eqb k' k); simpl.
  - rewrite Hk, Hv, H2. reflexivity.
  - rewrite H1, IH by assumption. reflexivity.
Qed.

Lemma strings_all_insert : forall P k v props,
  P k = true -> strings_all P v = true ->
  forallb (fun p => P (fst p) && strings_all P (snd p)) props = true ->
  forallb (fun p => P (fst p) && strings_all P (snd p)) (insert_property k v props) = true.
Proof.
  intros P k v. induction props as [|[k' v'] props IH]; intros Hk Hv H.
  - simpl. rewrite Hk, Hv. reflexivity.
  - simpl in *. apply andb_true_iff in H. destruct H as [H1 H2].
    destruct (key_before k k'); simpl.
    + rewrite Hk, Hv, H1, H2. reflexivity.
    + rewrite H1, IH by assumption. reflexivity.
Qed.

Lemma strings_all_set : forall P k v props,
  P k = true -> strings_all P v = true ->
  forallb (fun p => P (fst p) && strings_all P (snd p)) props = true ->
  forallb (fun p => P (fst p) && strings_all P (snd p)) (set_property k v props) = true.
Proof.
  intros P k v props Hk Hv H. unfold set_property.
  destruct (has_key k props); [apply strings_all_replace | apply strings_all_insert];
    assumption.
Qed.

(** A property of texts that every remainder of a text inherits, and
    that the characters of a string literal inherit from the text the
    literal stands in, holds of every string of the parsed value. *)
Section ParsedStrings.

Variable clean : jstr -> bool.

Hypothesis clean_tail : forall c t, clean (c :: t) = true -> clean t = true.

Hypothesis clean_chars : forall s k r,
  clean s = true -> parse_chars s = POk k r -> clean k = true /\ clean r = true.

Lemma clean_suffix : forall a s, clean (a ++ s) = true -> clean s = true.
Proof.
  induction a as [|c a IH]; intros s H; [exact H|].
  apply IH. apply (clean_tail c). exact H.
Qed.

Lemma clean_drop_while : forall p s, clean s = true -> clean (drop_while p s) = true.
Proof.
  intros p s H. rewrite <- (take_drop_while p s) in H. apply (clean_suffix _ _ H).
Qed.

Lemma clean_skip_ws : forall s c t,
  clean s = true -> skip_ws s = c :: t -> clean t = true.
Proof.
  intros s c t H E. apply (clean_drop_while is_ws) in H.
  unfold skip_ws in E. rewrite E in H. apply (clean_tail c). exact H.
Qed.

Lemma parse_number_clean : forall s z r,
  clean s = true -> parse_number s = POk z r -> clean r = true.
Proof.
  intros s z r Hs. unfold parse_number.
  set (s1 := if match s with [] => false | c :: _ => N.eqb c 45 end then tl s else s).
  assert (Hs1 : clean s1 = true).
  { unfold s1. destruct s as [|c s]; [destruct (false); exact Hs|].
    destruct (N.eqb c 45); [|exact Hs]. apply (clean_tail c). exact Hs. }
  destruct (dec_value (take_while re_digit s1)) as [n|]; [|discriminate].
  destruct (negb _); [discriminate|].
  destruct (match drop_while re_digit s1 with [] => false | _ => _ end); [discriminate|].
  destruct (Z.of_N n <=? max_safe_integer)%Z; [|discriminate].
  intros H. injection H as _ <-. apply clean_drop_while. exact Hs1.
Qed.

Lemma parse_keyword_clean : forall s v r,
  clean s = true -> parse_keyword s = POk v r ->
  strings_all clean v = true /\ clean r = true.
Proof.
  intros s v r Hs. unfold parse_keyword.
  assert (Hsuf : forall a t, strip_prefix a s = Some t -> clean t = true).
  { intros a t E. apply strip_prefix_sound in E. rewrite E in Hs.
    apply (clean_suffix _ _ Hs). }
  destruct (strip_prefix (lit "null") s) eqn:E1.
  { intros H. injection H as <- <-. split; [reflexivity | eapply Hsuf; exact E1]. }
  destruct (strip_prefix (lit "true") s) eqn:E2.
  { intros H. injection H as <- <-. split; [reflexivity | eapply Hsuf; exact E2]. }
  destruct (strip_prefix (lit "false") s) eqn:E3; [|discriminate].
  intros H. injection H as <- <-. split; [reflexivity | eapply Hsuf; exact E3].
Qed.

Lemma parse_clean_mutual : forall n,
  (forall s v r, clean s = true -> parse_value n s = POk v r ->
                 strings_all clean v = true /\ clean r = true) /\
  (forall s vs r, clean s = true -> parse_elements n s = POk vs r ->
                  forallb (strings_all clean) vs = true /\ clean r = true) /\
  (forall members s v r,
      clean s = true ->
      forallb (fun p => clean (fst p) && strings_all clean (snd p)) members = true ->
      parse_members n members s = POk v r ->
      strings_all clean v = true /\ clean r = true).
Proof.
  induction n as [|n [IHv [IHe IHm]]].
  - repeat split; intros; discriminate.
  - split; [|split].
    + intros s v r Hs. simpl.
      destruct (skip_ws s) as [|c t] eqn:Es; [discriminate|].
      pose proof (clean_skip_ws s c t Hs Es) as Ht.
      destruct (N.eqb c 123).
      { destruct (skip_ws t) as [|d t'] eqn:Et; [discriminate|].
        destruct (N.eqb d 125).
        - intros H. injection H as <- <-.
          split; [reflexivity | eapply clean_skip_ws; eassumption].
        - apply IHm; [exact Ht | reflexivity]. }
      destruct (N.eqb c 91).
      { destruct (skip_ws t) as [|d t'] eqn:Et; [discriminate|].
        destruct (N.eqb d 93).
        - intros H. injection H as <- <-.
          split; [reflexivity | eapply clean_skip_ws; eassumption].
        - intros H. apply parsed_map_inv in H. destruct H as [vs [H ->]].
          apply IHe in H; [|exact Ht]. exact H. }
      destruct (N.eqb c 34).
      { intros H. apply parsed_map_inv in H. destruct H as [k [H ->]].
        apply clean_chars in H; [|exact Ht]. exact H. }
      assert (Hct : clean (c :: t) = true).
      { apply (clean_drop_while is_ws) in Hs. unfold skip_ws in Es.
        rewrite Es in Hs. exact Hs. }
      destruct (N.eqb c 45 || re_digit c).
      { intros H. apply parsed_map_inv in H. destruct H as [z [H ->]].
        apply parse_number_clean in H; [|exact Hct].
        split; [reflexivity | exact H]. }
      apply parse_keyword_clean. exact Hct.
    + intros s vs r Hs. rewrite parse_elements_step.
      destruct (parse_value n s) as [v r1|e] eqn:Ev; [|discriminate].
      apply IHv in Ev; [|exact Hs]. destruct Ev as [Hv Hr1].
      destruct (skip_ws r1) as [|c t] eqn:Es; [discriminate|].
      pose proof (clean_skip_ws r1 c t Hr1 Es) as Ht.
      destruct (N.eqb c 44).
      * intros H. apply parsed_map_inv in H. destruct H as [vs' [H ->]].
        apply IHe in H; [|exact Ht]. destruct H as [H1 H2].
        split; [|exact H2]. simpl. rewrite Hv, H1. reflexivity.
      * destruct (N.eqb c 93); [|discriminate].
        intros H. injection H as <- <-. split; [|exact Ht].
        simpl. rewrite Hv. reflexivity.
    + intros members s v r Hs Hm. rewrite parse_members_step.
      destruct (skip_ws s) as [|q t] eqn:Es; [discriminate|].
      pose proof (clean_skip_ws s q t Hs Es) as Ht.
      destruct (N.eqb q 34); [|discriminate].
      destruct (parse_chars t) as [k r1|e] eqn:Ek; [|discriminate].
      apply clean_chars in Ek; [|exact Ht]. destruct Ek as [Hk Hr1].
      destruct (skip_ws r1) as [|c r2] eqn:E1; [discriminate|].
      pose proof (clean_skip_ws r1 c r2 Hr1 E1) as Hr2.
      destruct (N.eqb c 58); [|discriminate].
      destruct (parse_value n r2) as [x r3|e] eqn:Ev; [|discriminate].
      apply IHv in Ev; [|exact Hr2]. destruct Ev as [Hx Hr3].
      destruct (skip_ws r3) as [|c' r4] eqn:E3; [discriminate|].
      pose proof (clean_skip_ws r3 c' r4 Hr3 E3) as Hr4.
      destruct (N.eqb c' 44).
      * apply IHm; [exact Hr4 | apply strings_all_set; assumption].
      * destruct (N.eqb c' 125); [|discriminate].
        intros H. injection H as <- <-. split; [|exact Hr4].
        apply strings_all_set; assumption.
Qed.

Lemma JSON_parse_clean : forall text v,
  clean text = true -> JSON_parse text = Parsed v -> strings_all clean v = true.
Proof.
  intros text v Ht Hp. unfold JSON_parse in Hp.
  destruct (parse_value _ text) as [x r|[| |]] eqn:E; try discriminate.
  destruct (skip_ws r); [|discriminate]. injection Hp as <-.
  destruct (parse_clean_mutual (2 * length text + 1)) as [Hval _].
  apply (Hval _ _ _ Ht E).
Qed.

End ParsedStrings.

Lemma JSON_parse_no_backslash : forall text v,
  no_backslash text = true -> JSON_parse text = Parsed v ->
  strings_all no_backslash v = true.
Proof.
  apply JSON_parse_clean.
  - intros c t H. simpl in H. apply andb_true_iff in H. tauto.
  - intros s k r Hs H. destruct (parse_chars_no_backslash s k r Hs H) as [H1 [H2 _]].
    split; assumption.
Qed.


Lemma delete_property_strings_all : forall P key v v',
  strings_all P v = true -> delete_property key v = Some v' -> strings_all P v' = true.
Proof.
  intros P key [| | | | |props] v' Hv H; simpl in H; try discriminate;
    injection H as <-; try exact Hv.
  simpl in *. rewrite forallb_forall in *. intros p Hp.
  apply filter_In in Hp. apply Hv. tauto.
Qed.

Lemma sources_of_strings_all : forall P v s,
  strings_all P v = true -> In s (sources_of v) -> P s = true.
Proof.
  intros P v s Hv Hin. destruct v as [| | | | |props]; try contradiction.
  unfold sources_of in Hin. cbn [strings_all] in Hv.
  induction props as [|[k x] props IH]; [contradiction|].
  cbn [forallb fst snd] in Hv. apply andb_true_iff in Hv. destruct Hv as [Hp Hv].
  apply andb_true_iff in Hp. destruct Hp as [_ Hx].
  cbn [get_property] in Hin.
  destruct (str_eqb k (lit "sources")); [|apply IH; assumption].
  destruct x as [| | | |elems|]; try contradiction.
  cbn [strings_all] in Hx. apply in_flat_map in Hin.
  destruct Hin as [e [He Hs]]. rewrite forallb_forall in Hx. apply Hx in He.
  destruct e; try contradiction. destruct Hs as [<-|[]]. exact He.
Qed.

(** [slash] on a text below U+0081 that does not start with the
    extended-length prefix leaves no backslash. *)
Lemma no_backslash_forward_slashes : forall text,
  no_backslash (forward_slashes text) = true.
Proof.
  unfold forward_slashes. induction text as [|c text IH]; [reflexivity|].
  simpl. rewrite IH, andb_true_r.
  destruct (N.eqb c backslash_char) eqn:E; [reflexivity|]. rewrite E. reflexivity.
Qed.

Lemma slash_plain : forall text,
  no_backslash text = true -> slash text = text.
Proof.
  intros text H. unfold slash.
  destruct (extended_length_path text || has_non_ascii text); [reflexivity|].
  unfold forward_slashes. induction text as [|c text IH]; [reflexivity|].
  simpl in H. apply andb_true_iff in H. destruct H as [Hc H].
  simpl. rewrite (IH H). apply negb_true_iff in Hc. rewrite Hc. reflexivity.
Qed.

Lemma slash_non_ascii : forall text,
  has_non_ascii text = true -> slash text = text.
Proof.
  intros text H. unfold slash. rewrite H, orb_true_r. reflexivity.
Qed.

Lemma slash_ascii : forall text,
  extended_length_path text = false -> has_non_ascii text = false ->
  slash text = forward_slashes text.
Proof. intros text H1 H2. unfold slash. rewrite H1, H2. reflexivity. Qed.

(** A text that starts with a backslash is no JSON text. *)
Lemma JSON_parse_backslash_first : forall t,
  JSON_parse (backslash_char :: t) = ParseThrows.
Proof.
  intros t. unfold JSON_parse.
  replace (2 * length (backslash_char :: t) + 1) with (S (2 * length t + 2))
    by (cbn [length]; lia).
  reflexivity.
Qed.

Lemma extended_length_unparsable : forall text,
  extended_length_path text = true -> JSON_parse text = ParseThrows.
Proof.
  intros text H. unfold extended_length_path in H.
  destruct (strip_prefix (lit "\\?\") text) as [r|] eqn:E; [|discriminate H].
  apply strip_prefix_sound in E. rewrite E.
  apply (JSON_parse_backslash_first (lit "\?\" ++ r)).
Qed.

Lemma literal_glob_not_nil : forall dir, literal_glob dir = true -> dir <> [].
Proof. intros [|c dir] H; [discriminate H | discriminate]. Qed.

(** What is handed to [JSON.parse] for a map below U+0081, when it
    parses, holds no backslash. *)
Lemma parsable_no_backslash : forall file map v,
  has_non_ascii map = false ->
  JSON_parse (parsable file map) = Parsed v ->
  no_backslash (parsable file map) = true.
Proof.
  intros file map v Ha Hp. unfold parsable in *.
  pose proof (replace_all_ascii (sanitize_pattern (cwd file)) map Ha) as Hr.
  destruct (extended_length_path (replace_all (sanitize_pattern (cwd file)) map)) eqn:Ee.
  - unfold slash in Hp. rewrite Ee in Hp. cbn [orb] in Hp.
    rewrite (extended_length_unparsable _ Ee) in Hp. discriminate Hp.
  - rewrite (slash_ascii _ Ee Hr). apply no_backslash_forward_slashes.
Qed.






(** What [successHandler] pushes, when it pushes anything: the two
    records, the second holding the text of a well-formed value. *)
Lemma successHandler_pushes : forall file css map rec,
  In rec (pushes (events_of (successHandler file css map))) ->
  rec = css_record file css \/
  exists sourceMap, json_wf sourceMap /\ rec = map_record file (JSON_stringify sourceMap).
Proof.
  intros file css map rec. unfold successHandler.
  destruct (JSON_parse _) as [v| |] eqn:Hp; simpl; try tauto.
  destruct (delete_property (lit "file") v) as [v1|] eqn:H1; simpl; [|tauto].
  destruct (delete_property (lit "sourcesContent") v1) as [v2|] eqn:H2; simpl; [|tauto].
  intros [<-|[<-|[]]]; [left; reflexivity|].
  right. exists v2. split; [|reflexivity].
  apply (delete_property_wf (lit "sourcesContent") v1); [|exact H2].
  apply (delete_property_wf (lit "file") v); [|exact H1].
  apply (JSON_parse_wf _ _ Hp).
Qed.

(** Every record the transform pushes is the error record, the CSS
    record, or a map record holding the text of a well-formed value. *)
Lemma transpile_pushes : forall outputStyle file libList replies rec,
  In rec (st_pushed (transpile_step outputStyle file (libList, replies))) ->
  (exists error, rec = error_record file error) \/
  (exists css, rec = css_record file css) \/
  exists sourceMap, json_wf sourceMap /\ rec = map_record file (JSON_stringify sourceMap).
Proof.
  intros style file libList replies rec. unfold transpile_step.
  pose proof (transpile_trace style file libList replies) as Ht.
  cbn [fst snd] in *.
  destruct (run (transpile_transform style file) libList replies) as [trace final].
  cbn [fst st_pushed] in *. subst trace.
  destruct replies as [|[[css0 map0|e] libs1] rest]; cbn [reply_result reply_libList pushes].
  - intros [].
  - destruct rest as [|[[css map|e] libs2] rest]; cbn [reply_result reply_libList pushes].
    + intros [].
    + intros H. apply successHandler_pushes in H. destruct H as [H|H]; eauto.
    + intros [<-|[]]. eauto.
  - intros [<-|[]]. eauto.
Qed.

(** C8.  Whatever the compiler answers, the content of a record pushed
    under the name of the map ([sourcePath + sourceName + '.css.map'])
    is a text that [JSON.parse] accepts and that [JSON.stringify], with
    the same indentation of two spaces, writes again character for
    character from the parsed value. *)
Theorem transpile_map_reserializes :
  forall (outputStyle : option jstr) (file : File) (libList : list jstr)
         (replies : list reply) (rec : File) (text : jstr),
    In rec (st_pushed (transpile_step outputStyle file (libList, replies))) ->
    path rec = sourcePath file ++ sourceName file ++ lit ".css.map" ->
    contents rec = Some text ->
    exists v, JSON_parse text = Parsed v /\ JSON_stringify v = text.
Proof.
  intros style file libList replies rec text Hin Hpath Hc.
  apply transpile_pushes in Hin.
  destruct Hin as [[e ->]|[[css ->]|[v [Hwf ->]]]].
  - discriminate Hc.
  - exfalso. simpl in Hpath.
    apply app_inv_head in Hpath. apply app_inv_head in Hpath. discriminate Hpath.
  - simpl in Hc. injection Hc as <-. exists v.
    split; [apply JSON_parse_stringify; exact Hwf | reflexivity].
Qed.

(** The map written for the sample file. *)
Lemma transpile_map_reserializes_witness :
  exists v,
    JSON_parse
      (lit "{" ++ newline ++ lit "  " ++ [34%N] ++ lit "version" ++ [34%N] ++ lit ": 3,"
         ++ newline ++ lit "  " ++ [34%N] ++ lit "sources" ++ [34%N] ++ lit ": ["
         ++ newline ++ lit "    " ++ [34%N] ++ lit "/src/lib/b.scss" ++ [34%N]
         ++ newline ++ lit "  ]," ++ newline ++ lit "  " ++ [34%N] ++ lit "mappings"
         ++ [34%N] ++ lit ": " ++ [34%N] ++ lit "AAAA" ++ [34%N] ++ newline ++ lit "}")
      = Parsed v /\
    JSON_stringify v
      = lit "{" ++ newline ++ lit "  " ++ [34%N] ++ lit "version" ++ [34%N] ++ lit ": 3,"
         ++ newline ++ lit "  " ++ [34%N] ++ lit "sources" ++ [34%N] ++ lit ": ["
         ++ newline ++ lit "    " ++ [34%N] ++ lit "/src/lib/b.scss" ++ [34%N]
         ++ newline ++ lit "  ]," ++ newline ++ lit "  " ++ [34%N] ++ lit "mappings"
         ++ [34%N] ++ lit ": " ++ [34%N] ++ lit "AAAA" ++ [34%N] ++ newline ++ lit "}".
Proof.
  apply (transpile_map_reserializes None sample_file [lit "/proj/src"]
           [mkReply (Success (lit "a{b:c}") []) [lit "/proj/src"];
            mkReply (Success (lit "a{b:c}") (sample_map (lit "/proj/src/../lib/b.scss")))
                    [lit "/proj/src"]]
           (mkFile (lit "/proj") (lit "/proj/src") (lit "/proj/src/app.css.map")
              (Some
                 (lit "{" ++ newline ++ lit "  " ++ [34%N] ++ lit "version" ++ [34%N] ++ lit ": 3,"
         ++ newline ++ lit "  " ++ [34%N] ++ lit "sources" ++ [34%N] ++ lit ": ["
         ++ newline ++ lit "    " ++ [34%N] ++ lit "/src/lib/b.scss" ++ [34%N]
         ++ newline ++ lit "  ]," ++ newline ++ lit "  " ++ [34%N] ++ lit "mappings"
         ++ [34%N] ++ lit ": " ++ [34%N] ++ lit "AAAA" ++ [34%N] ++ newline ++ lit "}"))
              None None)).
  - vm_compute. right. left. reflexivity.
  - reflexivity.
  - reflexivity.
Defined.

(** *** When the sanitized text is not a source map

    The amended C1 asks that the text parses to a value other than
    [null]; without that nothing is pushed and [done] is not called. *)

(** A map text [null]: [delete sourceMap.file] throws. *)
Lemma transpile_null_map_throws :
  fst (run (transpile_transform None sample_file) []
         [mkReply (Success (lit "a{b:c}") []) [];
          mkReply (Success (lit "a{b:c}") (lit "null")) []])
  = [ERender (probe_options None sample_file) [];
     ECallback (Success (lit "a{b:c}") []);
     ERender (map_options None sample_file) [];
     ECallback (Success (lit "a{b:c}") (lit "null"));
     EThrow TypeError].
Proof. reflexivity. Qed.

(** An escaped quote in a string of the map: [slash] turns its backslash
    into a slash, the quote then closes the string, and [JSON.parse]
    throws. *)
Lemma transpile_escaped_quote_throws :
  JSON_parse (sample_map (lit "a\" ++ [34%N] ++ lit "b.scss"))
    = Parsed (JObject [(lit "version", JNumber 3); (lit "file", JString (lit "app.css"));
                       (lit "sources", JArray [JString (lit "a" ++ [34%N] ++ lit "b.scss")]);
                       (lit "mappings", JString (lit "AAAA"))]) /\
  JSON_parse (parsable sample_file (sample_map (lit "a\" ++ [34%N] ++ lit "b.scss")))
    = ParseThrows /\
  signal_of (fst (run (transpile_transform None sample_file) []
                    [mkReply (Success (lit "a{b:c}") []) [];
                     mkReply (Success (lit "a{b:c}")
                                (sample_map (lit "a\" ++ [34%N] ++ lit "b.scss"))) []]))
    = Threw SyntaxError.
Proof. repeat split; vm_compute; reflexivity. Qed.

(** *** The names of the outputs *)

(** The usual case: the basename occurs once in the path. *)
Lemma transpile_names_usual :
  sourcePath sample_file = lit "/proj/src/" /\
  sourceName sample_file = lit "app" /\
  path (css_record sample_file []) = lit "/proj/src/app.css" /\
  path (map_record sample_file []) = lit "/proj/src/app.css.map" /\
  ro_sourceMap (map_options None sample_file) = Some (lit "app.css.map").
Proof. repeat split. Qed.

(** [sourcePath] is the path without the first occurrence of the
    basename (line 65), which need not be the last portion of the path. *)
Lemma transpile_names_first_occurrence :
  sourcePath (mkFile (lit "/w") (lit "/w") (lit "/w/a.scss/a.scss") None None None)
    = lit "/w//a.scss" /\
  path (css_record (mkFile (lit "/w") (lit "/w") (lit "/w/a.scss/a.scss") None None None) [])
    = lit "/w//a.scssa.css".
Proof. repeat split. Qed.

(* ================================================================== *)
(** * Part III: further properties of the code                         *)
(* ================================================================== *)

(** ** [addUnique] and [libraries]: adding again, and two stages *)

Lemma first_seen_from_nil_iff : forall l seen,
  first_seen_from seen l = [] <-> (forall s, In s l -> In s seen).
Proof.
  intros l seen. split.
  - intros E s Hs.
    destruct (in_dec (list_eq_dec N.eq_dec) s seen) as [H|H]; [exact H|].
    assert (Hin : In s (first_seen_from seen l)) by (apply first_seen_from_In; tauto).
    rewrite E in Hin. destruct Hin.
  - intros H. destruct (first_seen_from seen l) as [|x r] eqn:E; [reflexivity|].
    assert (Hin : In x (first_seen_from seen l)) by (rewrite E; left; reflexivity).
    apply first_seen_from_In in Hin. destruct Hin as [H1 H2].
    exfalso. apply H2. apply H. exact H1.
Qed.

Lemma addUnique_first_seen : forall value libList,
  addUnique value libList = libList ++ first_seen_from libList (strings_of value).
Proof.
  intros value libList. rewrite addUnique_strings. apply fold_add_string_first_seen.
Qed.

Lemma addUnique_In : forall value libList s,
  In s (addUnique value libList) <-> In s libList \/ In s (strings_of value).
Proof.
  intros value libList s. rewrite addUnique_first_seen, in_app_iff, first_seen_from_In.
  destruct (in_dec (list_eq_dec N.eq_dec) s libList); tauto.
Qed.

(** X1.  [addUnique] leaves [libList] as it is exactly when [libList]
    already holds every string of the value (at any depth of arrays).
    Hence adding the same value a second time changes nothing, and a
    stage built by [libraries] with the same arguments and fed the same
    records a second time leaves [libList] as the first run left it,
    while still pushing every record. *)
Theorem addUnique_absorbs :
  forall (value : jsval) (arguments : list jsval) (files : list File) (libList : list jstr),
    (addUnique value libList = libList <->
       forall s, In s (strings_of value) -> In s libList) /\
    addUnique value (addUnique value libList) = addUnique value libList /\
    libraries_stage arguments files (st_next (libraries_stage arguments files libList))
      = mkStep (st_next (libraries_stage arguments files libList)) files Completed.
Proof.
  intros value arguments files libList. split; [|split].
  - rewrite addUnique_first_seen. rewrite <- first_seen_from_nil_iff. split.
    + intros H. apply (app_inv_head libList). rewrite app_nil_r. exact H.
    + intros ->. apply app_nil_r.
  - rewrite (addUnique_first_seen value (addUnique value libList)).
    replace (first_seen_from (addUnique value libList) (strings_of value)) with (@nil jstr).
    + apply app_nil_r.
    + symmetry. apply first_seen_from_nil_iff. intros s Hs.
      apply addUnique_In. right. exact Hs.
  - rewrite (libraries_stage_first_seen arguments files
               (st_next (libraries_stage arguments files libList))).
    replace (first_seen_from (st_next (libraries_stage arguments files libList))
               (strings_of (VArray arguments) ++ map base files)) with (@nil jstr).
    + rewrite app_nil_r. reflexivity.
    + symmetry. apply first_seen_from_nil_iff. intros s Hs.
      rewrite libraries_stage_first_seen. cbn [st_next].
      destruct (in_dec (list_eq_dec N.eq_dec) s libList) as [H|H].
      * apply in_or_app. left. exact H.
      * apply in_or_app. right. apply first_seen_from_In. tauto.
Qed.

(** X2.  Two stages of one instance, the second built and run once the
    first has run: [libList] ends up as if one stage had seen the
    explicit paths and the bases of the first, then those of the second.
    Which of the two stages runs first changes the order of the paths,
    not which paths [libList] holds. *)
Theorem libraries_stages_compose :
  forall (arguments1 arguments2 : list jsval) (files1 files2 : list File)
         (libList : list jstr),
    st_next (libraries_stage arguments2 files2
               (st_next (libraries_stage arguments1 files1 libList)))
      = libList ++ first_seen_from libList
                     ((strings_of (VArray arguments1) ++ map base files1)
                        ++ strings_of (VArray arguments2) ++ map base files2) /\
    (forall p,
        In p (st_next (libraries_stage arguments2 files2
                         (st_next (libraries_stage arguments1 files1 libList)))) <->
        In p (st_next (libraries_stage arguments1 files1
                         (st_next (libraries_stage arguments2 files2 libList))))).
Proof.
  intros a1 a2 f1 f2 l.
  assert (E : forall x1 x2 g1 g2,
             st_next (libraries_stage x2 g2 (st_next (libraries_stage x1 g1 l)))
             = l ++ first_seen_from l
                      ((strings_of (VArray x1) ++ map base g1)
                         ++ strings_of (VArray x2) ++ map base g2)).
  { intros x1 x2 g1 g2. rewrite !libraries_stage_first_seen. cbn [st_next].
    rewrite (first_seen_from_app (strings_of (VArray x1) ++ map base g1) _ l).
    rewrite <- app_assoc. reflexivity. }
  split; [apply E|].
  intros p. rewrite !E, !in_app_iff, !first_seen_from_In, !in_app_iff. tauto.
Qed.

(** X3.  A transform of [transpile] that starts once a [libraries] stage
    has run hands the compiler, as the include paths of its first call,
    what that stage left in [libList]: what [libList] held, then the new
    explicit paths and bases in the order they were first seen.  Every
    explicit path and the base of every record that went through the
    stage is among them. *)
Theorem transpile_receives_collected_paths :
  forall (arguments : list jsval) (files : list File) (libList : list jstr)
         (outputStyle : option jstr) (file : File) (replies : list reply),
    exists (includePaths : list jstr) (t : list event),
      fst (run (transpile_transform outputStyle file)
             (st_next (libraries_stage arguments files libList)) replies)
        = ERender (probe_options outputStyle file) includePaths :: t /\
      includePaths = libList ++ first_seen_from libList
                                  (strings_of (VArray arguments) ++ List.map base files) /\
      (forall s, In s (strings_of (VArray arguments)) -> In s includePaths) /\
      (forall f, In f files -> In (base f) includePaths).
Proof.
  intros arguments files libList style file replies.
  rewrite transpile_trace, libraries_stage_first_seen. cbn [st_next].
  eexists. eexists. split; [reflexivity|]. split; [reflexivity|].
  assert (Hin : forall p, In p (strings_of (VArray arguments) ++ List.map base files) ->
                          In p (libList ++ first_seen_from libList
                                  (strings_of (VArray arguments) ++ List.map base files))).
  { intros p Hp. destruct (in_dec (list_eq_dec N.eq_dec) p libList) as [H|H];
      apply in_or_app; [left; exact H|].
    right. apply first_seen_from_In. split; assumption. }
  split.
  - intros s Hs. apply Hin. apply in_or_app. left. exact Hs.
  - intros f Hf. apply Hin. apply in_or_app. right. apply in_map. exact Hf.
Qed.

(** ** [transpile]: what one transform emits *)

Lemma transpile_step_run : forall outputStyle file libList replies,
  transpile_step outputStyle file (libList, replies) =
  mkStep (snd (run (transpile_transform outputStyle file) libList replies))
         (pushes (fst (run (transpile_transform outputStyle file) libList replies)))
         (signal_of (fst (run (transpile_transform outputStyle file) libList replies))).
Proof.
  intros style file libList replies. unfold transpile_step. cbn [fst snd].
  destruct (run (transpile_transform style file) libList replies). reflexivity.
Qed.

Lemma transpile_run_success : forall outputStyle file libList libs1 libs2 css0 map0 css map rest,
  run (transpile_transform outputStyle file) libList
      (mkReply (Success css0 map0) libs1 :: mkReply (Success css map) libs2 :: rest)
  = (ERender (probe_options outputStyle file) libList
       :: ECallback (Success css0 map0)
       :: ERender (map_options outputStyle file) libs1
       :: ECallback (Success css map)
       :: events_of (successHandler file css map),
     (libs2, rest)).
Proof.
  intros style file libList libs1 libs2 css0 map0 css map rest.
  unfold transpile_transform, render. cbn [run reply_result reply_libList].
  rewrite successHandler_run. reflexivity.
Qed.

Lemma successHandler_events : forall file css map,
  events_of (successHandler file css map) =
  match JSON_parse (parsable file map) with
  | ParseThrows => [EThrow SyntaxError]
  | ParseUnmodelled => [EOutsideModel]
  | Parsed v =>
      match delete_property (lit "file") v with
      | None => [EThrow TypeError]
      | Some v1 =>
          match delete_property (lit "sourcesContent") v1 with
          | None => [EThrow TypeError]
          | Some sourceMap =>
              [EPush (css_record file css);
               EPush (map_record file (JSON_stringify sourceMap)); EDone]
          end
      end
  end.
Proof.
  intros file css map. unfold successHandler, parsable.
  destruct (JSON_parse _) as [v| |]; try reflexivity.
  destruct (delete_property (lit "file") v) as [v1|]; [|reflexivity].
  destruct (delete_property (lit "sourcesContent") v1) as [v2|]; reflexivity.
Qed.

(** X4.  Whatever the compiler answers, one transform of [transpile]
    pushes nothing, or one error record, or the CSS record followed by
    the map record, and nothing else: the compiled CSS is never pushed
    without its map.  [done] is called exactly when something has been
    pushed; when nothing is pushed the transform has stalled on a call
    that was not answered, or it has thrown. *)
Theorem transpile_all_or_nothing :
  forall (outputStyle : option jstr) (file : File) (libList : list jstr)
         (replies : list reply),
    (st_pushed (transpile_step outputStyle file (libList, replies)) = [] /\
     st_signal (transpile_step outputStyle file (libList, replies)) <> Completed) \/
    (exists error,
        st_pushed (transpile_step outputStyle file (libList, replies))
          = [error_record file error] /\
        st_signal (transpile_step outputStyle file (libList, replies)) = Completed) \/
    (exists css text,
        st_pushed (transpile_step outputStyle file (libList, replies))
          = [css_record file css; map_record file text] /\
        st_signal (transpile_step outputStyle file (libList, replies)) = Completed).
Proof.
  intros style file libList replies. rewrite transpile_step_run.
  cbn [st_pushed st_signal]. rewrite transpile_trace.
  destruct replies as [|[[css0 map0|e] libs1] rest]; cbn [reply_result reply_libList].
  - left. split; [reflexivity | discriminate].
  - destruct rest as [|[[css map|e] libs2] rest]; cbn [reply_result reply_libList].
    + left. split; [reflexivity | discriminate].
    + rewrite successHandler_events.
      destruct (JSON_parse (parsable file map)) as [v| |].
      * destruct (delete_property (lit "file") v) as [v1|].
        -- destruct (delete_property (lit "sourcesContent") v1) as [v2|].
           ++ right. right. exists css, (JSON_stringify v2). split; reflexivity.
           ++ left. split; [reflexivity | discriminate].
        -- left. split; [reflexivity | discriminate].
      * left. split; [reflexivity | discriminate].
      * left. split; [reflexivity | discriminate].
    + right. left. exists e. split; reflexivity.
  - right. left. exists e. split; reflexivity.
Qed.

(** X5.  For a working directory that [minimatch] reads as a literal
    path: when both calls succeed but the sanitized text of the map is
    not JSON, [JSON.parse] throws inside the success handler: after the
    two calls and their callbacks the transform throws a [SyntaxError],
    pushes nothing (the compiled CSS is lost too) and never calls
    [done]; the records that follow in the stream are not compiled. *)
Theorem transpile_unparsable_map_throws :
  forall (outputStyle : option jstr) (file : File) (files : list File)
         (libList libs1 libs2 : list jstr) (css0 map0 css map : jstr) (rest : list reply),
    literal_glob (cwd file) = true ->
    JSON_parse (parsable file map) = ParseThrows ->
    fst (run (transpile_transform outputStyle file) libList
           (mkReply (Success css0 map0) libs1 :: mkReply (Success css map) libs2 :: rest))
      = [ERender (probe_options outputStyle file) libList;
         ECallback (Success css0 map0);
         ERender (map_options outputStyle file) libs1;
         ECallback (Success css map);
         EThrow SyntaxError] /\
    transpile outputStyle (file :: files) libList
        (mkReply (Success css0 map0) libs1 :: mkReply (Success css map) libs2 :: rest)
      = mkStep (libs2, rest) [] (Threw SyntaxError).
Proof.
  intros style file files libList libs1 libs2 css0 map0 css map rest _ Hp.
  assert (E : events_of (successHandler file css map) = [EThrow SyntaxError]).
  { rewrite successHandler_events, Hp. reflexivity. }
  split.
  - rewrite transpile_run_success, E. reflexivity.
  - unfold transpile. cbn [through_obj]. rewrite transpile_step_run.
    rewrite transpile_run_success, E. reflexivity.
Qed.

(** A map that is JSON as the compiler wrote it, with an escaped quote
    in a source and no code unit above U+0080: [slash] turns the
    backslash into a slash. *)
Lemma transpile_unparsable_map_throws_witness :
  JSON_parse (sample_map (lit "a\" ++ [34%N] ++ lit "b.scss")) <> ParseThrows /\
  transpile None [sample_file; sample_file] []
    [mkReply (Success (lit "a{b:c}") []) [];
     mkReply (Success (lit "a{b:c}") (sample_map (lit "a\" ++ [34%N] ++ lit "b.scss"))) []]
  = mkStep ([], []) [] (Threw SyntaxError).
Proof.
  split; [vm_compute; discriminate|].
  apply (transpile_unparsable_map_throws None sample_file [sample_file] [] [] []
           (lit "a{b:c}") [] (lit "a{b:c}")
           (sample_map (lit "a\" ++ [34%N] ++ lit "b.scss")) []).
  - reflexivity.
  - vm_compute. reflexivity.
Defined.



(** ** [transpile]: the content of the input is not used *)

Lemma successHandler_with_contents : forall c file css map,
  successHandler (with_contents c file) css map = successHandler file css map.
Proof. intros c [w b p c0 s e] css map. reflexivity. Qed.

Lemma resourced_successHandler : forall source file css map,
  List.map (resourced source) (events_of (successHandler file css map))
  = events_of (successHandler file css map).
Proof.
  intros source file css map. rewrite successHandler_events.
  destruct (JSON_parse (parsable file map)) as [v| |]; try reflexivity.
  destruct (delete_property (lit "file") v) as [v1|]; [|reflexivity].
  destruct (delete_property (lit "sourcesContent") v1) as [v2|]; reflexivity.
Qed.

(** X7.  The transform never reads the content of the input record: with
    any other content the calls to the compiler and their options are
    the same, and so is everything that is pushed, but for the
    [sassSource] of an error record, which is the input record itself.
    When the compiler reports no error the whole step is the same. *)
Theorem transpile_ignores_contents :
  forall (outputStyle : option jstr) (file : File) (c : option jstr)
         (libList : list jstr) (replies : list reply),
    fst (run (transpile_transform outputStyle (with_contents c file)) libList replies)
      = List.map (resourced (with_contents c file))
            (fst (run (transpile_transform outputStyle file) libList replies)) /\
    snd (run (transpile_transform outputStyle (with_contents c file)) libList replies)
      = snd (run (transpile_transform outputStyle file) libList replies) /\
    ((forall r e, In r replies -> reply_result r <> Failure e) ->
     transpile_step outputStyle (with_contents c file) (libList, replies)
       = transpile_step outputStyle file (libList, replies)).
Proof.
  intros style file c libList replies.
  assert (Hfst : fst (run (transpile_transform style (with_contents c file)) libList replies)
      = List.map (resourced (with_contents c file))
            (fst (run (transpile_transform style file) libList replies))).
  { rewrite !transpile_trace.
    destruct replies as [|[[css0 map0|e] libs1] rest];
      cbn [reply_result reply_libList List.map].
    - destruct file; reflexivity.
    - destruct rest as [|[[css map|e] libs2] rest];
        cbn [reply_result reply_libList List.map].
      + destruct file; reflexivity.
      + rewrite successHandler_with_contents, resourced_successHandler.
        destruct file; reflexivity.
      + destruct file; reflexivity.
    - destruct file; reflexivity. }
  assert (Hsnd : snd (run (transpile_transform style (with_contents c file)) libList replies)
      = snd (run (transpile_transform style file) libList replies)).
  { unfold transpile_transform, render.
    destruct replies as [|[[css0 map0|e] libs1] rest]; cbn [run reply_result reply_libList snd].
    - reflexivity.
    - destruct rest as [|[[css map|e] libs2] rest]; cbn [run reply_result reply_libList snd].
      + reflexivity.
      + rewrite !successHandler_run. reflexivity.
      + reflexivity.
    - reflexivity. }
  split; [exact Hfst|]. split; [exact Hsnd|].
  intros Hok.
  assert (Hid : List.map (resourced (with_contents c file))
                  (fst (run (transpile_transform style file) libList replies))
                = fst (run (transpile_transform style file) libList replies)).
  { rewrite transpile_trace.
    destruct replies as [|[[css0 map0|e] libs1] rest];
      cbn [reply_result reply_libList List.map].
    - reflexivity.
    - destruct rest as [|[[css map|e] libs2] rest];
        cbn [reply_result reply_libList List.map].
      + reflexivity.
      + rewrite resourced_successHandler. reflexivity.
      + exfalso. apply (Hok (mkReply (Failure e) libs2) e); [right; left|]; reflexivity.
    - exfalso. apply (Hok (mkReply (Failure e) libs1) e); [left|]; reflexivity. }
  rewrite !transpile_step_run, Hsnd, Hfst, Hid. reflexivity.
Qed.

(** The sample file as a null file. *)
Lemma transpile_ignores_contents_witness :
  transpile_step None (with_contents None sample_file)
    ([], [mkReply (Success (lit "a{b:c}") []) [];
          mkReply (Success (lit "a{b:c}") (sample_map (lit "/proj/src/app.scss"))) []])
  = transpile_step None sample_file
    ([], [mkReply (Success (lit "a{b:c}") []) [];
          mkReply (Success (lit "a{b:c}") (sample_map (lit "/proj/src/app.scss"))) []]).
Proof.
  apply (transpile_ignores_contents None sample_file None []).
  intros r e [<-|[<-|[]]]; discriminate.
Defined.

(** ** [transpile]: where the outputs go *)

Lemma replace_first_leftmost : forall pattern pre post,
  (forall n, n < length pre ->
             strip_prefix pattern (skipn n (pre ++ pattern ++ post)) = None) ->
  replace_first pattern (pre ++ pattern ++ post) = pre ++ post.
Proof.
  intros pattern. induction pre as [|c pre IH]; intros post H.
  - simpl. rewrite replace_first_unfold, strip_prefix_app. reflexivity.
  - rewrite replace_first_unfold.
    pose proof (H 0 (Nat.lt_0_succ _)) as H0. simpl in H0. simpl. rewrite H0.
    f_equal. apply IH. intros n Hn. apply (H (S n)). simpl. lia.
Qed.

(** X8.  [sourcePath] is the path of the input without the first
    occurrence of its basename (line 65): when the path is [pre], the
    basename and [post], and the basename occurs nowhere earlier, the
    three outputs are named [pre + post + sourceName + '.css'] (or
    ['.css.map']).  When a directory of the path holds the basename,
    [post] is not empty and the outputs do not land beside the input. *)
Theorem sourcePath_removes_first_occurrence :
  forall (file : File) (pre post css text error : jstr),
    path file = pre ++ basename (path file) ++ post ->
    (forall n, n < length pre ->
               strip_prefix (basename (path file)) (skipn n (path file)) = None) ->
    sourcePath file = pre ++ post /\
    path (css_record file css) = pre ++ post ++ sourceName file ++ lit ".css" /\
    path (map_record file text) = pre ++ post ++ sourceName file ++ lit ".css.map" /\
    path (error_record file error) = pre ++ post ++ sourceName file ++ lit ".css".
Proof.
  intros file pre post css text error Hp Hfirst.
  assert (E : sourcePath file = pre ++ post).
  { unfold sourcePath. rewrite Hp at 2. apply replace_first_leftmost.
    rewrite <- Hp. exact Hfirst. }
  cbn [path css_record map_record error_record]. rewrite E, <- !app_assoc.
  repeat split.
Qed.

(** A directory named as the file it holds. *)
Lemma sourcePath_removes_first_occurrence_witness :
  path (css_record (mkFile (lit "/w") (lit "/w") (lit "/w/a.scss/a.scss") None None None)
          (lit "a{}"))
  = lit "/w/" ++ lit "/a.scss" ++ lit "a" ++ lit ".css".
Proof.
  refine (proj1 (proj2 (sourcePath_removes_first_occurrence
           (mkFile (lit "/w") (lit "/w") (lit "/w/a.scss/a.scss") None None None)
           (lit "/w/") (lit "/a.scss") (lit "a{}") [] [] eq_refl _))).
  intros n Hn. destruct n as [|[|[|n]]]; try reflexivity.
  simpl in Hn. lia.
Defined.

(** ** [transpile]: the text handed to [JSON.parse] *)

Lemma remove_matches_none : forall r s,
  exec r s = None -> replace_all r s = s.
Proof.
  intros r. unfold replace_all. induction s as [|c s IH]; intros H; [reflexivity|].
  rewrite remove_matches_step.
  rewrite (exec_none_head _ _ H). f_equal. apply IH. apply (exec_none_tail _ c). exact H.
Qed.

(** X9.  For a working directory that [minimatch] reads as a literal
    path: a map in which the pattern of lines 98-101 matches nowhere (it
    mentions neither the working directory, with either separator, nor
    [../]) is handed to [JSON.parse] as [slash] alone leaves it.  That
    is the map itself when it has no backslash, and also when it holds
    a code unit above U+0080, backslashes or not; it is the map with its
    backslashes turned into slashes when it holds no such unit and does
    not start with the extended-length prefix. *)
Theorem parsable_nothing_to_remove :
  forall (file : File) (map : jstr),
    literal_glob (cwd file) = true ->
    exec (sanitize_pattern (cwd file)) map = None ->
    parsable file map = slash map /\
    (~ In backslash_char map -> parsable file map = map) /\
    (has_non_ascii map = true -> parsable file map = map) /\
    (has_non_ascii map = false -> extended_length_path map = false ->
     parsable file map = forward_slashes map).
Proof.
  intros file map _ H. unfold parsable. rewrite (remove_matches_none _ _ H).
  split; [reflexivity|]. split; [|split].
  - intros Hb. apply slash_plain. apply no_backslash_In. exact Hb.
  - apply slash_non_ascii.
  - intros Ha He. apply slash_ascii; assumption.
Qed.

(** A map whose only source is a relative path. *)
Lemma parsable_nothing_to_remove_witness :
  parsable sample_file (sample_map (lit "lib/b.scss")) = sample_map (lit "lib/b.scss").
Proof.
  refine (proj1 (proj2 (parsable_nothing_to_remove sample_file
                          (sample_map (lit "lib/b.scss")) _ _)) _).
  - reflexivity.
  - vm_compute. reflexivity.
  - vm_compute. intuition discriminate.
Defined.

(** A code unit above U+0080 anywhere in the map keeps [slash] from
    changing it: the escaped quote of a source stays escaped, the text
    parses, and both records are pushed. *)
Lemma transpile_non_ascii_map_keeps_backslash :
  parsable sample_file
    (sample_map ([233%N] ++ lit "\" ++ [34%N] ++ lit "b.scss"))
    = sample_map ([233%N] ++ lit "\" ++ [34%N] ++ lit "b.scss") /\
  signal_of (fst (run (transpile_transform None sample_file) []
                    [mkReply (Success (lit "a{b:c}") []) [];
                     mkReply (Success (lit "a{b:c}")
                                (sample_map ([233%N] ++ lit "\" ++ [34%N] ++ lit "b.scss")))
                             []]))
    = Completed /\
  length (pushes (fst (run (transpile_transform None sample_file) []
                    [mkReply (Success (lit "a{b:c}") []) [];
                     mkReply (Success (lit "a{b:c}")
                                (sample_map ([233%N] ++ lit "\" ++ [34%N] ++ lit "b.scss")))
                             []]))) = 2.
Proof. repeat split; vm_compute; reflexivity. Qed.

Lemma written_as_strip : forall dir w t,
  written_as dir w = true -> strip_written dir (w ++ t) = Some t.
Proof.
  induction dir as [|c dir IH]; intros w t H.
  - destruct w; [destruct t; reflexivity | discriminate].
  - destruct w as [|d w]; [discriminate|].
    simpl in H. apply andb_true_iff in H. destruct H as [Hd Hw].
    cbn [app strip_written]. rewrite Hd. apply IH. exact Hw.
Qed.

Lemma remove_matches_skip : forall r a t,
  remove_matches r (length a) (a ++ t) = remove_matches r 0 t.
Proof.
  intros r. induction a as [|c a IH]; intros t; [reflexivity|].
  simpl. apply IH.
Qed.

Lemma remove_matches_keep : forall r pre s,
  (forall n, n < length pre -> match_at r (skipn n (pre ++ s)) = None) ->
  remove_matches r 0 (pre ++ s) = pre ++ remove_matches r 0 s.
Proof.
  intros r. induction pre as [|c pre IH]; intros s H; [reflexivity|].
  pose proof (H 0 (Nat.lt_0_succ _)) as H0. cbn [skipn] in H0.
  change ((c :: pre) ++ s) with (c :: pre ++ s) in *.
  rewrite remove_matches_step, H0. cbn [app]. f_equal.
  apply IH. intros n Hn. apply (H (S n)). simpl. lia.
Qed.

(** The working directory, however its separators are written, is
    deleted where the pass meets it. *)
Lemma replace_all_written : forall dir w post,
  dir <> [] -> written_as dir w = true ->
  replace_all (sanitize_pattern dir) (w ++ post) = replace_all (sanitize_pattern dir) post.
Proof.
  intros dir w post Hne Hw. unfold replace_all.
  destruct w as [|d w].
  { destruct dir; [contradiction | discriminate]. }
  change ((d :: w) ++ post) with (d :: w ++ post).
  rewrite remove_matches_step.
  assert (E : match_at (sanitize_pattern dir) (d :: w ++ post) = Some (post, [])).
  { rewrite match_at_sanitize_pattern.
    change (d :: w ++ post) with ((d :: w) ++ post).
    rewrite (written_as_strip dir (d :: w) post Hw). reflexivity. }
  rewrite E.
  replace (length (d :: w ++ post) - length post) with (S (length w))
    by (cbn [length]; rewrite length_app; lia).
  apply remove_matches_skip.
Qed.

Lemma forward_slashes_app : forall a b,
  forward_slashes (a ++ b) = forward_slashes a ++ forward_slashes b.
Proof. intros a b. apply map_app. Qed.

(** X10.  For a working directory that [minimatch] reads as a literal
    path, the directory is removed from the map whichever separator it
    is written with: when the text is [pre], the working directory (each
    slash as a slash or a backslash) and [post], and the pattern matches
    nowhere from a position in [pre], the deletions leave [pre] followed
    by what they leave of [post] alone, and [slash] is applied to that.
    When that text holds no code unit above U+0080 and does not start
    with the extended-length prefix, what is handed to [JSON.parse] is
    [pre] and what is left of [post], backslashes turned into slashes in
    both. *)
Theorem parsable_removes_cwd :
  forall (file : File) (written pre post : jstr),
    literal_glob (cwd file) = true ->
    written_as (cwd file) written = true ->
    (forall n, n < length pre ->
               match_at (sanitize_pattern (cwd file)) (skipn n (pre ++ written ++ post))
               = None) ->
    replace_all (sanitize_pattern (cwd file)) (pre ++ written ++ post)
      = pre ++ replace_all (sanitize_pattern (cwd file)) post /\
    parsable file (pre ++ written ++ post)
      = slash (pre ++ replace_all (sanitize_pattern (cwd file)) post) /\
    (has_non_ascii (pre ++ replace_all (sanitize_pattern (cwd file)) post) = false ->
     extended_length_path (pre ++ replace_all (sanitize_pattern (cwd file)) post) = false ->
     parsable file (pre ++ written ++ post)
       = forward_slashes pre
           ++ forward_slashes (replace_all (sanitize_pattern (cwd file)) post)).
Proof.
  intros file w pre post Hg Hw Hpre.
  assert (E : replace_all (sanitize_pattern (cwd file)) (pre ++ w ++ post)
              = pre ++ replace_all (sanitize_pattern (cwd file)) post).
  { unfold replace_all. rewrite (remove_matches_keep _ pre (w ++ post) Hpre). f_equal.
    apply (replace_all_written (cwd file) w post (literal_glob_not_nil _ Hg) Hw). }
  split; [exact E|]. unfold parsable. rewrite E. split; [reflexivity|].
  intros Ha He. rewrite (slash_ascii _ He Ha). apply forward_slashes_app.
Qed.

(** A source under the working directory [/proj], written with
    backslashes. *)
Lemma parsable_removes_cwd_witness :
  parsable sample_file
    (lit "{" ++ [34%N] ++ lit "sources" ++ [34%N] ++ lit ":[" ++ [34%N]
       ++ lit "\proj\src\app.scss" ++ [34%N] ++ lit "]}")
  = lit "{" ++ [34%N] ++ lit "sources" ++ [34%N] ++ lit ":[" ++ [34%N]
       ++ lit "/src/app.scss" ++ [34%N] ++ lit "]}".
Proof.
  refine (proj2 (proj2 (parsable_removes_cwd sample_file (lit "\proj")
           (lit "{" ++ [34%N] ++ lit "sources" ++ [34%N] ++ lit ":[" ++ [34%N])
           (lit "\src\app.scss" ++ [34%N] ++ lit "]}") _ _ _)) _ _).
  - reflexivity.
  - reflexivity.
  - intros n Hn.
    do 13 (destruct n as [|n]; [reflexivity|]).
    simpl in Hn. lia.
  - reflexivity.
  - reflexivity.
Defined.

(** X11.  For a working directory that [minimatch] reads as a literal
    path and a map without a code unit above U+0080: when the sanitized
    text parses, it holds no backslash ([slash] has turned each into a
    slash; a text it would leave alone for its extended-length prefix
    does not parse).  Hence no string of the parsed map (keys included,
    at any depth), and none of the map that is written once [file] and
    [sourcesContent] are deleted, holds a backslash; in particular every
    entry of [sources] is written with forward slashes only. *)
Theorem transpile_map_has_no_backslash :
  forall (file : File) (map : jstr) (v v1 sourceMap : json),
    literal_glob (cwd file) = true ->
    has_non_ascii map = false ->
    JSON_parse (parsable file map) = Parsed v ->
    delete_property (lit "file") v = Some v1 ->
    delete_property (lit "sourcesContent") v1 = Some sourceMap ->
    ~ In backslash_char (parsable file map) /\
    strings_all no_backslash v = true /\
    strings_all no_backslash sourceMap = true /\
    (forall source, In source (sources_of sourceMap) -> ~ In backslash_char source).
Proof.
  intros file map v v1 v2 _ Ha Hp H1 H2.
  pose proof (parsable_no_backslash file map v Ha Hp) as Ht.
  split; [apply no_backslash_In; exact Ht|].
  pose proof (JSON_parse_no_backslash _ _ Ht Hp) as Hv.
  assert (Hv2 : strings_all no_backslash v2 = true).
  { eapply delete_property_strings_all; [|exact H2].
    eapply delete_property_strings_all; [|exact H1]. exact Hv. }
  split; [exact Hv|]. split; [exact Hv2|].
  intros source Hs. apply no_backslash_In.
  apply (sources_of_strings_all no_backslash v2 source Hv2 Hs).
Qed.

(** A source written with backslashes under the working directory. *)
Lemma transpile_map_has_no_backslash_witness :
  strings_all no_backslash
    (JObject [(lit "version", JNumber 3);
              (lit "sources", JArray [JString (lit "C:/lib/b.scss")]);
              (lit "mappings", JString (lit "AAAA"))]) = true.
Proof.
  refine (proj1 (proj2 (proj2 (transpile_map_has_no_backslash sample_file
            (sample_map (lit "C:\proj\lib\b.scss"))
            (JObject [(lit "version", JNumber 3); (lit "file", JString (lit "app.css"));
                      (lit "sources", JArray [JString (lit "C:/lib/b.scss")]);
                      (lit "mappings", JString (lit "AAAA"))])
            (JObject [(lit "version", JNumber 3);
                      (lit "sources", JArray [JString (lit "C:/lib/b.scss")]);
                      (lit "mappings", JString (lit "AAAA"))])
            _ _ _ _ _ _)))).
  - reflexivity.
  - reflexivity.
  - vm_compute. reflexivity.
  - reflexivity.
  - reflexivity.
Defined.


(** ** [sassReporter]: error texts of several lines *)

Lemma stops_dot_not_digit : forall tl, stops re_dot tl = true -> stops re_digit tl = true.
Proof.
  intros [|c tl] H; [reflexivity|]. simpl in *.
  apply negb_true_iff in H. apply negb_false_iff in H.
  apply negb_true_iff. unfold re_digit.
  repeat (apply orb_true_iff in H; destruct H as [H|H]);
    apply N.eqb_eq in H; subst c; reflexivity.
Qed.

Lemma stops_dot_not_colon : forall tl, stops re_dot tl = true -> colon_digit_head tl = false.
Proof.
  intros [|c [|d tl]] H; try reflexivity. simpl in H.
  apply negb_true_iff in H. apply negb_false_iff in H.
  unfold colon_digit_head.
  repeat (apply orb_true_iff in H; destruct H as [H|H]);
    apply N.eqb_eq in H; subst c; reflexivity.
Qed.

Lemma colon_digit_head_last : forall c tl,
  stops re_dot tl = true -> colon_digit_head (c :: tl) = false.
Proof.
  intros c [|d tl] H; [reflexivity|].
  apply stops_dot_not_digit in H. simpl in H. apply negb_true_iff in H.
  unfold colon_digit_head. rewrite H. apply andb_false_r.
Qed.

Lemma star_class_none_line : forall (R : Type) t tl (K : jstr -> option R),
  (forall t', colon_digit_head t' = false -> K t' = None) ->
  no_colon_digit t = true -> stops re_dot tl = true ->
  star_class re_dot (t ++ tl) K = None.
Proof.
  intros R t tl K HK. induction t as [|c t IH]; intros H Htl.
  - simpl. rewrite star_class_stops by exact Htl.
    apply HK. apply stops_dot_not_colon. exact Htl.
  - change (no_colon_digit (c :: t))
      with (negb (colon_digit_head (c :: t)) && no_colon_digit t) in H.
    apply andb_true_iff in H. destruct H as [H1 H2].
    apply negb_true_iff in H1.
    assert (Hc : colon_digit_head ((c :: t) ++ tl) = false).
    { destruct t as [|d t]; [apply colon_digit_head_last; exact Htl | exact H1]. }
    change ((c :: t) ++ tl) with (c :: t ++ tl) in *.
    simpl. rewrite (IH H2 Htl), (HK _ Hc). destruct (re_dot c); reflexivity.
Qed.

Lemma error_pattern_tail_matches_line : forall (R : Type) line message tl caps
    (k : jstr -> captures -> option R) r,
  line <> [] -> forallb re_digit line = true ->
  forallb re_dot message = true -> stops re_space (message ++ tl) = true ->
  stops re_dot tl = true ->
  k tl ((3, message) :: (2, line) :: caps) = Some r ->
  matcher error_pattern_tail (lit ":" ++ line ++ lit ": error: " ++ message ++ tl) caps k
  = Some r.
Proof.
  intros R line message tl caps k r Hne Hline Hmsg Hsp Htl Hk.
  destruct line as [|d ds]; [contradiction|].
  simpl in Hline. apply andb_true_iff in Hline. destruct Hline as [Hd Hds].
  unfold error_pattern_tail.
  cbn -[star_class N.eqb re_digit re_space re_dot firstn length lit literal].
  rewrite matcher_literal. cbv beta.
  change ((d :: ds) ++ lit ": error: " ++ message ++ tl)
    with (d :: ds ++ lit ": error: " ++ message ++ tl).
  cbv iota. rewrite Hd.
  apply star_class_run; [exact Hds | reflexivity |].
  change (lit ": error: " ++ message ++ tl)
    with (lit ":" ++ lit " " ++ lit "error:" ++ lit " " ++ message ++ tl).
  rewrite matcher_literal.
  apply star_class_run; [reflexivity | reflexivity |].
  rewrite matcher_literal.
  apply star_class_run; [reflexivity | exact Hsp |].
  apply star_class_run; [exact Hmsg | exact Htl |].
  rewrite firstn_length_app.
  change (d :: ds ++ lit ":" ++ lit " " ++ lit "error:" ++ lit " " ++ message ++ tl)
    with ((d :: ds) ++ lit ":" ++ lit " " ++ lit "error:" ++ lit " " ++ message ++ tl).
  rewrite firstn_length_app. exact Hk.
Qed.

Lemma exec_error_pattern_line : forall source line message tl,
  forallb re_dot source = true ->
  line <> [] -> forallb re_digit line = true ->
  forallb re_dot message = true -> no_colon_digit message = true ->
  stops re_space (message ++ tl) = true -> stops re_dot tl = true ->
  exec error_pattern (source ++ lit ":" ++ line ++ lit ": error: " ++ message ++ tl)
  = Some [(3, message); (2, line); (1, source)].
Proof.
  intros source line message tl Hsrc Hne Hline Hmsg Hcd Hsp Htl.
  rewrite exec_unfold. unfold match_at, error_pattern.
  cbn -[star_class error_pattern_tail firstn length lit].
  match goal with
  | |- context [star_class re_dot ?s ?K] =>
      assert (E : star_class re_dot s K
                  = Some (tl, [(3, message); (2, line); (1, source)]))
  end.
  { apply star_class_found; [exact Hsrc|].
    change (lit ":" ++ line ++ lit ": error: " ++ message ++ tl)
      with (58%N :: line ++ lit ": error: " ++ message ++ tl) at 1.
    rewrite star_class_cons.
    - change (58%N :: line ++ lit ": error: " ++ message ++ tl)
        with (lit ":" ++ line ++ lit ": error: " ++ message ++ tl).
      apply error_pattern_tail_matches_line; try assumption.
      rewrite firstn_length_app. reflexivity.
    - replace (line ++ lit ": error: " ++ message ++ tl)
        with ((line ++ lit ": error: " ++ message) ++ tl)
        by (rewrite <- !app_assoc; reflexivity).
      apply star_class_none_line.
      + intros t' Ht'. apply error_pattern_tail_fails. exact Ht'.
      + apply no_colon_digit_digits; [exact Hline|].
        apply no_colon_digit_error_literal. exact Hcd.
      + exact Htl. }
  rewrite E. reflexivity.
Qed.

Lemma sassReporter_transform_line :
  forall (path_resolve : jstr -> jstr) (file input : File) (output : list jstr)
         (source line message rest : jstr),
    contents file = None ->
    sassSource file = Some input ->
    sassError file = Some (source ++ lit ":" ++ line ++ lit ": error: " ++ message ++ rest) ->
    forallb re_dot source = true ->
    line <> [] -> forallb re_digit line = true ->
    forallb re_dot message = true -> no_colon_digit message = true ->
    stops re_space (message ++ rest) = true -> stops re_dot rest = true ->
    sassReporter_transform path_resolve file output =
      mkStep (add_string output
                (displayed_path path_resolve input source ++ lit ":" ++ line ++ lit ":0: "
                   ++ message ++ newline))
             [] Completed.
Proof.
  intros R file input output source line message rest Hc Hs He H1 H2 H3 H4 H5 H6 H7.
  unfold sassReporter_transform.
  assert (Hi : isError file = true).
  { apply isError_iff. split; [exact Hc|]. split; [|eauto].
    rewrite He. destruct source; simpl; eauto. }
  rewrite Hi, He. cbn [text_of].
  rewrite (exec_error_pattern_line source line message rest H1 H2 H3 H4 H5 H6 H7).
  unfold format_message, analysis_group, displayed_path. cbn [capture Nat.eqb].
  rewrite Hs. cbn [path].
  match goal with
  | |- context [negb (str_eqb ?m [])] =>
      assert (Hm : str_eqb m [] = false);
      [ apply str_eqb_neq; intros E; apply (f_equal (@length char)) in E;
        rewrite !length_app in E; simpl in E; lia
      | rewrite Hm; unfold add_string; cbn [negb andb];
        destruct (indexOf output m <? 0)%Z; reflexivity ]
  end.
Qed.

(** X12.  Only the first line of an error text is reported.  When the
    text starts with a source, a colon, a line number, [: error: ] and a
    message that runs to the end of the text or to a line terminator
    (the source and the message without line terminator, the message
    without a colon followed by a digit and not starting with white
    space), the record is an error marker, the three groups are the
    source, the line number and the message, and the entry buffered (if
    new) is the displayed path, a colon, the line number, [:0: ], the
    message and a line feed; what follows the first line is dropped. *)
Theorem sassReporter_reads_first_line :
  forall (path_resolve : jstr -> jstr) (file input : File) (output : list jstr)
         (source line message rest : jstr),
    contents file = None ->
    sassSource file = Some input ->
    sassError file = Some (source ++ lit ":" ++ line ++ lit ": error: " ++ message ++ rest) ->
    forallb re_dot source = true ->
    line <> [] -> forallb re_digit line = true ->
    forallb re_dot message = true -> no_colon_digit message = true ->
    stops re_space (message ++ rest) = true -> stops re_dot rest = true ->
    isError file = true /\
    exec error_pattern (text_of (sassError file))
      = Some [(3, message); (2, line); (1, source)] /\
    sassReporter_transform path_resolve file output =
      mkStep (add_string output
                (displayed_path path_resolve input source ++ lit ":" ++ line ++ lit ":0: "
                   ++ message ++ newline))
             [] Completed.
Proof.
  intros R file input output source line message rest Hc Hs He H1 H2 H3 H4 H5 H6 H7.
  split; [|split].
  - apply isError_iff. split; [exact Hc|]. split; [|eauto].
    rewrite He. destruct source; simpl; eauto.
  - rewrite He. cbn [text_of]. apply exec_error_pattern_line; assumption.
  - apply (sassReporter_transform_line R file input output source line message rest);
      assumption.
Qed.

(** An error text of three lines. *)
Lemma sassReporter_reads_first_line_witness :
  sassReporter_transform (posix_resolve (lit "/w"))
    (mkFile (lit "/w") (lit "/w") (lit "/w/a.css") None
       (Some (mkFile (lit "/w") (lit "/w") (lit "/w/a.scss") None None None))
       (Some (lit "lib/b:3: error: unbound variable $x" ++ newline
                ++ lit "  in mixin m" ++ newline)))
    []
  = mkStep [lit "/w/lib/b.scss:3:0: unbound variable $x" ++ newline] [] Completed.
Proof.
  refine (proj2 (proj2 (sassReporter_reads_first_line (posix_resolve (lit "/w"))
           (mkFile (lit "/w") (lit "/w") (lit "/w/a.css") None
              (Some (mkFile (lit "/w") (lit "/w") (lit "/w/a.scss") None None None))
              (Some (lit "lib/b:3: error: unbound variable $x" ++ newline
                       ++ lit "  in mixin m" ++ newline)))
           (mkFile (lit "/w") (lit "/w") (lit "/w/a.scss") None None None)
           [] (lit "lib/b") (lit "3") (lit "unbound variable $x")
           (newline ++ lit "  in mixin m" ++ newline)
           eq_refl eq_refl eq_refl eq_refl _ eq_refl eq_refl eq_refl eq_refl eq_refl))).
  discriminate.
Defined.

(** ** [sassReporter]: the flush, the banner width out of range *)

(** X13.  With a banner width below [-1], or of [2^32 - 1] and above,
    [new Array(width + 1)] throws: at the end of a stream that has
    buffered a message, the flush throws a [RangeError] and writes
    nothing; the records without error have been forwarded before.
    A width of [-1] does what an omitted width does. *)
Theorem sassReporter_width_out_of_range :
  forall (path_resolve : jstr -> jstr) (n : Z) (files : list File),
    (n < -1 \/ 2 ^ 32 - 1 <= n)%Z ->
    st_signal (through_obj (sassReporter_transform path_resolve) files []) = Completed ->
    st_next (through_obj (sassReporter_transform path_resolve) files []) <> [] ->
    sassReporter path_resolve (Some n) files =
      mkReport (filter (fun f => negb (isError f)) files)
               (st_next (through_obj (sassReporter_transform path_resolve) files []))
               [] (Threw RangeError) /\
    sassReporter path_resolve (Some (-1)%Z) files = sassReporter path_resolve None files.
Proof.
  intros R n files Hn Hc Hne. split.
  - unfold sassReporter. rewrite Hc.
    destruct (sassReporter_through R files [] Hc) as [Hp _]. rewrite Hp.
    destruct (st_next (through_obj (sassReporter_transform R) files [])) as [|m output];
      [contradiction|].
    unfold sassReporter_flush.
    assert (E : ((0 <=? n + 1) && (n + 1 <? 2 ^ 32))%Z = false).
    { apply andb_false_iff. destruct Hn as [Hn|Hn];
        [left; apply Z.leb_gt | right; apply Z.ltb_ge]; lia. }
    rewrite E. reflexivity.
  - unfold sassReporter. rewrite Hc.
    destruct (st_next (through_obj (sassReporter_transform R) files [])) as [|m output];
      reflexivity.
Qed.

(** A width of [-5], one record without error and one error marker. *)
Lemma sassReporter_width_out_of_range_witness :
  sassReporter (posix_resolve (lit "/w")) (Some (-5)%Z)
    [mkFile (lit "/w") (lit "/w") (lit "/w/a.css") (Some (lit "a{}")) None None;
     mkFile (lit "/w") (lit "/w") (lit "/w/c.css") None
       (Some (mkFile (lit "/w") (lit "/w") (lit "/w/c.scss") None None None))
       (Some (lit "source string:12: error: oops"))]
  = mkReport
      [mkFile (lit "/w") (lit "/w") (lit "/w/a.css") (Some (lit "a{}")) None None]
      [lit "/w/c.scss:12:0: oops" ++ newline] [] (Threw RangeError).
Proof.
  refine (proj1 (sassReporter_width_out_of_range (posix_resolve (lit "/w")) (-5)%Z
     [mkFile (lit "/w") (lit "/w") (lit "/w/a.css") (Some (lit "a{}")) None None;
      mkFile (lit "/w") (lit "/w") (lit "/w/c.css") None
        (Some (mkFile (lit "/w") (lit "/w") (lit "/w/c.scss") None None None))
        (Some (lit "source string:12: error: oops"))] _ _ _)).
  - left. lia.
  - reflexivity.
  - discriminate.
Defined.

(** ** [sassReporter]: after an error text the pattern does not match *)

(** X14.  An error marker whose text the pattern does not match stops
    the stage where it stands: the records without error that came
    before it have been forwarded, those after it are not handled, and
    since the flush never runs nothing is written, the messages buffered
    so far included. *)
Theorem sassReporter_throw_loses_report :
  forall (path_resolve : jstr -> jstr) (bannerWidth : option Z)
         (before after : list File) (file : File),
    Forall analysable before ->
    isError file = true ->
    exec error_pattern (text_of (sassError file)) = None ->
    sassReporter path_resolve bannerWidth (before ++ file :: after) =
      mkReport (filter (fun f => negb (isError f)) before)
               (first_seen_from [] (flat_map (message_of path_resolve) before))
               [] (Threw ReferenceError).
Proof.
  intros R bw before after file Hall Hi He.
  pose proof (sassReporter_analysable_completes R before [] Hall) as Hc.
  destruct (sassReporter_through R before [] Hc) as [Hp Hn].
  unfold sassReporter. rewrite (through_obj_app _ _ before (file :: after) [] Hc).
  cbn [st_signal st_pushed st_next through_obj].
  rewrite (sassReporter_throws_on_unmatched_text R file _ Hi He).
  cbn [st_signal st_pushed st_next]. rewrite app_nil_r, Hp, Hn.
  rewrite fold_add_string_first_seen. reflexivity.
Qed.

(** A reported error, then an error text without line number. *)
Lemma sassReporter_throw_loses_report_witness :
  sassReporter (posix_resolve (lit "/w")) (Some 5%Z)
    ([mkFile (lit "/w") (lit "/w") (lit "/w/a.css") (Some (lit "a{}")) None None;
      mkFile (lit "/w") (lit "/w") (lit "/w/c.css") None
        (Some (mkFile (lit "/w") (lit "/w") (lit "/w/c.scss") None None None))
        (Some (lit "source string:12: error: oops"))]
     ++ mkFile (lit "/w") (lit "/w") (lit "/w/d.css") None
          (Some (mkFile (lit "/w") (lit "/w") (lit "/w/d.scss") None None None))
          (Some (lit "boom"))
     :: [mkFile (lit "/w") (lit "/w") (lit "/w/e.css") (Some (lit "e{}")) None None])
  = mkReport
      [mkFile (lit "/w") (lit "/w") (lit "/w/a.css") (Some (lit "a{}")) None None]
      [lit "/w/c.scss:12:0: oops" ++ newline] [] (Threw ReferenceError).
Proof.
  apply (sassReporter_throw_loses_report (posix_resolve (lit "/w")) (Some 5%Z)
     [mkFile (lit "/w") (lit "/w") (lit "/w/a.css") (Some (lit "a{}")) None None;
      mkFile (lit "/w") (lit "/w") (lit "/w/c.css") None
        (Some (mkFile (lit "/w") (lit "/w") (lit "/w/c.scss") None None None))
        (Some (lit "source string:12: error: oops"))]
     [mkFile (lit "/w") (lit "/w") (lit "/w/e.css") (Some (lit "e{}")) None None]
     (mkFile (lit "/w") (lit "/w") (lit "/w/d.css") None
        (Some (mkFile (lit "/w") (lit "/w") (lit "/w/d.scss") None None None))
        (Some (lit "boom")))).
  - repeat constructor; intros H; first [discriminate H | discriminate].
  - reflexivity.
  - reflexivity.
Defined.

(** ** [transpile] piped into [sassReporter] *)

Lemma sassReporter_clean_stream : forall R bannerWidth files,
  (forall f, In f files -> isError f = false) ->
  sassReporter R bannerWidth files = mkReport files [] [] Completed.
Proof.
  intros R bw files H.
  assert (E : through_obj (sassReporter_transform R) files [] = mkStep [] files Completed).
  { induction files as [|f files IH]; [reflexivity|].
    assert (Hf : sassReporter_transform R f [] = mkStep [] [f] Completed).
    { unfold sassReporter_transform. rewrite (H f (or_introl eq_refl)). reflexivity. }
    cbn [through_obj]. rewrite Hf. cbn [st_signal st_next st_pushed].
    rewrite IH by (intros g Hg; apply H; right; exact Hg). reflexivity. }
  unfold sassReporter. rewrite E. reflexivity.
Qed.

(** X15.  As long as the compiler reports no error, or reports one with
    an empty text, whatever one transform of [transpile] pushes goes
    through [sassReporter] unchanged and nothing is reported: the CSS
    and map records have content, and the error record of an empty
    error text is not taken for an error marker. *)
Theorem transpile_output_passes_reporter :
  forall (path_resolve : jstr -> jstr) (bannerWidth : option Z)
         (outputStyle : option jstr) (file : File) (libList : list jstr)
         (replies : list reply),
    (forall r error, In r replies -> reply_result r = Failure error -> error = []) ->
    sassReporter path_resolve bannerWidth
      (st_pushed (transpile_step outputStyle file (libList, replies)))
    = mkReport (st_pushed (transpile_step outputStyle file (libList, replies)))
               [] [] Completed.
Proof.
  intros R bw style file libList replies Hok.
  apply sassReporter_clean_stream. intros rec Hin.
  rewrite transpile_step_run in Hin. cbn [st_pushed] in Hin.
  rewrite transpile_trace in Hin.
  destruct replies as [|[[css0 map0|e] libs1] rest];
    cbn [reply_result reply_libList pushes] in Hin; [contradiction| |].
  - destruct rest as [|[[css map|e] libs2] rest];
      cbn [reply_result reply_libList pushes] in Hin; [contradiction| |].
    + apply successHandler_pushes in Hin.
      destruct Hin as [->|[v [_ ->]]]; reflexivity.
    + destruct Hin as [<-|[]].
      rewrite (Hok (mkReply (Failure e) libs2) e); [reflexivity | right; left; reflexivity
                                                    | reflexivity].
  - destruct Hin as [<-|[]].
    rewrite (Hok (mkReply (Failure e) libs1) e); [reflexivity | left; reflexivity
                                                  | reflexivity].
Qed.

(** A failure the text of which is empty. *)
Lemma transpile_output_passes_reporter_witness :
  sassReporter (posix_resolve (lit "/w")) (Some 5%Z)
    (st_pushed (transpile_step None sample_file ([], [mkReply (Failure []) []])))
  = mkReport [error_record sample_file []] [] [] Completed.
Proof.
  apply (transpile_output_passes_reporter (posix_resolve (lit "/w")) (Some 5%Z) None
           sample_file [] [mkReply (Failure []) []]).
  intros r error [<-|[]] H. injection H as <-. reflexivity.
Defined.

(** X16.  When the first call fails with a text whose first line is a
    source, a colon, a line number, [: error: ] and a message, the
    record [transpile] pushes is stopped by [sassReporter], which (no
    banner width given) writes one block at the end: an empty line, the
    displayed path, a colon, the line number, [:0: ], the message, and
    two line feeds.  The displayed path is the path of the input of
    [transpile] when the source is [source string]. *)
Theorem transpile_failure_is_reported :
  forall (path_resolve : jstr -> jstr) (outputStyle : option jstr) (file : File)
         (libList libs1 : list jstr) (later : list reply)
         (source line message rest : jstr),
    forallb re_dot source = true ->
    line <> [] -> forallb re_digit line = true ->
    forallb re_dot message = true -> no_colon_digit message = true ->
    stops re_space (message ++ rest) = true -> stops re_dot rest = true ->
    sassReporter path_resolve None
      (st_pushed (transpile_step outputStyle file
         (libList,
          mkReply (Failure (source ++ lit ":" ++ line ++ lit ": error: " ++ message ++ rest))
                  libs1 :: later)))
    = mkReport []
        [displayed_path path_resolve file source ++ lit ":" ++ line ++ lit ":0: "
           ++ message ++ newline]
        [newline ++ displayed_path path_resolve file source ++ lit ":" ++ line ++ lit ":0: "
           ++ message ++ newline ++ newline]
        Completed.
Proof.
  intros R style file libList libs1 later source line message rest H1 H2 H3 H4 H5 H6 H7.
  rewrite transpile_step_run. cbn [st_pushed]. rewrite transpile_trace.
  cbn [reply_result pushes].
  unfold sassReporter. cbn [through_obj].
  rewrite (sassReporter_transform_line R _ file [] source line message rest);
    try assumption; try reflexivity.
  cbn [st_signal st_pushed st_next app]. unfold add_string. cbn [indexOf Z.ltb Z.compare].
  rewrite (sassReporter_flush_block None 0%Z) by (try reflexivity; try lia; discriminate).
  change (banner_line banner_top 0) with (@nil char).
  change (banner_line banner_bottom 0) with (@nil char).
  cbn [join app]. rewrite app_nil_r, <- !app_assoc. reflexivity.
Qed.

(** The sample file, an error in the file itself. *)
Lemma transpile_failure_is_reported_witness :
  rp_stdout (sassReporter (posix_resolve (lit "/w")) None
    (st_pushed (transpile_step None sample_file
       ([], [mkReply (Failure (lit "source string:12: error: oops" ++ newline)) []]))))
  = [newline ++ lit "/proj/src/app.scss:12:0: oops" ++ newline ++ newline].
Proof.
  refine (f_equal rp_stdout
            (transpile_failure_is_reported (posix_resolve (lit "/w")) None sample_file
               [] [] [] (lit "source string") (lit "12") (lit "oops") newline
               eq_refl _ eq_refl eq_refl eq_refl eq_refl eq_refl)).
  discriminate.
Defined.

(** ** [sassReporter]: what is forwarded *)

Lemma sassReporter_pushes_no_marker : forall R files output f,
  In f (st_pushed (through_obj (sassReporter_transform R) files output)) ->
  isError f = false.
Proof.
  intros R. induction files as [|a files IH]; intros output f Hin; [destruct Hin|].
  cbn [through_obj] in Hin.
  destruct (isError a) eqn:Ea.
  - assert (Hp : st_pushed (sassReporter_transform R a output) = []).
    { unfold sassReporter_transform. rewrite Ea.
      destruct (exec error_pattern (text_of (sassError a))); [|reflexivity].
      destruct (negb _ && _); reflexivity. }
    destruct (st_signal (sassReporter_transform R a output));
      cbn [st_pushed] in Hin; rewrite Hp in Hin; try destruct Hin.
    apply (IH _ _ Hin).
  - assert (Hs : sassReporter_transform R a output = mkStep output [a] Completed).
    { unfold sassReporter_transform. rewrite Ea. reflexivity. }
    rewrite Hs in Hin. cbn [st_signal st_pushed st_next app] in Hin.
    destruct Hin as [<-|Hin]; [exact Ea | apply (IH _ _ Hin)].
Qed.

Lemma sassReporter_pushed : forall R bannerWidth files,
  rp_pushed (sassReporter R bannerWidth files)
  = st_pushed (through_obj (sassReporter_transform R) files []).
Proof.
  intros R bw files. unfold sassReporter.
  destruct (st_signal (through_obj (sassReporter_transform R) files [])); try reflexivity.
  destruct (sassReporter_flush bw _). reflexivity.
Qed.

Lemma sassReporter_pushes_from_input : forall R files output f,
  In f (st_pushed (through_obj (sassReporter_transform R) files output)) -> In f files.
Proof.
  intros R. induction files as [|a files IH]; intros output f Hin; [destruct Hin|].
  cbn [through_obj] in Hin.
  assert (Hsub : forall g, In g (st_pushed (sassReporter_transform R a output)) -> a = g).
  { intros g. unfold sassReporter_transform. destruct (isError a).
    - destruct (exec error_pattern (text_of (sassError a))); [|intros []].
      destruct (negb _ && _); intros [].
    - intros [<-|[]]. reflexivity. }
  destruct (st_signal (sassReporter_transform R a output)).
  - cbn [st_pushed] in Hin. apply in_app_or in Hin. destruct Hin as [Hin|Hin].
    + left. apply Hsub. exact Hin.
    + right. apply (IH _ _ Hin).
  - left. apply Hsub. exact Hin.
  - left. apply Hsub. exact Hin.
  - left. apply Hsub. exact Hin.
Qed.

(** X17.  Whatever [sassReporter] forwards is a record of its input
    that is not an error marker, whether the stage reaches its end or
    throws on the way.  A second [sassReporter] downstream therefore
    forwards all of it unchanged and reports nothing, whatever its
    banner width. *)
Theorem sassReporter_output_is_clean :
  forall (path_resolve path_resolve' : jstr -> jstr) (bannerWidth bannerWidth' : option Z)
         (files : list File),
    (forall f, In f (rp_pushed (sassReporter path_resolve bannerWidth files)) ->
               In f files /\ isError f = false) /\
    sassReporter path_resolve' bannerWidth'
        (rp_pushed (sassReporter path_resolve bannerWidth files))
      = mkReport (rp_pushed (sassReporter path_resolve bannerWidth files)) [] [] Completed.
Proof.
  intros R R' bw bw' files.
  assert (Hclean : forall f, In f (rp_pushed (sassReporter R bw files)) ->
                             In f files /\ isError f = false).
  { intros f Hf. rewrite sassReporter_pushed in Hf. split.
    - apply (sassReporter_pushes_from_input R files [] f Hf).
    - apply (sassReporter_pushes_no_marker R files [] f Hf). }
  split; [exact Hclean|].
  apply sassReporter_clean_stream. intros f Hf. apply Hclean. exact Hf.
Qed.

(** ** [injectAppCSS]: the glob *)

Lemma get_substitution_app : forall matched before after plain r,
  dollar_free plain = true ->
  get_substitution matched before after (plain ++ r)
  = plain ++ get_substitution matched before after r.
Proof.
  intros m b a. induction plain as [|c plain IH]; intros r H; [reflexivity|].
  simpl in H. apply andb_true_iff in H. destruct H as [Hc Hp].
  apply negb_true_iff in Hc.
  change ((c :: plain) ++ r) with (c :: plain ++ r).
  cbn [get_substitution]. rewrite Hc, IH by exact Hp. reflexivity.
Qed.

Lemma get_substitution_plain : forall matched before after plain,
  dollar_free plain = true -> get_substitution matched before after plain = plain.
Proof.
  intros m b a plain H. rewrite <- (app_nil_r plain) at 1.
  rewrite get_substitution_app by exact H. apply app_nil_r.
Qed.

Lemma replace_first_with_unfold : forall pattern replacement passed s,
  replace_first_with pattern replacement passed s =
  match strip_prefix pattern s with
  | Some rest => get_substitution pattern (rev passed) rest replacement ++ rest
  | None =>
      match s with
      | [] => []
      | c :: s' => c :: replace_first_with pattern replacement (c :: passed) s'
      end
  end.
Proof. intros pattern replacement passed [|c s]; reflexivity. Qed.

Lemma replace_first_with_head : forall pattern replacement rest,
  replace_first_with pattern replacement [] (pattern ++ rest)
  = get_substitution pattern [] rest replacement ++ rest.
Proof.
  intros pattern replacement rest.
  rewrite replace_first_with_unfold, strip_prefix_app. reflexivity.
Qed.

Lemma contains_unfold : forall sub s,
  contains sub s = match strip_prefix sub s with
                   | Some _ => true
                   | None => match s with [] => false | _ :: s' => contains sub s' end
                   end.
Proof. intros sub [|c s]; reflexivity. Qed.

Lemma replace_first_with_absent : forall pattern replacement s passed,
  contains pattern s = false -> replace_first_with pattern replacement passed s = s.
Proof.
  intros pattern replacement. induction s as [|c s IH]; intros passed H;
    rewrite contains_unfold in H; rewrite replace_first_with_unfold;
    destruct (strip_prefix pattern _); try discriminate; [reflexivity|].
  f_equal. apply IH. exact H.
Qed.

Lemma replace_first_with_itself : forall pattern s passed,
  dollar_free pattern = true -> replace_first_with pattern pattern passed s = s.
Proof.
  intros pattern. induction s as [|c s IH]; intros passed H;
    rewrite replace_first_with_unfold;
    destruct (strip_prefix pattern _) as [rest|] eqn:E.
  - apply strip_prefix_sound in E. rewrite get_substitution_plain by exact H.
    symmetry. exact E.
  - reflexivity.
  - apply strip_prefix_sound in E. rewrite get_substitution_plain by exact H.
    symmetry. exact E.
  - f_equal. apply IH. exact H.
Qed.

Lemma get_substitution_empty : forall matched before after,
  get_substitution matched before after [] = [].
Proof. reflexivity. Qed.

(** With an empty replacement, this is [replace_first]. *)
Lemma replace_first_with_nothing : forall pattern s passed,
  replace_first_with pattern [] passed s = replace_first pattern s.
Proof.
  intros pattern. induction s as [|c s IH]; intros passed;
    rewrite replace_first_with_unfold, replace_first_unfold;
    destruct (strip_prefix pattern _); try reflexivity.
  f_equal. apply IH.
Qed.

(** X18.  Without [cssBasePath] (omitted, or the empty string), and the
    resolved base of the record holding no dollar sign, the CSS base is
    the resolved base and the glob is the resolved directory of the
    record followed by [/*.css]: the style sheets are looked for beside
    the HTML file. *)
Theorem injectAppCSS_adjacent_by_default :
  forall (process_cwd : jstr) (cssBasePath : option jstr) (file : File),
    truthy_text cssBasePath = false ->
    dollar_free (htmlBase process_cwd file) = true ->
    cssBase process_cwd cssBasePath file = htmlBase process_cwd file /\
    glob process_cwd cssBasePath file = htmlPath process_cwd file ++ lit "/*.css".
Proof.
  intros pc css file Hc Hd.
  assert (E : cssBase pc css file = htmlBase pc file).
  { unfold cssBase. rewrite Hc. reflexivity. }
  split; [exact E|]. unfold glob. rewrite E.
  rewrite replace_first_with_itself by exact Hd. reflexivity.
Qed.

(** A relative base and path, in a process running in [/home/me]. *)
Lemma injectAppCSS_adjacent_by_default_witness :
  glob (lit "/home/me") (Some []) 
       (mkFile (lit "/home/me") (lit "site") (lit "site/pages/index.html") None None None)
  = lit "/home/me/site/pages/*.css".
Proof.
  refine (proj2 (injectAppCSS_adjacent_by_default (lit "/home/me") (Some [])
            (mkFile (lit "/home/me") (lit "site") (lit "site/pages/index.html")
                    None None None) eq_refl eq_refl)).
Defined.

(** X19.  When the resolved directory of the record is the resolved base
    followed by [relative], and the CSS base holds no dollar sign, the
    glob is the CSS base, [relative] and [/*.css]: the style sheets are
    looked for in the same relative directory under the CSS base. *)
Theorem injectAppCSS_relocates_under_css_base :
  forall (process_cwd : jstr) (cssBasePath : option jstr) (file : File) (relative : jstr),
    htmlPath process_cwd file = htmlBase process_cwd file ++ relative ->
    dollar_free (cssBase process_cwd cssBasePath file) = true ->
    glob process_cwd cssBasePath file
      = cssBase process_cwd cssBasePath file ++ relative ++ lit "/*.css".
Proof.
  intros pc css file rel Hp Hd. unfold glob. rewrite Hp.
  rewrite replace_first_with_head, get_substitution_plain by exact Hd.
  rewrite <- app_assoc. reflexivity.
Qed.

(** A relative [cssBasePath], resolved from the working directory of the
    process. *)
Lemma injectAppCSS_relocates_under_css_base_witness :
  glob (lit "/home/me") (Some (lit "build/css"))
       (mkFile (lit "/home/me") (lit "/home/me/site")
               (lit "/home/me/site/pages/a/index.html") None None None)
  = lit "/home/me/build/css/pages/a/*.css".
Proof.
  apply (injectAppCSS_relocates_under_css_base (lit "/home/me") (Some (lit "build/css"))
           (mkFile (lit "/home/me") (lit "/home/me/site")
                   (lit "/home/me/site/pages/a/index.html") None None None)
           (lit "/pages/a")); reflexivity.
Defined.

(** X20.  When the resolved base does not occur in the resolved
    directory of the record, nothing is replaced: the glob is that
    directory followed by [/*.css], and [cssBasePath] has no effect. *)
Theorem injectAppCSS_outside_base :
  forall (process_cwd : jstr) (cssBasePath : option jstr) (file : File),
    contains (htmlBase process_cwd file) (htmlPath process_cwd file) = false ->
    glob process_cwd cssBasePath file = htmlPath process_cwd file ++ lit "/*.css".
Proof.
  intros pc css file H. unfold glob.
  rewrite replace_first_with_absent by exact H. reflexivity.
Qed.

(** A record outside its base. *)
Lemma injectAppCSS_outside_base_witness :
  glob (lit "/home/me") (Some (lit "/build/css"))
       (mkFile (lit "/home/me") (lit "/home/me/site")
               (lit "/srv/other/index.html") None None None)
  = lit "/srv/other/*.css".
Proof.
  apply (injectAppCSS_outside_base (lit "/home/me") (Some (lit "/build/css"))
           (mkFile (lit "/home/me") (lit "/home/me/site")
                   (lit "/srv/other/index.html") None None None)).
  reflexivity.
Defined.

(** X21.  The CSS base is the replacement text of a [replace] call, in
    which a dollar sign is not always itself.  For a record whose
    resolved directory is the resolved base followed by [relative]:
    where the CSS base holds two dollar signs (and no other) the glob
    holds one, and where it holds a dollar sign and an ampersand (and no
    other dollar sign) the glob holds the resolved base of the record in
    their place. *)
Theorem injectAppCSS_expands_dollar_patterns :
  forall (process_cwd : jstr) (cssBasePath : option jstr) (file : File)
         (relative front back : jstr),
    htmlPath process_cwd file = htmlBase process_cwd file ++ relative ->
    dollar_free front = true -> dollar_free back = true ->
    (cssBase process_cwd cssBasePath file = front ++ lit "$$" ++ back ->
     glob process_cwd cssBasePath file
       = front ++ lit "$" ++ back ++ relative ++ lit "/*.css") /\
    (cssBase process_cwd cssBasePath file = front ++ lit "$&" ++ back ->
     glob process_cwd cssBasePath file
       = front ++ htmlBase process_cwd file ++ back ++ relative ++ lit "/*.css").
Proof.
  intros pc css file rel front back Hp Hf Hb. unfold glob. rewrite Hp.
  rewrite replace_first_with_head. split; intros ->.
  - rewrite get_substitution_app by exact Hf.
    change (lit "$$" ++ back) with (36%N :: 36%N :: back).
    cbn [get_substitution N.eqb Pos.eqb].
    rewrite get_substitution_plain by exact Hb.
    rewrite <- !app_assoc. reflexivity.
  - rewrite get_substitution_app by exact Hf.
    change (lit "$&" ++ back) with (36%N :: 38%N :: back).
    cbn [get_substitution N.eqb Pos.eqb].
    rewrite get_substitution_plain by exact Hb.
    rewrite <- !app_assoc. reflexivity.
Qed.

(** A CSS base with two dollar signs. *)
Lemma injectAppCSS_expands_dollar_patterns_witness :
  glob (lit "/home/me") (Some (lit "/build/$$css"))
       (mkFile (lit "/home/me") (lit "/home/me/site")
               (lit "/home/me/site/pages/index.html") None None None)
  = lit "/build/$css/pages/*.css".
Proof.
  refine (proj1 (injectAppCSS_expands_dollar_patterns (lit "/home/me")
            (Some (lit "/build/$$css"))
            (mkFile (lit "/home/me") (lit "/home/me/site")
                    (lit "/home/me/site/pages/index.html") None None None)
            (lit "/pages") (lit "/build/") (lit "css") eq_refl eq_refl eq_refl) eq_refl).
Defined.

(** ** [injectAppCSS]: the directory of the record *)

Lemma split_on_not_nil : forall sep s, split_on sep s <> [].
Proof.
  intros sep [|c s]; simpl; [discriminate|].
  destruct (N.eqb c sep); [discriminate|].
  destruct (split_on sep s); discriminate.
Qed.

Lemma split_on_snoc : forall sep s,
  split_on sep (s ++ [sep]) = split_on sep s ++ [[]].
Proof.
  intros sep. induction s as [|c s IH].
  - simpl. rewrite N.eqb_refl. reflexivity.
  - simpl. destruct (N.eqb c sep); rewrite IH; [reflexivity|].
    destruct (split_on sep s) as [|seg segs] eqn:E; [|reflexivity].
    exfalso. apply (split_on_not_nil sep s). exact E.
Qed.

Lemma normalize_segments_snoc : forall segs acc,
  normalize_segments (segs ++ [[]]) acc = normalize_segments segs acc.
Proof.
  induction segs as [|seg segs IH]; intros acc; [reflexivity|].
  simpl. destruct (str_eqb seg [] || str_eqb seg [dot_char]); [apply IH|].
  destruct (str_eqb seg [dot_char; dot_char]); apply IH.
Qed.

Lemma posix_resolve_trailing_slash : forall process_cwd p,
  p <> [] -> posix_resolve process_cwd (p ++ [slash_char]) = posix_resolve process_cwd p.
Proof.
  intros pc [|c p] H; [contradiction|]. unfold posix_resolve.
  change ((c :: p) ++ [slash_char]) with (c :: p ++ [slash_char]).
  cbv iota. destruct (is_slash c).
  - change (c :: p ++ [slash_char]) with ((c :: p) ++ [slash_char]).
    rewrite split_on_snoc, normalize_segments_snoc. reflexivity.
  - replace (pc ++ [slash_char] ++ c :: p ++ [slash_char])
      with ((pc ++ [slash_char] ++ c :: p) ++ [slash_char])
      by (rewrite <- !app_assoc; reflexivity).
    rewrite split_on_snoc, normalize_segments_snoc. reflexivity.
Qed.

Lemma take_while_all : forall (p : char -> bool) a b,
  forallb p a = true -> stops p b = true -> take_while p (a ++ b) = a.
Proof.
  intros p. induction a as [|c a IH]; intros b Ha Hb.
  - destruct b as [|d b]; [reflexivity|]. simpl in *.
    apply negb_true_iff in Hb. rewrite Hb. reflexivity.
  - simpl in Ha. apply andb_true_iff in Ha. destruct Ha as [Hc Ha].
    simpl. rewrite Hc, IH by assumption. reflexivity.
Qed.

Lemma last_segment_reversed : forall x y,
  x <> [] -> forallb (fun c => negb (is_slash c)) x = true ->
  take_while (fun c => negb (is_slash c)) (drop_while is_slash (x ++ slash_char :: y)) = x.
Proof.
  intros [|c x] y Hne Hx; [contradiction|].
  pose proof Hx as Hc. simpl in Hc. apply andb_true_iff in Hc. destruct Hc as [Hc _].
  apply negb_true_iff in Hc.
  change ((c :: x) ++ slash_char :: y) with (c :: x ++ slash_char :: y).
  cbn [drop_while]. rewrite Hc.
  change (c :: x ++ slash_char :: y) with ((c :: x) ++ slash_char :: y).
  apply take_while_all; [exact Hx | reflexivity].
Qed.

Lemma basename_of_directory_and_name : forall dir name,
  name <> [] -> forallb (fun c => negb (is_slash c)) name = true ->
  basename (dir ++ [slash_char] ++ name) = name.
Proof.
  intros dir name Hne Hname. unfold basename.
  replace (rev (dir ++ [slash_char] ++ name)) with (rev name ++ slash_char :: rev dir)
    by (rewrite !rev_app_distr, <- app_assoc; reflexivity).
  rewrite last_segment_reversed.
  - apply rev_involutive.
  - intros E. apply Hne. rewrite <- (rev_involutive name), E. reflexivity.
  - rewrite forallb_forall in *. intros c Hc. apply Hname. apply in_rev. exact Hc.
Qed.

(** X22.  For a record whose path is a directory, a slash and a file
    name (the directory not empty, the name without slash and occurring
    nowhere else in the path), [htmlName] is the file name and
    [htmlPath] is what [path.resolve] gives for the directory: the
    slash left behind by the removal of the name does not count.
    Without [cssBasePath] (the resolved base holding no dollar sign) the
    glob is that resolved directory followed by [/*.css]. *)
Theorem injectAppCSS_html_directory :
  forall (process_cwd : jstr) (file : File) (dir name : jstr),
    path file = dir ++ [slash_char] ++ name ->
    dir <> [] -> name <> [] ->
    forallb (fun c => negb (is_slash c)) name = true ->
    (forall a b, path file = a ++ name ++ b -> b = []) ->
    htmlName file = name /\
    htmlPath process_cwd file = posix_resolve process_cwd dir /\
    (forall cssBasePath,
        truthy_text cssBasePath = false ->
        dollar_free (htmlBase process_cwd file) = true ->
        glob process_cwd cssBasePath file = posix_resolve process_cwd dir ++ lit "/*.css").
Proof.
  intros pc file dir name Hp Hd Hn Hs Ho.
  assert (Hb : htmlName file = name).
  { unfold htmlName. rewrite Hp. apply basename_of_directory_and_name; assumption. }
  assert (Hh : htmlPath pc file = posix_resolve pc dir).
  { unfold htmlPath. rewrite Hb.
    replace (replace_first name (path file)) with (dir ++ [slash_char]).
    - apply posix_resolve_trailing_slash. exact Hd.
    - symmetry. rewrite Hp, app_assoc. apply replace_first_last.
      intros a b E. apply (Ho a b). rewrite Hp, app_assoc. exact E. }
  split; [exact Hb|]. split; [exact Hh|].
  intros css Hc Hdf. unfold glob, cssBase. rewrite Hc, Hh.
  rewrite replace_first_with_itself by exact Hdf. reflexivity.
Qed.

(** A relative path with a parent segment. *)
Lemma injectAppCSS_html_directory_witness :
  htmlPath (lit "/home/me")
    (mkFile (lit "/home/me") (lit "site") (lit "site/pages/../index.html") None None None)
  = lit "/home/me/site".
Proof.
  refine (proj1 (proj2 (injectAppCSS_html_directory (lit "/home/me")
            (mkFile (lit "/home/me") (lit "site") (lit "site/pages/../index.html")
                    None None None)
            (lit "site/pages/..") (lit "index.html") eq_refl _ _ eq_refl _))).
  - discriminate.
  - discriminate.
  - intros a b E. pose proof (f_equal (@length char) E) as Hl.
    rewrite !length_app in Hl. cbn in Hl.
    do 15 (destruct a as [|? a];
           [first [discriminate E
                  | destruct b; [reflexivity | exfalso; cbn in Hl; lia]]|]).
    exfalso. cbn in Hl. lia.
Defined.
